(** * Voice Drama Studio: the media assembly pipeline and the batch workflow

    A shallow embedding of
    - [src/utils/audioUtils.ts]: [mergeAudioBuffers], [bufferToWav],
      [bufferToMp3], [createDynamicWebmVideo], [createWebmVideo];
    - [services/batchStorageService]: the job metadata list kept in
      localStorage and the blob store kept in IndexedDB;
    - [App.tsx] and [pages/BatchPage]: the three workflow steps and the batch
      loops that drive them;
    - [hooks/useDramaData] and [pages/StudioPage]: [loadFromJob],
      [handleSaveToJob] and [handleSaveAsNewJob];
    - [utils/audioUtils.ts] again: [decodeRawPCM] and [blobToBase64];
    - [services/podcastService]: [escapeXml] and [formatDuration] of
      [generateRSSFeed];
    - [lib/tts/registry.ts]: the registry of speech providers;
    - [services/youtubeService.ts]: the resumable upload of [uploadToYouTube].

    Conventions.
    - A JavaScript number is an exact rational ([Q]).  Samples are float32
      values and the products the encoders form with 32767 and 32768 are exact
      in double precision, so the sample arithmetic is the code's.  Durations
      are not: [buffer.duration], the running sums of [mergeAudioBuffers] and
      the product it takes the ceiling of are each rounded to a double by the
      code and exact here, so the length and the start times of the merge are
      the code's up to that rounding only.  No statement below depends on
      their values, except on the length 0 of a merge of no clip, which no
      rounding touches.
    - A thrown exception or a rejected promise is the [Err] case of [Result].
    - What the browser does behind a Web API call (offline rendering, image and
      audio decoding, the media recorder and its failures) is a member of the
      class [Platform]; what a remote collaborator answers is a field of the record
      [Collaborators].  Theorems hold for every platform and every collaborator
      behaviour unless a hypothesis says otherwise. *)

From Stdlib Require Import ZArith QArith Qround Qminmax Lqa Lia.
From stdpp Require Import base option list strings gmap pretty.

Open Scope Q_scope.

(** ** Exceptions and results *)

Inductive Exception : Type :=
  | Error (message : string)          (* [new Error(message)] *)
  | DOMException (name : string)      (* raised by a Web API *)
  | ErrorEvent (target : string).     (* an [error] event passed to [reject] *)

Inductive Result (A : Type) : Type :=
  | Ok (a : A)
  | Err (e : Exception).
Arguments Ok {A} a.
Arguments Err {A} e.

Definition bindR {A B} (r : Result A) (k : A -> Result B) : Result B :=
  match r with
  | Ok a => k a
  | Err e => Err e
  end.

Definition mapR {A B} (f : A -> B) (r : Result A) : Result B :=
  bindR r (fun a => Ok (f a)).

Definition is_Ok {A} (r : Result A) : bool :=
  match r with Ok _ => true | Err _ => false end.

(** JavaScript truthiness of an optional string: [undefined] and the empty
    string are falsy. *)
Definition truthy (o : option string) : bool :=
  match o with
  | Some s => negb (String.eqb s "")
  | None => false
  end.

(** A [Blob]: its MIME type and its bytes. *)
Record Blob : Type := mkBlob { blob_type : string; blob_bytes : list Z }.

(** ** Audio buffers *)

Module Audio.

(** An [AudioBuffer].  [channelData] holds one list of samples per channel;
    [length] is the number of sample frames. *)
Record AudioBuffer : Type := mkAudioBuffer {
  sampleRate : positive;
  length : nat;
  channelData : list (list Q)
}.

Definition numberOfChannels (b : AudioBuffer) : nat := List.length (channelData b).

(** [buffer.duration] is [length / sampleRate] seconds (exact here, the
    nearest double in the browser). *)
Definition duration (b : AudioBuffer) : Q := Z.of_nat (length b) # sampleRate b.

(** A buffer as the platform hands it out: at least one channel, at least one
    frame, and [length] samples in every channel. *)
Definition well_formed (b : AudioBuffer) : Prop :=
  (0 < numberOfChannels b)%nat /\ (0 < length b)%nat /\
  Forall (fun c => List.length c = length b) (channelData b).

(** An [OfflineAudioContext] together with the buffer sources started on it:
    each source is a buffer and the time, in seconds, given to [start]. *)
Record OfflineAudioContext : Type := mkOfflineAudioContext {
  ctx_numberOfChannels : Z;
  ctx_length : Z;
  ctx_sampleRate : Z;
  ctx_sources : list (AudioBuffer * Q)
}.

(** The constructor raises [NotSupportedError] when an argument is zero or
    negative. *)
Definition new_OfflineAudioContext (numberOfChannels length sampleRate : Z)
  : Result OfflineAudioContext :=
  if ((numberOfChannels <=? 0) || (length <=? 0) || (sampleRate <=? 0))%Z
  then Err (DOMException "NotSupportedError")
  else Ok (mkOfflineAudioContext numberOfChannels length sampleRate []).

(** [createBufferSource], [source.buffer = buffer], [connect], [start(when)]. *)
Definition start_source (ctx : OfflineAudioContext) (buffer : AudioBuffer) (when : Q)
  : OfflineAudioContext :=
  mkOfflineAudioContext (ctx_numberOfChannels ctx) (ctx_length ctx)
    (ctx_sampleRate ctx) (ctx_sources ctx ++ [(buffer, when)]).

(** *** mergeAudioBuffers *)

(** [buffers.reduce((acc, b) => acc + b.duration, 0)] *)
Definition totalDuration (buffers : list AudioBuffer) : Q :=
  fold_left (fun acc b => acc + duration b) buffers 0.

(** [Math.ceil(totalDuration * 44100)], with the sum and the product exact:
    the code's doubles give another length when the rounded product falls on
    the other side of a whole number (one clip of 13 frames at 44100 Hz: 14
    in the browser, 13 here). *)
Definition totalLength (buffers : list AudioBuffer) : Z :=
  Qceiling (totalDuration buffers * 44100).

(** The [for (const buffer of buffers)] loop, with [currentOffset] threaded. *)
Fixpoint schedule (offlineCtx : OfflineAudioContext) (currentOffset : Q)
  (buffers : list AudioBuffer) : OfflineAudioContext :=
  match buffers with
  | [] => offlineCtx
  | buffer :: rest =>
      schedule (start_source offlineCtx buffer currentOffset)
               (currentOffset + duration buffer) rest
  end.

(** [mergeAudioBuffers] up to, and without, the final [startRendering]. *)
Definition mergeContext (buffers : list AudioBuffer) : Result OfflineAudioContext :=
  bindR (new_OfflineAudioContext 1 1 44100) (fun _ =>
  bindR (new_OfflineAudioContext 1 (totalLength buffers) 44100) (fun offlineCtx =>
  Ok (schedule offlineCtx 0 buffers))).

(** What the canvas and the audio graph are asked to do while the media
    recorder captures them. *)
Inductive CaptureEvent : Type :=
  | RecorderStart (width height videoBitsPerSecond : Z)
  | FillBlack                       (* [fillRect] over the whole canvas *)
  | DrawImage (image : string)      (* the image, centred and scaled to fit *)
  | PlayBuffer (buffer : AudioBuffer)
  | Hold (ms : Q)                   (* [setTimeout] of that many milliseconds *)
  | RecorderStop.

(** What the browser computes behind the Web APIs the pipeline calls. *)
Class Platform : Type := {
  (** the sample an offline context renders into a channel at a frame *)
  renderChannel : OfflineAudioContext -> nat -> nat -> Q;
  (** [decodeAudioData] on the bytes of an audio file; [None] when it rejects *)
  decodeAudioData : list Z -> option AudioBuffer;
  (** whether an [Image] with this base64 source fires [onload] *)
  imageLoads : string -> bool;
  (** the exception [new MediaRecorder(stream, { mimeType, videoBitsPerSecond })]
      throws for a canvas of that size and that bit rate, if it throws *)
  mediaRecorderThrows : Z -> Z -> Z -> option Exception;
  (** what makes the capture fail, if anything does: the [error] event the
      recorder fires, or the exception a statement of the segment loop
      throws, while the canvas and the audio graph are asked to do this *)
  captureError : list CaptureEvent -> option Exception;
  (** the bytes the media recorder hands out for what it captured *)
  recorderData : list CaptureEvent -> list Z
}.

(** [startRendering] resolves with a buffer that has the context's channel
    count, length and sample rate, and as many samples in every channel as
    the length says.  The samples are the platform's: how the renderer
    resamples the sources and places them between frames is not modelled. *)
Definition startRendering `{Platform} (ctx : OfflineAudioContext) : AudioBuffer :=
  mkAudioBuffer (Z.to_pos (ctx_sampleRate ctx)) (Z.to_nat (ctx_length ctx))
    (map (fun channel => map (renderChannel ctx channel) (seq 0 (Z.to_nat (ctx_length ctx))))
         (seq 0 (Z.to_nat (ctx_numberOfChannels ctx)))).

Definition mergeAudioBuffers `{Platform} (buffers : list AudioBuffer) : Result AudioBuffer :=
  mapR startRendering (mergeContext buffers).

(** *** bufferToWav *)

(** [DataView.setUint16], [setUint32] and [setInt16], little endian. *)
Definition setUint16 (data : Z) : list Z :=
  let u := (data mod 65536)%Z in [(u mod 256)%Z; (u / 256)%Z].

Definition setUint32 (data : Z) : list Z :=
  let u := (data mod 4294967296)%Z in
  [(u mod 256)%Z; (u / 256 mod 256)%Z; (u / 65536 mod 256)%Z; (u / 16777216)%Z].

Definition setInt16 (value : Z) : list Z := setUint16 value.

(** [DataView.getInt16], little endian: what a decoder reads back. *)
Definition getInt16 (lo hi : Z) : Z :=
  let u := (lo + 256 * hi)%Z in if (u <? 32768)%Z then u else (u - 65536)%Z.

Definition Qltb (x y : Q) : bool := negb (Qle_bool y x).

(** The integer part of a number: truncation toward zero. *)
Definition truncate (x : Q) : Z := (Qnum x `quot` Zpos (Qden x))%Z.

(** [x | 0]: ToInt32, truncation toward zero then wrap-around to 32 bits. *)
Definition toInt32 (x : Q) : Z :=
  ((truncate x + 2147483648) mod 4294967296 - 2147483648)%Z.

(** A store into an [Int16Array]: truncation, then wrap-around to 16 bits. *)
Definition toInt16 (x : Q) : Z :=
  ((truncate x + 32768) mod 65536 - 32768)%Z.

(** [Math.max(-1, Math.min(1, x))] *)
Definition clamp (x : Q) : Q := Qmax (-1) (Qmin 1 x).

(** [0.5 + sample < 0 ? sample * 32768 : sample * 32767] *)
Definition scaled (sample : Q) : Q :=
  if Qltb ((1 # 2) + sample) 0 then sample * 32768 else sample * 32767.

(** [(0.5 + sample < 0 ? sample * 32768 : sample * 32767) | 0] *)
Definition scale16 (sample : Q) : Z := toInt32 (scaled sample).

(** The two statements of the inner loop body that compute [sample]. *)
Definition encodeSample (x : Q) : Z := scale16 (clamp x).

(** [channels[i][pos]]; an index past the end reads [undefined], which the
    clamp turns into NaN and [| 0] into 0. *)
Definition sampleAt (buffer : AudioBuffer) (i pos : nat) : option Q :=
  channelData buffer !! i ≫= (fun channel => channel !! pos).

Definition encodeAt (buffer : AudioBuffer) (i pos : nat) : Z :=
  match sampleAt buffer i pos with
  | Some x => encodeSample x
  | None => 0%Z
  end.

(** The file size computed on entry: [buffer.length * numOfChan * 2 + 44]. *)
Definition wavLength (buffer : AudioBuffer) : nat :=
  (length buffer * numberOfChannels buffer * 2 + 44)%nat.

(** The header writes before the data chunk length; [pos] ends up at their
    combined size. *)
Definition wavHeaderStart (buffer : AudioBuffer) : list Z :=
  let numOfChan := Z.of_nat (numberOfChannels buffer) in
  let rate := Zpos (sampleRate buffer) in
  setUint32 0x46464952 ++                              (* "RIFF" *)
  setUint32 (Z.of_nat (wavLength buffer) - 8) ++       (* file length - 8 *)
  setUint32 0x45564157 ++                              (* "WAVE" *)
  setUint32 0x20746d66 ++                              (* "fmt " chunk *)
  setUint32 16 ++                                      (* length = 16 *)
  setUint16 1 ++                                       (* PCM *)
  setUint16 numOfChan ++
  setUint32 rate ++
  setUint32 (rate * 2 * numOfChan) ++                  (* avg. bytes/sec *)
  setUint16 (numOfChan * 2) ++                         (* block-align *)
  setUint16 16 ++                                      (* 16-bit *)
  setUint32 0x61746164.                                (* "data" chunk *)

Definition wavHeader (buffer : AudioBuffer) : list Z :=
  let start := wavHeaderStart buffer in
  let pos := Z.of_nat (List.length start) in
  start ++ setUint32 (Z.of_nat (wavLength buffer) - pos - 4).  (* chunk length *)

(** The turns of the inner [for] loop in the order the
    [while (pos < buffer.length)] loop takes them: the frame [pos] and the
    channel [i] of each.  [pos] is the variable the header writes advanced,
    so the loop starts from the header size. *)
Definition wavTurns (buffer : AudioBuffer) : list (nat * nat) :=
  let pos := List.length (wavHeader buffer) in
  flat_map (fun pos => map (pair pos) (seq 0 (numberOfChannels buffer)))
           (seq pos (length buffer - pos)).

(** What the loop stores, turn by turn: [view.setInt16(44 + offset, sample,
    true)], with [offset] starting at 0 and advancing by 2. *)
Definition wavWritten (buffer : AudioBuffer) : list Z :=
  flat_map (fun '(pos, i) => setInt16 (encodeAt buffer i pos)) (wavTurns buffer).

(** The bytes after the header: what the loop wrote, then the zeros the
    [ArrayBuffer] was created with. *)
Definition wavData (buffer : AudioBuffer) : list Z :=
  let written := wavWritten buffer in
  written ++ replicate (wavLength buffer - 44 - List.length written) 0%Z.

Definition bufferToWav (buffer : AudioBuffer) : Blob :=
  mkBlob "audio/wav" (wavHeader buffer ++ wavData buffer).

(** *** bufferToMp3 *)

(** The lamejs encoder, as [bufferToMp3] uses it.  [None] is a throw. *)
Class Mp3Library : Type := {
  (** whether [import('@breezystack/lamejs')] resolves *)
  importResolves : bool;
  Mp3Encoder : Type;
  (** [new Mp3Encoder(channels, sampleRate, kbps)] *)
  newMp3Encoder : Z -> Z -> Z -> option Mp3Encoder;
  encodeBuffer : Mp3Encoder -> list Z -> option (Mp3Encoder * list Z);
  flush : Mp3Encoder -> option (list Z)
}.

Definition sampleBlockSize : nat := 1152.

(** [s < 0 ? s * 0x8000 : s * 0x7FFF], stored into an [Int16Array]. *)
Definition floatTo16 (x : Q) : Z :=
  let s := clamp x in
  toInt16 (if Qltb s 0 then s * 32768 else s * 32767).

(** The blocks [subarray(i, i + sampleBlockSize)] for [i = 0, 1152, ...]. *)
Definition sampleBlocks (int16Samples : list Z) : list (list Z) :=
  map (fun k => take sampleBlockSize (drop (k * sampleBlockSize) int16Samples))
      (seq 0 ((List.length int16Samples + (sampleBlockSize - 1)) / sampleBlockSize)%nat).

(** [if (mp3buf.length > 0) mp3Data.push(...)] *)
Definition pushChunk (mp3Data : list (list Z)) (mp3buf : list Z) : list (list Z) :=
  match mp3buf with
  | [] => mp3Data
  | _ => mp3Data ++ [mp3buf]
  end.

(** The block loop, stopping at the first throw. *)
Definition encodeBlocks `{Mp3Library} (mp3encoder : Mp3Encoder)
  (blocks : list (list Z)) : option (Mp3Encoder * list (list Z)) :=
  fold_left (fun acc sampleChunk =>
               '(enc, mp3Data) ← acc;
               '(enc', mp3buf) ← encodeBuffer enc sampleChunk;
               Some (enc', pushChunk mp3Data mp3buf))
            blocks (Some (mp3encoder, [])).

(** The body of the [try]: the bytes of the MP3, or [None] when anything in
    it throws. *)
Definition encodeMp3 `{Mp3Library} (buffer : AudioBuffer) : option (list Z) :=
  if importResolves then
    mp3encoder ← newMp3Encoder 1 (Zpos (sampleRate buffer)) 128;
    samples ← channelData buffer !! 0%nat;
    '(enc, mp3Data) ← encodeBlocks mp3encoder (sampleBlocks (map floatTo16 samples));
    mp3buf ← flush enc;
    Some (concat (pushChunk mp3Data mp3buf))
  else None.

Definition bufferToMp3 `{Mp3Library} (buffer : AudioBuffer) : Blob :=
  match encodeMp3 buffer with
  | Some result => mkBlob "audio/mp3" result
  | None => bufferToWav buffer     (* the [catch] branch *)
  end.

(** *** createDynamicWebmVideo *)

Record WebmSegment : Type := mkWebmSegment {
  audioBuffer : AudioBuffer;
  imageBase64 : string;
  segment_duration : Q
}.

Inductive WebmResolution : Type := R720p | R1080p | R4k.
Inductive WebmQuality : Type := draft | high | ultra.

Record WebmOptions : Type := mkWebmOptions {
  resolution : option WebmResolution;
  quality : option WebmQuality
}.

Definition resolveResolution (options : WebmOptions) : Z * Z :=
  match default R1080p (resolution options) with
  | R720p => (1280, 720)
  | R1080p => (1920, 1080)
  | R4k => (3840, 2160)
  end%Z.

Definition resolveBitrate (options : WebmOptions) : Z :=
  match default high (quality options) with
  | draft => 2500000
  | high => 8000000
  | ultra => 16000000
  end%Z.

(** The [Set] of images to pre-load, in insertion order: the cover when it is
    truthy, then every truthy segment image not yet in the set. *)
Definition uniqueImages (segments : list WebmSegment) (defaultCover : option string)
  : list string :=
  remove_dups
    ((if truthy defaultCover then option_list defaultCover else []) ++
     filter (fun s => s <> ""%string) (map imageBase64 segments)).

(** [imageCache.get(base64) || (defaultCover ? imageCache.get(defaultCover) : null)]
    once every image of the set is loaded. *)
Definition cachedImage (imageCache : list string) (defaultCover : option string)
  (base64 : string) : option string :=
  if bool_decide (base64 ∈ imageCache) then Some base64
  else if truthy defaultCover
       then match defaultCover with
            | Some cover => if bool_decide (cover ∈ imageCache) then Some cover else None
            | None => None
            end
       else None.

(** The helper [drawImage]: clear to black, then draw when an image was found. *)
Definition drawImage (imageCache : list string) (defaultCover : option string)
  (base64 : string) : list CaptureEvent :=
  FillBlack ::
  match cachedImage imageCache defaultCover base64 with
  | Some img => [DrawImage img]
  | None => []
  end.

(** One turn of the segment loop. *)
Definition playSegment (imageCache : list string) (defaultCover : option string)
  (segment : WebmSegment) : list CaptureEvent :=
  drawImage imageCache defaultCover (imageBase64 segment) ++
  [PlayBuffer (audioBuffer segment); Hold (segment_duration segment * 1000)].

(** Everything between [mediaRecorder.start()] and [mediaRecorder.stop()]. *)
Definition captureEvents (segments : list WebmSegment) (defaultCover : option string)
  (options : WebmOptions) : list CaptureEvent :=
  let imageCache := uniqueImages segments defaultCover in
  let '(width, height) := resolveResolution options in
  [RecorderStart width height (resolveBitrate options)] ++
  match segments with
  | first :: _ => drawImage imageCache defaultCover (imageBase64 first)
  | [] => []
  end ++
  flat_map (playSegment imageCache defaultCover) segments ++
  [Hold 500; RecorderStop].

(** The promise [createDynamicWebmVideo] returns.  It is rejected
    - by the [await Promise.all] of the pre-load, with the [error] event of an
      image of the set that fails to load;
    - by the exception the [MediaRecorder] constructor throws;
    - by [mediaRecorder.onerror], with the recorder's [error] event, or by
      the [catch] around the segment loop, with what the loop threw;
    otherwise [onstop] resolves it with the recorded chunks.
    [mediaRecorder.start()], called on the recorder just made, is taken not
    to throw. *)
Definition createDynamicWebmVideo `{Platform} (segments : list WebmSegment)
  (defaultCover : option string) (options : WebmOptions) : Result Blob :=
  match List.find (fun base64 => negb (imageLoads base64))
                  (uniqueImages segments defaultCover) with
  | Some base64 => Err (ErrorEvent base64)
  | None =>
      let '(width, height) := resolveResolution options in
      match mediaRecorderThrows width height (resolveBitrate options) with
      | Some e => Err e
      | None =>
          let events := captureEvents segments defaultCover options in
          match captureError events with
          | Some e => Err e
          | None => Ok (mkBlob "video/webm" (recorderData events))
          end
      end
  end.

(** [createWebmVideo]: decode the audio blob, then one segment with the image
    as its own fallback. *)
Definition createWebmVideo `{Platform} (audioBlob : Blob) (imageBase64 : string)
  (duration : Q) : Result Blob :=
  match decodeAudioData (blob_bytes audioBlob) with
  | None => Err (DOMException "EncodingError")
  | Some audioBuffer =>
      createDynamicWebmVideo [mkWebmSegment audioBuffer imageBase64 duration]
        (Some imageBase64) (mkWebmOptions None None)
  end.

End Audio.

(** ** Job metadata and the blob store *)

Module Storage.
Import Audio.

Inductive BatchJobStatus : Type :=
  | pending | script_ready | generating | files_ready | uploading | uploaded | error.

Inductive ItemType : Type := SPEECH | SFX.
Inductive AudioFormat : Type := fmt_mp3 | fmt_pcm.
Inductive TtsProviderId : Type := gemini | elevenlabs.

#[global] Instance BatchJobStatus_eq_dec : EqDecision BatchJobStatus.
Proof. solve_decision. Defined.
#[global] Instance ItemType_eq_dec : EqDecision ItemType.
Proof. solve_decision. Defined.
#[global] Instance TtsProviderId_eq_dec : EqDecision TtsProviderId.
Proof. solve_decision. Defined.

Record CastMember : Type := mkCastMember {
  name : string;
  voice : string;
  voiceType : TtsProviderId;
  elevenLabsVoiceId : option string;
  voicePrompt : option string
}.

(** The fields of a script item the batch workflow reads or writes. *)
Record ScriptItem : Type := mkScriptItem {
  item_id : string;
  item_type : ItemType;
  character : option string;
  text : option string;
  expression : option string;
  sfxDescription : option string;
  audioKey : option string;
  audioFormat : option AudioFormat
}.

Record GeneratedPodcastInfo : Type := mkGeneratedPodcastInfo {
  info_podcastName : string;
  info_episodeTitle : string;
  info_description : string;
  info_coverPrompt : string;
  info_tags : option (list string)
}.

Record BatchJobScriptData : Type := mkBatchJobScriptData {
  cast : list CastMember;
  items : list ScriptItem;
  podcastInfo : option GeneratedPodcastInfo
}.

Record BatchJobFiles : Type := mkBatchJobFiles {
  mp3Key : option string;
  webmKey : option string;
  coverKey : option string
}.

Record BatchJob : Type := mkBatchJob {
  job_id : string;
  storyText : string;
  status : BatchJobStatus;
  createdAt : N;
  updatedAt : N;
  podcastTitle : option string;
  episodeTitle : option string;
  podcastDescription : option string;
  scriptData : option BatchJobScriptData;
  files : option BatchJobFiles;
  youtubeVideoId : option string;
  youtubeUrl : option string;
  uploadedAt : option N;
  job_error : option string
}.

(** A [Partial<BatchJob>]: [None] is a property the object does not have.
    [error] alone is ever passed as a present property holding [undefined]. *)
Record BatchJobUpdates : Type := mkBatchJobUpdates {
  u_id : option string;
  u_storyText : option string;
  u_status : option BatchJobStatus;
  u_createdAt : option N;
  u_updatedAt : option N;
  u_podcastTitle : option string;
  u_episodeTitle : option string;
  u_podcastDescription : option string;
  u_scriptData : option BatchJobScriptData;
  u_files : option BatchJobFiles;
  u_youtubeVideoId : option string;
  u_youtubeUrl : option string;
  u_uploadedAt : option N;
  u_error : option (option string)
}.

Definition no_updates : BatchJobUpdates :=
  mkBatchJobUpdates None None None None None None None None None None None None None None.

(** [{ status }] and [{ status: 'error', error: message }] *)
Definition status_update (s : BatchJobStatus) : BatchJobUpdates :=
  mkBatchJobUpdates None None (Some s) None None None None None None None None None None None.

Definition error_update (message : option string) : BatchJobUpdates :=
  mkBatchJobUpdates None None (Some error) None None None None None None None None None None
    (Some message).

(** A whole job passed where a [Partial<BatchJob>] is expected: every property
    the object has. *)
Definition as_updates (job : BatchJob) : BatchJobUpdates :=
  mkBatchJobUpdates (Some (job_id job)) (Some (storyText job)) (Some (status job))
    (Some (createdAt job)) (Some (updatedAt job)) (podcastTitle job) (episodeTitle job)
    (podcastDescription job) (scriptData job) (files job) (youtubeVideoId job)
    (youtubeUrl job) (uploadedAt job) (Some <$> job_error job).

(** [{ ...job, ...updates, updatedAt }] *)
Definition spread (job : BatchJob) (updates : BatchJobUpdates) (updatedAt' : N) : BatchJob :=
  let over {A} (old : A) (new : option A) := default old new in
  let over_opt {A} (old : option A) (new : option A) :=
    match new with Some v => Some v | None => old end in
  mkBatchJob
    (over (job_id job) (u_id updates))
    (over (storyText job) (u_storyText updates))
    (over (status job) (u_status updates))
    (over (createdAt job) (u_createdAt updates))
    updatedAt'
    (over_opt (podcastTitle job) (u_podcastTitle updates))
    (over_opt (episodeTitle job) (u_episodeTitle updates))
    (over_opt (podcastDescription job) (u_podcastDescription updates))
    (over_opt (scriptData job) (u_scriptData updates))
    (over_opt (files job) (u_files updates))
    (over_opt (youtubeVideoId job) (u_youtubeVideoId updates))
    (over_opt (youtubeUrl job) (u_youtubeUrl updates))
    (over_opt (uploadedAt job) (u_uploadedAt updates))
    (over (job_error job) (u_error updates)).

(** A value of the IndexedDB object store [audioFiles]: a [Blob], or a base64
    string. *)
Inductive Stored : Type :=
  | StoredBlob (blob : Blob)
  | StoredBase64 (base64 : string).

(** The browser state the workflow runs against. *)
Record World : Type := mkWorld {
  (** the job list under the localStorage key [batchJobs] *)
  batchJobs : list BatchJob;
  (** the IndexedDB object store *)
  audioFiles : gmap string Stored;
  (** what [Date.now()] returns *)
  now : N;
  (** every list [setItem] stored under [batchJobs], oldest first; nothing
      reads it *)
  written : list (list BatchJob)
}.

(** How the two stores can fail. *)
Class Persistence : Type := {
  (** [localStorage.setItem] throws on this value (quota) *)
  setItemThrows : list BatchJob -> bool;
  (** an IndexedDB [put] request on this key errors *)
  putFails : string -> bool;
  (** an IndexedDB [delete] request on this key errors, or the database
      does not open *)
  deleteFails : string -> bool
}.

(** A computation over the world that may throw; a throw keeps the effects
    made before it. *)
Definition M (A : Type) : Type := World -> Result A * World.

Definition ret {A} (a : A) : M A := fun w => (Ok a, w).

Definition bind {A B} (m : M A) (k : A -> M B) : M B := fun w =>
  match m w with
  | (Ok a, w') => k a w'
  | (Err e, w') => (Err e, w')
  end.

Declare Scope workflow_scope.
Delimit Scope workflow_scope with M.
Bind Scope workflow_scope with M.
Notation "x <- m ;; k" := (bind m (fun x => k))
  (at level 100, m at next level, right associativity) : workflow_scope.
Notation "m ;; k" := (bind m (fun _ => k))
  (at level 100, right associativity) : workflow_scope.
Open Scope workflow_scope.

Definition throw {A} (e : Exception) : M A := fun w => (Err e, w).

(** [try { body } catch (e) { handler(e) }] *)
Definition try_catch {A} (body : M A) (handler : Exception -> M A) : M A := fun w =>
  match body w with
  | (Ok a, w') => (Ok a, w')
  | (Err e, w') => handler e w'
  end.

(** Read the world without changing it. *)
Definition inspect {A} (f : World -> A) : M A := fun w => (Ok (f w), w).

Definition liftR {A} (r : Result A) : M A := fun w => (r, w).

(** [Date.now()] *)
Definition Date_now : M N := fun w => (Ok (now w), w).

(** [await new Promise(r => setTimeout(r, ms))] *)
Definition sleep (ms : N) : M unit := fun w =>
  (Ok tt, mkWorld (batchJobs w) (audioFiles w) (now w + ms)%N (written w)).

Section WithPersistence.
Context `{Persistence}.

(** *** localStorage *)

Definition loadBatchJobs (w : World) : list BatchJob := batchJobs w.

Definition saveBatchJobs (jobs : list BatchJob) : M unit := fun w =>
  if setItemThrows jobs then (Ok tt, w)     (* caught and logged *)
  else (Ok tt, mkWorld jobs (audioFiles w) (now w) (written w ++ [jobs])).

Definition addBatchJob (job : BatchJob) : M (list BatchJob) :=
  jobs <- inspect loadBatchJobs ;;
  let jobs := jobs ++ [job] in
  saveBatchJobs jobs ;; ret jobs.

Definition updateBatchJob (id : string) (updates : BatchJobUpdates) : M (list BatchJob) :=
  jobs <- inspect loadBatchJobs ;;
  match list_find (fun j => job_id j = id) jobs with
  | Some (index, job) =>
      updatedAt' <- Date_now ;;
      let jobs := <[index := spread job updates updatedAt']> jobs in
      saveBatchJobs jobs ;; ret jobs
  | None => ret jobs
  end.

Definition getBatchJob (id : string) (w : World) : option BatchJob :=
  snd <$> list_find (fun j => job_id j = id) (loadBatchJobs w).

(** *** IndexedDB *)

Definition saveAudioBlob (key : string) (blob : Blob) : M unit := fun w =>
  if putFails key then (Err (DOMException "put"), w)
  else (Ok tt, mkWorld (batchJobs w) (<[key := StoredBlob blob]> (audioFiles w))
                       (now w) (written w)).

Definition saveItemAudioBase64 (key : string) (base64 : string) : M unit := fun w =>
  if putFails key then (Err (DOMException "put"), w)
  else (Ok tt, mkWorld (batchJobs w) (<[key := StoredBase64 base64]> (audioFiles w))
                       (now w) (written w)).

(** [request.result || null]: what is stored under the key, unless falsy. *)
Definition loadAudioBlob (key : string) (w : World) : option Stored :=
  match audioFiles w !! key with
  | Some (StoredBase64 "") => None
  | stored => stored
  end.

Definition deleteAudioBlob (key : string) : M unit := fun w =>
  if deleteFails key then (Err (DOMException "delete"), w)
  else (Ok tt, mkWorld (batchJobs w) (delete key (audioFiles w)) (now w) (written w)).

(** [`${jobId}_${type}_${Date.now()}`] and [`${jobId}_item_${itemId}`] *)
Definition generateAudioKey (jobId : string) (type : string) : M string :=
  t <- Date_now ;; ret (jobId +:+ "_" +:+ type +:+ "_" +:+ pretty t).

Definition generateItemAudioKey (jobId itemId : string) : string :=
  jobId +:+ "_item_" +:+ itemId.

(** *** Deleting a job *)

(** The keys [deleteJobAudioFiles] collects, in the order it collects them. *)
Definition keysToDelete (job : BatchJob) : list string :=
  let of_files (key : BatchJobFiles -> option string) : list string :=
    match files job ≫= key with
    | Some k => if String.eqb k "" then [] else [k]
    | None => []
    end in
  of_files mp3Key ++ of_files webmKey ++ of_files coverKey ++
  match scriptData job with
  | Some sd =>
      flat_map (fun item =>
                  match audioKey item with
                  | Some k => if String.eqb k "" then [] else [k]
                  | None => []
                  end) (items sd)
  | None => []
  end.

(** The deletion loop: a failed delete is logged and the loop goes on. *)
Fixpoint deleteKeys (keys : list string) : M unit :=
  match keys with
  | [] => ret tt
  | key :: rest =>
      try_catch (deleteAudioBlob key) (fun _ => ret tt) ;;
      deleteKeys rest
  end.

Definition deleteJobAudioFiles (job : BatchJob) : M unit :=
  deleteKeys (keysToDelete job).

Definition deleteBatchJob (id : string) : M (list BatchJob) :=
  job <- inspect (getBatchJob id) ;;
  match job with
  | Some job => deleteJobAudioFiles job
  | None => ret tt
  end ;;
  jobs <- inspect loadBatchJobs ;;
  let jobs := filter (fun j => job_id j <> id) jobs in
  saveBatchJobs jobs ;; ret jobs.

End WithPersistence.

End Storage.

(** ** The workflow steps and the batch loops *)

Module Workflow.
Import Audio Storage.

Record ElevenLabsVoice : Type := mkElevenLabsVoice {
  voice_id : string;
  voice_name : string
}.

(** The application state the handlers close over. *)
Record AppState : Type := mkAppState {
  geminiApiKey : string;
  elevenLabsApiKey : string;
  enableSfx : bool;
  includeNarrator : bool;
  ttsProvider : TtsProviderId;
  elevenLabsVoices : list ElevenLabsVoice;
  (** what [getYouTubeAccessToken()] returns *)
  youTubeAccessToken : option string;
  selectedPlaylistId : string;
  isYouTubeLoggedIn : bool
}.

Record ScriptResult : Type := mkScriptResult {
  result_cast : list CastMember;
  result_items : list ScriptItem;
  result_podcastInfo : option GeneratedPodcastInfo
}.

Record SpeechOptions : Type := mkSpeechOptions {
  speech_text : string;
  speech_voiceId : string;
  speech_voiceName : option string;
  speech_voicePrompt : option string;
  speech_expression : option string
}.

Record SpeechResult : Type := mkSpeechResult {
  audioBase64 : string;
  format : AudioFormat
}.

Record YouTubeUploadMetadata : Type := mkYouTubeUploadMetadata {
  upload_title : string;
  upload_description : string;
  upload_tags : list string
}.

Record YouTubeUploadResult : Type := mkYouTubeUploadResult {
  videoId : string;
  url : string
}.

(** The remote services and the decoders, as functions of the time of the
    call and of its arguments; [Err] is a rejected promise. *)
Record Collaborators : Type := mkCollaborators {
  generateScriptFromStory : N -> string -> bool -> bool -> Result ScriptResult;
  (** [ttsRegistry.generateSpeech] *)
  generateSpeech : N -> TtsProviderId -> SpeechOptions -> Result SpeechResult;
  generateElevenLabsSfx : N -> string -> Result string;
  decodeRawPCM : string -> Result AudioBuffer;
  decodeAudioFile : string -> Result AudioBuffer;
  generatePodcastCoverArt : N -> string -> string -> Result string;
  uploadToYouTube : N -> Stored -> YouTubeUploadMetadata -> string ->
                    Result YouTubeUploadResult;
  addVideoToPlaylist : N -> string -> string -> Result unit;
  (** how long a call started at that time takes *)
  latency : N -> N
}.

(** [e.message] *)
Definition message_of (e : Exception) : option string :=
  match e with
  | Error message => Some message
  | DOMException name => Some name
  | ErrorEvent _ => None
  end.

(** [a || b] on optional strings. *)
Definition or_else (a b : option string) : option string :=
  if truthy a then a else b.

(** [s.slice(0, n)] *)
Definition slice0 (n : nat) (s : string) : string := String.substring 0 n s.

Definition newline : string := String (Ascii.ascii_of_nat 10) EmptyString.

Definition set_status (s : BatchJobStatus) (job : BatchJob) : BatchJob :=
  mkBatchJob (job_id job) (storyText job) s (createdAt job) (updatedAt job)
    (podcastTitle job) (episodeTitle job) (podcastDescription job) (scriptData job)
    (files job) (youtubeVideoId job) (youtubeUrl job) (uploadedAt job) (job_error job).

Definition set_scriptData (sd : BatchJobScriptData) (job : BatchJob) : BatchJob :=
  mkBatchJob (job_id job) (storyText job) (status job) (createdAt job) (updatedAt job)
    (podcastTitle job) (episodeTitle job) (podcastDescription job) (Some sd)
    (files job) (youtubeVideoId job) (youtubeUrl job) (uploadedAt job) (job_error job).

Definition set_audio (key : string) (fmt : AudioFormat) (item : ScriptItem) : ScriptItem :=
  mkScriptItem (item_id item) (item_type item) (character item) (text item)
    (expression item) (sfxDescription item) (Some key) (Some fmt).

Section Handlers.
Context `{Platform} `{Mp3Library} `{Persistence}.
Variable app : AppState.
Variable collab : Collaborators.

(** [await] on a collaborator: its answer at the current time, and the time
    the call takes. *)
Definition await {A} (call : N -> Result A) : M A := fun w =>
  (call (now w),
   mkWorld (batchJobs w) (audioFiles w) (now w + latency collab (now w))%N (written w)).

(** *** handleGenerateScript ([App.tsx]) *)

Definition finalCastMember (member : CastMember) : CastMember :=
  let as_gemini :=
    mkCastMember (name member) (voice member) gemini (elevenLabsVoiceId member)
      (voicePrompt member) in
  if bool_decide (ttsProvider app = elevenlabs) && truthy (elevenLabsVoiceId member)
     && negb (Nat.eqb (List.length (elevenLabsVoices app)) 0)
  then match List.find (fun v => bool_decide (Some (voice_id v) = elevenLabsVoiceId member))
                       (elevenLabsVoices app) with
       | Some elVoice =>
           mkCastMember (name member) (voice_name elVoice) elevenlabs
             (elevenLabsVoiceId member) (voicePrompt member)
       | None => as_gemini
       end
  else as_gemini.

Definition handleGenerateScript (job : BatchJob) : M BatchJob :=
  let shouldIncludeSfx := enableSfx app && negb (String.eqb (elevenLabsApiKey app) "") in
  result <- await (fun t => generateScriptFromStory collab t (storyText job)
                              shouldIncludeSfx (includeNarrator app)) ;;
  let finalCast := map finalCastMember (result_cast result) in
  let updatedJob :=
    set_scriptData (mkBatchJobScriptData finalCast (result_items result)
                      (result_podcastInfo result))
      (set_status script_ready job) in
  updateBatchJob (job_id job) (as_updates updatedJob) ;;
  ret updatedJob.

(** *** handleGenerateFiles ([App.tsx]) *)

(** The speech branch of the item loop.  The [try] covers synthesis, decoding,
    the push onto [audioBuffers] and the save, in that order: a throw before
    the push skips the item, a throw from the save keeps the pushed clip and
    leaves the item as it was.  The 300 ms pause follows in both cases. *)
Definition generateSpeechItem (job : BatchJob) (cast : list CastMember)
  (item : ScriptItem) (itemText : string) (audioBuffers : list AudioBuffer)
  : M (list AudioBuffer * ScriptItem) :=
  let castMember :=
    if truthy (character item)
    then List.find (fun c => bool_decide (Some (name c) = character item)) cast
    else None in
  let providerId := default gemini (voiceType <$> castMember) in
  let voiceId :=
    if bool_decide (providerId = elevenlabs) && truthy (castMember ≫= elevenLabsVoiceId)
    then default "" (castMember ≫= elevenLabsVoiceId)
    else default "Puck" (or_else (voice <$> castMember) None) in
  let options :=
    mkSpeechOptions itemText voiceId (voice <$> castMember)
      (castMember ≫= voicePrompt) (expression item) in
  decoded <- try_catch
      (result <- await (fun t => generateSpeech collab t providerId options) ;;
       buffer <- liftR (match format result with
                        | fmt_pcm => decodeRawPCM collab (audioBase64 result)
                        | fmt_mp3 => decodeAudioFile collab (audioBase64 result)
                        end) ;;
       ret (Some (result, buffer)))
      (fun _ => ret None) ;;
  out <- match decoded with
         | None => ret (audioBuffers, item)
         | Some (result, buffer) =>
             let audioKey := generateItemAudioKey (job_id job) (item_id item) in
             try_catch
               (saveItemAudioBase64 audioKey (audioBase64 result) ;;
                ret (audioBuffers ++ [buffer], set_audio audioKey (format result) item))
               (fun _ => ret (audioBuffers ++ [buffer], item))
         end ;;
  sleep 300 ;;
  ret out.

(** The sound-effect branch: nothing is caught. *)
Definition generateSfxItem (job : BatchJob) (item : ScriptItem)
  (description : string) (audioBuffers : list AudioBuffer)
  : M (list AudioBuffer * ScriptItem) :=
  base64 <- await (fun t => generateElevenLabsSfx collab t description) ;;
  buffer <- liftR (decodeAudioFile collab base64) ;;
  let audioKey := generateItemAudioKey (job_id job) (item_id item) in
  saveItemAudioBase64 audioKey base64 ;;
  sleep 300 ;;
  ret (audioBuffers ++ [buffer], set_audio audioKey fmt_mp3 item).

(** One turn of the item loop: the clips so far and the entry of
    [updatedItems] at this index. *)
Definition generateItem (job : BatchJob) (cast : list CastMember) (item : ScriptItem)
  (audioBuffers : list AudioBuffer) : M (list AudioBuffer * ScriptItem) :=
  match item_type item with
  | SPEECH =>
      if truthy (text item)
      then generateSpeechItem job cast item (default "" (text item)) audioBuffers
      else ret (audioBuffers, item)
  | SFX =>
      if truthy (sfxDescription item) && negb (String.eqb (elevenLabsApiKey app) "")
      then generateSfxItem job item (default "" (sfxDescription item)) audioBuffers
      else ret (audioBuffers, item)
  end.

(** The item loop, from the items still to do and the clips so far to all
    the clips and the updated items. *)
Fixpoint generateItems (job : BatchJob) (cast : list CastMember)
  (items : list ScriptItem) (audioBuffers : list AudioBuffer)
  : M (list AudioBuffer * list ScriptItem) :=
  match items with
  | [] => ret (audioBuffers, [])
  | item :: rest =>
      one <- generateItem job cast item audioBuffers ;;
      more <- generateItems job cast rest (fst one) ;;
      ret (fst more, snd one :: snd more)
  end.

(** Cover art: skipped without a Gemini key, and a failure is only logged. *)
Definition generateCover (job : BatchJob) (podcastInfo : option GeneratedPodcastInfo)
  (podcastTitle : string) : M (option string) :=
  let coverPrompt :=
    default ("Based on story: " +:+ slice0 300 (storyText job))
            (or_else (info_coverPrompt <$> podcastInfo) None) in
  if negb (String.eqb (geminiApiKey app) "")
  then try_catch
         (cover <- await (fun t => generatePodcastCoverArt collab t coverPrompt podcastTitle) ;;
          ret (Some cover))
         (fun _ => ret None)
  else ret None.

(** Everything [handleGenerateFiles] does between its two metadata writes. *)
Definition generateFiles (job : BatchJob) (sd : BatchJobScriptData) : M BatchJob :=
  let info := podcastInfo sd in
  let episodeTitle' :=
    default "New Episode"
      (or_else (info_episodeTitle <$> info) (or_else (episodeTitle job) None)) in
  let podcastDescription' :=
    default (slice0 500 (storyText job))
      (or_else (info_description <$> info) (or_else (podcastDescription job) None)) in
  let podcastTitle' :=
    default "Podcast"
      (or_else (info_podcastName <$> info) (or_else (podcastTitle job) None)) in
  generated <- generateItems job (cast sd) (items sd) [] ;;
  let audioBuffers := fst generated in
  let updatedItems := snd generated in
  match audioBuffers with
  | [] => throw (Error "No audio generated")
  | _ =>
      mergedBuffer <- liftR (mergeAudioBuffers audioBuffers) ;;
      let wavBlob := bufferToWav mergedBuffer in
      let mp3Blob := bufferToMp3 mergedBuffer in
      coverBase64 <- generateCover job info podcastTitle' ;;
      webmBlob <- (if truthy coverBase64
                   then webm <- liftR (createWebmVideo wavBlob (default "" coverBase64)
                                         (duration mergedBuffer)) ;;
                        ret (Some webm)
                   else ret None) ;;
      mp3Key <- generateAudioKey (job_id job) "mp3" ;;
      webmKey <- match webmBlob with
                 | Some _ => key <- generateAudioKey (job_id job) "webm" ;; ret (Some key)
                 | None => ret None
                 end ;;
      let coverKey :=
        if truthy coverBase64 then Some (job_id job +:+ "_cover") else None in
      saveAudioBlob mp3Key mp3Blob ;;
      match webmBlob, webmKey with
      | Some blob, Some key =>
          if String.eqb key "" then ret tt else saveAudioBlob key blob
      | _, _ => ret tt
      end ;;
      match coverKey with
      | Some key =>
          if truthy coverBase64 && negb (String.eqb key "")
          then saveItemAudioBase64 key (default "" coverBase64)
          else ret tt
      | None => ret tt
      end ;;
      ret (mkBatchJob (job_id job) (storyText job) files_ready (createdAt job)
             (updatedAt job) (Some podcastTitle') (Some episodeTitle')
             (Some podcastDescription')
             (Some (mkBatchJobScriptData (cast sd) updatedItems (podcastInfo sd)))
             (Some (mkBatchJobFiles (Some mp3Key) webmKey coverKey))
             (youtubeVideoId job) (youtubeUrl job) (uploadedAt job) (job_error job))
  end.

Definition handleGenerateFiles (job : BatchJob) : M BatchJob :=
  match scriptData job with
  | None => throw (Error "No script data")
  | Some sd =>
      updateBatchJob (job_id job) (status_update generating) ;;
      updatedJob <- generateFiles job sd ;;
      updateBatchJob (job_id job) (as_updates updatedJob) ;;
      ret updatedJob
  end.

(** *** handleUploadToYouTube ([App.tsx]) *)

Definition uploadMetadata (job : BatchJob) : YouTubeUploadMetadata :=
  let info := scriptData job ≫= podcastInfo in
  let tags := info ≫= info_tags in
  mkYouTubeUploadMetadata
    (default "New Episode"
       (or_else (episodeTitle job)
          (or_else (info_episodeTitle <$> info) (or_else (podcastTitle job) None))))
    (default (slice0 500 (storyText job)) (or_else (podcastDescription job) None)
       +:+ newline +:+ newline +:+
     match tags with
     | Some ts => String.concat " " (map (fun t => "#" +:+ t) ts)
     | None => ""
     end)
    (default [] tags).

Definition handleUploadToYouTube (job : BatchJob) : M BatchJob :=
  if negb (truthy (files job ≫= webmKey)) then throw (Error "No WebM file") else
  if negb (truthy (youTubeAccessToken app)) then throw (Error "Not logged in to YouTube") else
  let token := default "" (youTubeAccessToken app) in
  updateBatchJob (job_id job) (status_update uploading) ;;
  webmBlob <- inspect (loadAudioBlob (default "" (files job ≫= webmKey))) ;;
  match webmBlob with
  | None => throw (Error "WebM file not found")
  | Some webmBlob =>
      result <- await (fun t => uploadToYouTube collab t webmBlob (uploadMetadata job) token) ;;
      (if negb (String.eqb (selectedPlaylistId app) "") && negb (String.eqb (videoId result) "")
       then try_catch
              (await (fun t => addVideoToPlaylist collab t (videoId result)
                                 (selectedPlaylistId app)))
              (fun _ => ret tt)
       else ret tt) ;;
      uploadedAt' <- Date_now ;;
      let updatedJob :=
        mkBatchJob (job_id job) (storyText job) uploaded (createdAt job) (updatedAt job)
          (podcastTitle job) (episodeTitle job) (podcastDescription job) (scriptData job)
          (files job) (Some (videoId result)) (Some (url result)) (Some uploadedAt')
          (job_error job) in
      updateBatchJob (job_id job) (as_updates updatedJob) ;;
      ret updatedJob
  end.

(** *** The batch loops ([pages/BatchPage]) *)

(** [prev.map(j => j.id === job.id ? updatedJob : j)] *)
Definition replaceJob (id : string) (updatedJob : BatchJob) (jobs : list BatchJob)
  : list BatchJob :=
  map (fun j => if bool_decide (job_id j = id) then updatedJob else j) jobs.

(** The body shared by the loops: run the step on each selected job in turn;
    on success put the returned job into the page's list, on failure mark the
    job as [error] in the store and take the store's list.  The page's list
    [jobs] is the React state. *)
Fixpoint processJobs (step : BatchJob -> M BatchJob) (selected : list BatchJob)
  (jobs : list BatchJob) : M (list BatchJob) :=
  match selected with
  | [] => ret jobs
  | job :: rest =>
      jobs <- try_catch
                (updatedJob <- step job ;;
                 ret (replaceJob (job_id job) updatedJob jobs))
                (fun e => updateBatchJob (job_id job) (error_update (message_of e))) ;;
      processJobs step rest jobs
  end.

Definition with_status (s : BatchJobStatus) (jobs : list BatchJob) : list BatchJob :=
  filter (fun j => status j = s) jobs.

Definition handleGenerateAllScripts (jobs : list BatchJob) : M (list BatchJob) :=
  match with_status pending jobs with
  | [] => ret jobs                                  (* alert('No pending tasks') *)
  | pendingJobs => processJobs handleGenerateScript pendingJobs jobs
  end.

Definition handleGenerateAllFiles (jobs : list BatchJob) : M (list BatchJob) :=
  match with_status script_ready jobs with
  | [] => ret jobs
  | readyJobs => processJobs handleGenerateFiles readyJobs jobs
  end.

Definition handleUploadAll (jobs : list BatchJob) : M (list BatchJob) :=
  if negb (isYouTubeLoggedIn app) then ret jobs else
  match with_status files_ready jobs with
  | [] => ret jobs
  | readyJobs => processJobs handleUploadToYouTube readyJobs jobs
  end.

(** Script, files, upload in one [try]; [job] is reassigned after each step. *)
Definition autoProcess (job : BatchJob) : M BatchJob :=
  job <- handleGenerateScript job ;;
  job <- handleGenerateFiles job ;;
  handleUploadToYouTube job.

Definition handleAutoProcessAll (jobs : list BatchJob) : M (list BatchJob) :=
  match with_status pending jobs with
  | [] => ret jobs
  | pendingJobs =>
      if negb (isYouTubeLoggedIn app) then ret jobs
      else processJobs autoProcess pendingJobs jobs
  end.

End Handlers.

(** The four buttons of the batch page.  Each click comes with the
    application state and the collaborators' behaviour of its time. *)
Inductive BatchAction : Type :=
  | GenerateAllScripts | GenerateAllFiles | UploadAll | AutoProcessAll.

Record Click : Type := mkClick {
  action : BatchAction;
  click_app : AppState;
  click_collab : Collaborators
}.

Definition handleClick `{Platform} `{Mp3Library} `{Persistence} (c : Click)
  (jobs : list BatchJob) : M (list BatchJob) :=
  match action c with
  | GenerateAllScripts => handleGenerateAllScripts (click_app c) (click_collab c) jobs
  | GenerateAllFiles => handleGenerateAllFiles (click_app c) (click_collab c) jobs
  | UploadAll => handleUploadAll (click_app c) (click_collab c) jobs
  | AutoProcessAll => handleAutoProcessAll (click_app c) (click_collab c) jobs
  end.

(** The page from its mount, [setJobs(loadBatchJobs())], through a series of
    clicks; the result is the page's list and the world.  The loop of a click
    runs to its end before the next click: the buttons are disabled while
    [isProcessing] is set.  That flag is state of the page: a loop still
    running when the page is left goes on, the page opened again has its
    buttons enabled, and a second loop can then run between the steps of the
    first.  Such overlapping loops are not runs of this function. *)
Fixpoint runClicks `{Platform} `{Mp3Library} `{Persistence} (clicks : list Click)
  (jobs : list BatchJob) (w : World) : list BatchJob * World :=
  match clicks with
  | [] => (jobs, w)
  | c :: rest =>
      match handleClick c jobs w with
      | (Ok jobs', w') => runClicks rest jobs' w'
      | (Err _, w') => runClicks rest jobs w'
      end
  end.

Definition batchPage `{Platform} `{Mp3Library} `{Persistence} (clicks : list Click)
  (w : World) : list BatchJob * World :=
  runClicks clicks (loadBatchJobs w) w.

(** Several visits of the page, each with its series of clicks: a visit
    mounts the page anew, once the loops of the visit before have ended. *)
Fixpoint batchVisits `{Platform} `{Mp3Library} `{Persistence}
  (visits : list (list Click)) (w : World) : World :=
  match visits with
  | [] => w
  | clicks :: rest => batchVisits rest (snd (batchPage clicks w))
  end.

End Workflow.

(** ** Notions the statements are written with *)

Module Notions.
Import Audio Storage Workflow.

(** Rounding to the nearest integer, halves away from zero. *)
Definition roundHalfAwayFromZero (x : Q) : Z :=
  if Qltb x 0 then (- Qfloor (- x + (1 # 2)))%Z else Qfloor (x + (1 # 2)).

(** A 16-bit sample as the specification words it: clamp to [-1, 1], scale
    so that +1 maps to 32767 and -1 to -32768, round halves away from zero. *)
Definition roundedSample (x : Q) : Z :=
  let s := clamp x in
  roundHalfAwayFromZero (if Qltb s 0 then s * 32768 else s * 32767).

(** The position of a status on the path
    pending, script_ready, generating, files_ready, uploading, uploaded. *)
Definition rank (s : BatchJobStatus) : nat :=
  match s with
  | pending => 0
  | script_ready => 1
  | generating => 2
  | files_ready => 3
  | uploading => 4
  | uploaded => 5
  | error => 6
  end.

(** A permitted move of the status: to [error], or not backward on the path. *)
Definition status_le (s s' : BatchJobStatus) : Prop :=
  s' = error \/ (s <> error /\ (rank s <= rank s')%nat).

(** The stored list [after] holds the same jobs as [before], in the same
    places, each with a status its earlier status may move to. *)
Definition advances (before after : list BatchJob) : Prop :=
  Forall2 (fun a b => job_id a = job_id b /\ status_le (status a) (status b))
          before after.

(** A job references the keys [deleteJobAudioFiles] collects for it. *)
Definition references (job : BatchJob) (key : string) : Prop :=
  key ∈ keysToDelete job.

(** A platform for examples: silence is rendered, every decode yields one
    silent frame, every image loads, the recorder is made and records without
    error, and hands out nothing. *)
Definition examplePlatform : Platform :=
  {| renderChannel := fun _ _ _ => 0;
     decodeAudioData := fun _ => Some (mkAudioBuffer 44100 1 [[0]]);
     imageLoads := fun _ => true;
     mediaRecorderThrows := fun _ _ _ => None;
     captureError := fun _ => None;
     recorderData := fun _ => [] |}.

(** The recorder is made and records what it is asked to without error. *)
Definition records `{Platform} (segments : list WebmSegment)
  (defaultCover : option string) (options : WebmOptions) : Prop :=
  mediaRecorderThrows (fst (resolveResolution options)) (snd (resolveResolution options))
    (resolveBitrate options) = None /\
  captureError (captureEvents segments defaultCover options) = None.


Definition exampleMp3Library : Mp3Library :=
  {| importResolves := true;
     Mp3Encoder := unit;
     newMp3Encoder := fun _ _ _ => Some tt;
     encodeBuffer := fun _ _ => Some (tt, [255%Z]);
     flush := fun _ => Some [] |}.

(** Stores that never fail. *)
Definition reliable : Persistence :=
  {| setItemThrows := fun _ => false;
     putFails := fun _ => false;
     deleteFails := fun _ => false |}.

(** The status the store holds for a job id, if it holds the job. *)
Definition stored_status (id : string) (w : World) : option BatchJobStatus :=
  status <$> getBatchJob id w.

(** The job lists localStorage held from the world [w0] on: the list of [w0],
    then every list stored since, oldest first. *)
Definition history (w0 w : World) : list (list BatchJob) :=
  batchJobs w0 :: drop (List.length (written w0)) (written w).

(** [w'] is reached from [w] by metadata writes that each advance the stored
    list, and by steps that leave the metadata alone. *)
Inductive evolves (w : World) : World -> Prop :=
  | evolves_same w' :
      batchJobs w' = batchJobs w -> written w' = written w -> evolves w w'
  | evolves_write w' w'' :
      evolves w w' ->
      advances (batchJobs w') (batchJobs w'') ->
      written w'' = written w' ++ [batchJobs w''] ->
      evolves w w''.

(** A computation that leaves the metadata alone, never turns the clock
    back, and writes blobs under keys in [K] only. *)
Definition footprint {A} (K : string -> Prop) (m : M A) : Prop :=
  forall w,
    batchJobs (snd (m w)) = batchJobs w /\
    written (snd (m w)) = written w /\
    (now w <= now (snd (m w)))%N /\
    forall key, ~ K key -> audioFiles (snd (m w)) !! key = audioFiles w !! key.

(** A computation that changes the stored list at most in the record of the
    job [id], which it moves from a status not past [from] to a status not
    past [to] when it returns, by writes that each advance the list. *)
Definition moves {A} (id : string) (from : BatchJobStatus) (m : M A)
  (to : A -> BatchJobStatus) : Prop :=
  forall w p job0,
    NoDup (map job_id (batchJobs w)) ->
    batchJobs w !! p = Some job0 -> job_id job0 = id -> status_le (status job0) from ->
    evolves w (snd (m w)) /\
    exists job1,
      batchJobs (snd (m w)) = <[p := job1]> (batchJobs w) /\
      job_id job1 = id /\
      match fst (m w) with
      | Ok a => status_le (status job1) (to a)
      | Err _ => True
      end.

(** What a computation returns, when it returns. *)
Definition returns {A} (m : M A) (Q : A -> Prop) : Prop :=
  forall w a w', m w = (Ok a, w') -> Q a.

(** The key [generateAudioKey] makes at time [t]. *)
Definition file_key (jobId type : string) (t : N) : string :=
  jobId +:+ "_" +:+ type +:+ "_" +:+ pretty t.

(** The keys of the per-item audio of a job. *)
Definition item_key (jobId : string) (key : string) : Prop :=
  exists itemId, key = generateItemAudioKey jobId itemId.

(** No stored job references the key. *)
Definition unreferenced (w : World) (key : string) : Prop :=
  forall job, job ∈ batchJobs w -> ~ references job key.

(** An entry of [updatedItems] against the item it was made from: the audio
    reference is kept, or is the per-item key of the item. *)
Definition item_audio (jobId : string) (before after : ScriptItem) : Prop :=
  audioKey after = audioKey before \/
  audioKey after = Some (generateItemAudioKey jobId (item_id before)).

(** An IndexedDB whose delete request fails on one key. *)
Definition deleteFailsOn (bad : string) : Persistence :=
  {| setItemThrows := fun _ => false;
     putFails := fun _ => false;
     deleteFails := fun key => String.eqb key bad |}.

(** A job with generated files and one spoken line, and a world that stores
    it together with its blobs. *)
Definition exampleItem : ScriptItem :=
  mkScriptItem "line1" SPEECH (Some "Narrator") (Some "Once upon a time") None None
    (Some "job1_item_line1") (Some fmt_pcm).

Definition exampleJob : BatchJob :=
  mkBatchJob "job1" "Once upon a time" files_ready 1000 2000 None None None
    (Some (mkBatchJobScriptData [mkCastMember "Narrator" "Puck" gemini None None]
             [exampleItem] None))
    (Some (mkBatchJobFiles (Some "job1_mp3_1500") (Some "job1_webm_1500")
             (Some "job1_cover")))
    None None None None.

Definition exampleWorld : World :=
  mkWorld [exampleJob]
    (<["job1_mp3_1500" := StoredBlob (mkBlob "audio/mp3" [1%Z])]>
       (<["job1_webm_1500" := StoredBlob (mkBlob "video/webm" [2%Z])]>
          (<["job1_cover" := StoredBase64 "Y292ZXI="]>
             (<["job1_item_line1" := StoredBase64 "bGluZQ=="]> ∅))))
    3000 [].

(** An application state with both API keys and a YouTube login. *)
Definition exampleApp : AppState :=
  mkAppState "gemini-key" "elevenlabs-key" true true gemini [] (Some "token") "" true.

(** A clip with as many silent frames, at 24000 Hz, as its base64 text has
    characters. *)
Definition exampleDecode (base64 : string) : Result AudioBuffer :=
  Ok (mkAudioBuffer 24000 (String.length base64)
        [replicate (String.length base64) 0]).

(** Collaborators that answer every call, except that synthesis of the text
    "(fails)", speech or sound effect, is rejected.  A script has one line,
    the story itself; synthesized audio is the text. *)
Definition exampleCollab : Collaborators :=
  {| generateScriptFromStory := fun _ story _ _ =>
       Ok (mkScriptResult [mkCastMember "Narrator" "Puck" gemini None None]
             [mkScriptItem "line1" SPEECH (Some "Narrator") (Some story)
                None None None None]
             None);
     generateSpeech := fun _ _ options =>
       if String.eqb (speech_text options) "(fails)"
       then Err (Error "TTS failed")
       else Ok (mkSpeechResult (speech_text options) fmt_pcm);
     generateElevenLabsSfx := fun _ description =>
       if String.eqb description "(fails)"
       then Err (Error "ElevenLabs SFX Error: Too Many Requests")
       else Ok description;
     decodeRawPCM := exampleDecode;
     decodeAudioFile := exampleDecode;
     generatePodcastCoverArt := fun _ _ _ => Ok "Y292ZXI=";
     uploadToYouTube := fun _ _ _ _ =>
       Ok (mkYouTubeUploadResult "v1" "https://www.youtube.com/watch?v=v1");
     addVideoToPlaylist := fun _ _ _ => Ok tt;
     latency := fun _ => 20%N |}.

(** A spoken line and a sound-effect cue without audio yet. *)
Definition speechLine (id text : string) : ScriptItem :=
  mkScriptItem id SPEECH (Some "Narrator") (Some text) None None None None.

Definition sfxCue (id description : string) : ScriptItem :=
  mkScriptItem id SFX None None None (Some description) None None.

(** A job with a script of these items, ready for file generation. *)
Definition scriptedJob (id : string) (items : list ScriptItem) : BatchJob :=
  mkBatchJob id "A story" script_ready 1000 2000 None None None
    (Some (mkBatchJobScriptData [mkCastMember "Narrator" "Puck" gemini None None]
             items None))
    None None None None None.

End Notions.

(** ** Further notions and examples *)

Module MoreNotions.
Import Audio Storage Workflow Notions.

(** A computation that never deletes a blob and stores blobs under keys in
    [K] only. *)
Definition stores_under {A} (K : string -> Prop) (m : M A) : Prop :=
  forall w key,
    (~ K key -> audioFiles (snd (m w)) !! key = audioFiles w !! key) /\
    (is_Some (audioFiles w !! key) -> is_Some (audioFiles (snd (m w)) !! key)).

(** The keys file generation makes for a job: the per-item keys, the cover
    key and the timestamped mp3 and webm keys. *)
Definition own_key (jobId : string) (key : string) : Prop :=
  item_key jobId key \/ key = jobId +:+ "_cover" \/
  exists type t, (type = "mp3" \/ type = "webm")%string /\ key = file_key jobId type t.

(** A localStorage that is full: every [setItem] throws. *)
Definition fullStore : Persistence :=
  {| setItemThrows := fun _ => true;
     putFails := fun _ => false;
     deleteFails := fun _ => false |}.

(** The example application without a Gemini key, and with a playlist
    selected. *)
Definition exampleAppNoGemini : AppState :=
  mkAppState "" "elevenlabs-key" true true gemini [] (Some "token") "" true.

Definition exampleAppPlaylist : AppState :=
  mkAppState "gemini-key" "elevenlabs-key" true true gemini [] (Some "token") "PL1" true.

(** The example collaborators, except that adding to a playlist is rejected. *)
Definition playlistFails : Collaborators :=
  mkCollaborators (generateScriptFromStory exampleCollab) (generateSpeech exampleCollab)
    (generateElevenLabsSfx exampleCollab) (decodeRawPCM exampleCollab)
    (decodeAudioFile exampleCollab) (generatePodcastCoverArt exampleCollab)
    (uploadToYouTube exampleCollab) (fun _ _ _ => Err (Error "quotaExceeded"))
    (latency exampleCollab).

End MoreNotions.

(** ** Reading a file back *)

Module Reading.

(** [DataView.getUint16] and [getUint32], little endian: what a parser of the
    file reads at a byte offset. *)
Definition getUint16 (bytes : list Z) (offset : nat) : option Z :=
  lo ← bytes !! offset; hi ← bytes !! (offset + 1)%nat; Some (lo + 256 * hi)%Z.

Definition getUint32 (bytes : list Z) (offset : nat) : option Z :=
  b0 ← bytes !! offset; b1 ← bytes !! (offset + 1)%nat;
  b2 ← bytes !! (offset + 2)%nat; b3 ← bytes !! (offset + 3)%nat;
  Some (b0 + 256 * b1 + 65536 * b2 + 16777216 * b3)%Z.


End Reading.

(** ** Decoding raw PCM ([utils/audioUtils.ts]) *)

Module Decoding.
Import Audio.

(** What the browser does behind [atob], [new Int16Array(buffer)] and
    [ctx.createBuffer]. *)
Class DecodePlatform : Type := {
  (** the char codes of [atob(base64)]; [None] when it throws
      InvalidCharacterError *)
  atob : string -> option (list Z);
  atob_bytes : forall base64 bytes,
    atob base64 = Some bytes -> Forall (fun b => 0 <= b < 256)%Z bytes;
  (** the message of the RangeError [new Int16Array(buffer)] throws when the
      byte length is odd *)
  rangeErrorMessage : string;
  (** whether [createBuffer] supports this channel count and sample rate *)
  createBufferSupports : positive -> positive -> bool
}.

(** [decodeBase64]: the bytes of the binary string. *)
Definition decodeBase64 `{DecodePlatform} (base64 : string) : Result (list Z) :=
  match atob base64 with
  | Some bytes => Ok bytes
  | None => Err (DOMException "InvalidCharacterError")
  end.

(** [new Int16Array(bytes.buffer)]: the bytes taken in pairs, little endian. *)
Fixpoint int16Pairs (bytes : list Z) : list Z :=
  match bytes with
  | lo :: hi :: rest => getInt16 lo hi :: int16Pairs rest
  | _ => []
  end.

Definition new_Int16Array `{DecodePlatform} (bytes : list Z) : Result (list Z) :=
  if Nat.even (List.length bytes) then Ok (int16Pairs bytes)
  else Err (Error rangeErrorMessage).

(** [ctx.createBuffer(numChannels, frameCount, sampleRate)]: a silent buffer;
    NotSupportedError for no frame or an unsupported layout.  A fractional
    [frameCount] is truncated by the call. *)
Definition createBuffer `{DecodePlatform} (numChannels : positive) (frameCount : nat)
  (sampleRate : positive) : Result AudioBuffer :=
  if Nat.eqb frameCount 0 || negb (createBufferSupports numChannels sampleRate)
  then Err (DOMException "NotSupportedError")
  else Ok (mkAudioBuffer sampleRate frameCount
             (replicate (Pos.to_nat numChannels) (replicate frameCount 0))).

(** [decodeRawPCM(base64Data, ctx, sampleRate = 24000, numChannels = 1)].
    The loops store [dataInt16[i * numChannels + channel] / 32768.0] into
    every frame the buffer has. *)
Definition decodeRawPCM `{DecodePlatform} (base64Data : string) (sampleRate : positive)
  (numChannels : positive) : Result AudioBuffer :=
  bindR (decodeBase64 base64Data) (fun bytes =>
  bindR (new_Int16Array bytes) (fun dataInt16 =>
  let frameCount := (List.length dataInt16 / Pos.to_nat numChannels)%nat in
  bindR (createBuffer numChannels frameCount sampleRate) (fun buffer =>
  Ok (mkAudioBuffer (Audio.sampleRate buffer) (length buffer)
        (map (fun channel =>
                map (fun i => inject_Z (nth (i * Pos.to_nat numChannels + channel)
                                          dataInt16 0%Z) / 32768)
                    (seq 0 (length buffer)))
             (seq 0 (numberOfChannels buffer))))))).

End Decoding.

(** ** Reloading a job into the studio

    [loadFromJob] of [hooks/useDramaData] and the storage function it reads
    the clips with. *)

Module Studio.
Import Audio Storage Workflow Notions.

(** [loadItemAudioBase64] ([services/batchStorageService]): what is stored
    under the key, unless falsy. *)
Definition loadItemAudioBase64 (key : string) (w : World) : option Stored :=
  match audioFiles w !! key with
  | Some (StoredBase64 "") => None
  | stored => stored
  end.

(** The decoder for audio of a format: [decodeRawPCM] for 'pcm', else
    [decodeAudioFile]. *)
Definition decode_as (collab : Collaborators) (fmt : AudioFormat)
  : string -> Result AudioBuffer :=
  match fmt with
  | fmt_pcm => decodeRawPCM collab
  | fmt_mp3 => decodeAudioFile collab
  end.

(** A stored value where a string is expected: [atob] converts its argument
    to a string. *)
Definition as_string (stored : Stored) : string :=
  match stored with
  | StoredBase64 base64 => base64
  | StoredBlob _ => "[object Blob]"
  end.

(** [loadFromJob] ([hooks/useDramaData]), for one item: the [audioBuffer] the
    loaded item carries.  A decoding failure is caught and leaves the item
    without audio. *)
Definition loadItemAudio (collab : Collaborators) (w : World) (item : ScriptItem)
  : option AudioBuffer :=
  if truthy (audioKey item) then
    match loadItemAudioBase64 (default "" (audioKey item)) w with
    | Some stored =>
        match (match audioFormat item with
               | Some fmt_pcm => decodeRawPCM collab (as_string stored)
               | _ => decodeAudioFile collab (as_string stored)
               end) with
        | Ok buffer => Some buffer
        | Err _ => None
        end
    | None => None
    end
  else None.

(** The items [loadFromJob] puts into the page, each with its audio. *)
Definition loadFromJob_items (collab : Collaborators) (w : World) (job : BatchJob)
  : list (ScriptItem * option AudioBuffer) :=
  match scriptData job with
  | Some sd => map (fun item => (item, loadItemAudio collab w item)) (items sd)
  | None => []
  end.

(** Collaborators as [exampleCollab], whose decoders reject empty data. *)
Definition strictDecode (base64 : string) : Result AudioBuffer :=
  if String.eqb base64 "" then Err (DOMException "EncodingError") else exampleDecode base64.

Definition strictCollab : Collaborators :=
  {| generateScriptFromStory := generateScriptFromStory exampleCollab;
     generateSpeech := generateSpeech exampleCollab;
     generateElevenLabsSfx := generateElevenLabsSfx exampleCollab;
     decodeRawPCM := strictDecode;
     decodeAudioFile := strictDecode;
     generatePodcastCoverArt := generatePodcastCoverArt exampleCollab;
     uploadToYouTube := uploadToYouTube exampleCollab;
     addVideoToPlaylist := addVideoToPlaylist exampleCollab;
     latency := latency exampleCollab |}.

(** A script of a spoken line, a line whose synthesis fails and a sound
    effect, in a world that stores the job and no audio yet. *)
Definition threeLineJob : BatchJob :=
  scriptedJob "job1" [speechLine "a" "Hello"; speechLine "b" "(fails)"; sfxCue "c" "rain"].

Definition threeLineWorld : World := mkWorld [threeLineJob] ∅ 3000 [].

End Studio.

(** ** Notions for the batch loops *)

Module LoopNotions.
Import Audio Storage Workflow Notions.

(** A computation that, when it returns, leaves the stored record of the job
    [id] in the status [to]. *)
Definition lands {A} (id : string) (from : BatchJobStatus) (m : M A)
  (to : BatchJobStatus) : Prop :=
  forall w p job0 a w',
    NoDup (map job_id (batchJobs w)) ->
    batchJobs w !! p = Some job0 -> job_id job0 = id -> status_le (status job0) from ->
    m w = (Ok a, w') ->
    exists job1, batchJobs w' !! p = Some job1 /\ status job1 = to.

(** The page's list shows the stored jobs: same ids and statuses, in the
    same order. *)
Definition shows (jobs stored : list BatchJob) : Prop :=
  Forall2 (fun shown job => job_id shown = job_id job /\ status shown = status job)
          jobs stored.

(** The status a button selects jobs by, the status its step gives a job,
    and whether its loop asks for a YouTube login. *)
Definition selects (a : BatchAction) : BatchJobStatus :=
  match a with
  | GenerateAllScripts => pending
  | GenerateAllFiles => script_ready
  | UploadAll => files_ready
  | AutoProcessAll => pending
  end.

Definition aims_at (a : BatchAction) : BatchJobStatus :=
  match a with
  | GenerateAllScripts => script_ready
  | GenerateAllFiles => files_ready
  | UploadAll => uploaded
  | AutoProcessAll => uploaded
  end.

Definition needs_login (a : BatchAction) : bool :=
  match a with
  | UploadAll | AutoProcessAll => true
  | _ => false
  end.

(** Three stories waiting, one of which cannot be scripted, beside a job
    that is ready for upload. *)
Definition mixedWorld : World :=
  mkWorld
    [mkBatchJob "a" "A story" pending 1000 1000 None None None None None None None None None;
     mkBatchJob "b" "(fails)" pending 1000 1000 None None None None None None None None None;
     exampleJob;
     mkBatchJob "c" "Another story" pending 1000 1000 None None None None None None None
       None None]
    (audioFiles exampleWorld) 3000 [].

(** Collaborators as [exampleCollab], whose script generation rejects the
    story "(fails)". *)
Definition scriptFails : Collaborators :=
  mkCollaborators
    (fun t story sfx narrator =>
       if String.eqb story "(fails)" then Err (Error "Script generation failed")
       else generateScriptFromStory exampleCollab t story sfx narrator)
    (generateSpeech exampleCollab)
    (generateElevenLabsSfx exampleCollab) (decodeRawPCM exampleCollab)
    (decodeAudioFile exampleCollab) (generatePodcastCoverArt exampleCollab)
    (uploadToYouTube exampleCollab) (addVideoToPlaylist exampleCollab)
    (latency exampleCollab).

End LoopNotions.

(** ** The studio page of a job *)

Module StudioPage.
Import Audio Storage Workflow Notions Studio.

(** The state of the studio page that saving reads: the [jobId] prop and the
    drama data of [useDramaData]. *)
Record Page : Type := mkPage {
  page_jobId : option string;
  page_storyText : string;
  page_cast : list CastMember;
  page_items : list (ScriptItem * option AudioBuffer);
  page_podcastInfo : option GeneratedPodcastInfo;
  (** typed [string | null]; [loadFromJob] puts there what the store holds *)
  page_coverArtBase64 : option Stored
}.

(** Truthiness of a stored value: only the empty string is falsy. *)
Definition present (value : option Stored) : bool :=
  match value with
  | Some (StoredBase64 base64) => negb (String.eqb base64 "")
  | Some (StoredBlob _) => true
  | None => false
  end.

(** The page as it is mounted for a job id, before anything is loaded. *)
Definition emptyPage (jobId : option string) : Page :=
  mkPage jobId "" [] [] None None.

(** [loadFromJob] ([hooks/useDramaData]) on the page mounted for the job. *)
Definition loadFromJob (collab : Collaborators) (w : World) (job : BatchJob)
  (page : Page) : Page :=
  let coverData :=
    if truthy (files job ≫= coverKey)
    then loadItemAudioBase64 (default "" (files job ≫= coverKey)) w
    else None in
  mkPage (page_jobId page) (storyText job)
    (match scriptData job with Some sd => cast sd | None => page_cast page end)
    (match scriptData job with
     | Some _ => loadFromJob_items collab w job
     | None => page_items page
     end)
    (match scriptData job with Some sd => podcastInfo sd | None => page_podcastInfo page end)
    (if present coverData then coverData else page_coverArtBase64 page).

(** The effect that loads the job of the [jobId] prop into the page. *)
Definition fetchJob (collab : Collaborators) (w : World) (jobId : option string) : Page :=
  if truthy jobId then
    match getBatchJob (default "" jobId) w with
    | Some job => loadFromJob collab w job (emptyPage jobId)
    | None => emptyPage jobId
    end
  else emptyPage jobId.

Section WithPersistence.
Context `{Persistence}.

(** [saveItemAudioBase64] on the value it is handed: [store.put(value, key)]. *)
Definition put (key : string) (value : Stored) : M unit :=
  match value with
  | StoredBase64 base64 => saveItemAudioBase64 key base64
  | StoredBlob blob => saveAudioBlob key blob
  end.

(** [handleSaveToJob] ([pages/StudioPage]). *)
Definition handleSaveToJob (page : Page) : M unit :=
  if negb (truthy (page_jobId page)) then ret tt else
  let jobId := default "" (page_jobId page) in
  coverKey <- match page_coverArtBase64 page with
              | Some coverArtBase64 =>
                  if present (Some coverArtBase64)
                  then put (jobId +:+ "_cover") coverArtBase64 ;;
                       ret (Some (jobId +:+ "_cover"))
                  else ret None
              | None => ret None
              end ;;
  updateBatchJob jobId
    (mkBatchJobUpdates None None None None None None None None
       (Some (mkBatchJobScriptData (page_cast page) (map fst (page_items page))
                (page_podcastInfo page)))
       (Some (mkBatchJobFiles None None coverKey))
       None None None None) ;;
  ret tt.

End WithPersistence.

End StudioPage.

(** ** Saving the page as a new job ([pages/StudioPage]) *)

Module SaveAsNew.
Import Audio Storage Workflow Notions Decoding Studio StudioPage.

(** What the browser does behind [String.prototype.trim] and behind
    [FileReader.readAsDataURL]; [Err] when the reader fires [onerror]. *)
Class PagePlatform : Type := {
  trim : string -> string;
  readAsDataURL : Blob -> Result string
}.

(** [Promise.all(items.map(f))]: every call is made, and the first rejection
    is the result.  The calls are run here in the order of the list, one of
    the possible schedules; the result does not tell how far the others
    got. *)
Fixpoint all {A B} (f : A -> M B) (l : list A) : M (list B) := fun w =>
  match l with
  | [] => (Ok [], w)
  | x :: rest =>
      let (r, w1) := f x w in
      let (rs, w2) := all f rest w1 in
      (match r, rs with
       | Ok b, Ok bs => Ok (b :: bs)
       | Err e, _ => Err e
       | Ok _, Err e => Err e
       end, w2)
  end.

Section WithPersistence.
Context `{PagePlatform} `{Persistence}.

(** [blobToBase64] ([utils/audioUtils.ts]) *)
Definition blobToBase64 (blob : Blob) : M string := liftR (readAsDataURL blob).

(** The callback of [items.map] in [handleSaveAsNewJob]. *)
Definition saveItem (newJobId : string) (entry : ScriptItem * option AudioBuffer)
  : M ScriptItem :=
  let item := fst entry in
  match snd entry with
  | Some audioBuffer =>
      let wavBlob := bufferToWav audioBuffer in
      base64 <- blobToBase64 wavBlob ;;
      let audioKey := generateItemAudioKey newJobId (item_id item) in
      saveItemAudioBase64 audioKey base64 ;;
      ret (set_audio audioKey fmt_pcm item)
  | None => ret item
  end.

(** [handleSaveAsNewJob] ([pages/StudioPage]): the job it adds, or nothing
    after the alert. *)
Definition handleSaveAsNewJob (page : Page) : M (option BatchJob) :=
  if String.eqb (trim (page_storyText page)) ""
     || Nat.eqb (List.length (page_items page)) 0
  then ret None
  else
    t <- Date_now ;;
    let newJobId := "job_" +:+ pretty t in
    now <- Date_now ;;
    itemsToSave <- all (saveItem newJobId) (page_items page) ;;
    coverKey <- match page_coverArtBase64 page with
                | Some coverArtBase64 =>
                    if present (Some coverArtBase64)
                    then put (newJobId +:+ "_cover") coverArtBase64 ;;
                         ret (Some (newJobId +:+ "_cover"))
                    else ret None
                | None => ret None
                end ;;
    let or_ (value : option string) (fallback : string) : string :=
      if truthy value then default "" value else fallback in
    let newJob :=
      mkBatchJob newJobId (page_storyText page) script_ready now now
        (Some (or_ (info_podcastName <$> page_podcastInfo page) "New Podcast"))
        (Some (or_ (info_episodeTitle <$> page_podcastInfo page) "New Episode"))
        (Some (or_ (info_description <$> page_podcastInfo page)
                 (slice0 200 (page_storyText page))))
        (Some (mkBatchJobScriptData (page_cast page) itemsToSave (page_podcastInfo page)))
        (Some (mkBatchJobFiles None None coverKey))
        None None None None in
    addBatchJob newJob ;;
    ret (Some newJob).

End WithPersistence.

(** The key holds a data URL. *)
Definition holds_data_url (w : World) (key : string) : Prop :=
  exists rest, audioFiles w !! key = Some (StoredBase64 ("data:" +:+ rest)).

(** A [trim] for ASCII white space, a reader that makes data URLs with the
    byte count in place of the base64 text, and a decoder whose [atob] takes
    nothing that holds a colon. *)
Fixpoint trimStart (s : string) : string :=
  match s with
  | String c rest => if Ascii.is_space c then trimStart rest else s
  | EmptyString => EmptyString
  end.

Fixpoint has_colon (s : string) : bool :=
  match s with
  | String c rest => Ascii.eqb c (Ascii.ascii_of_nat 58) || has_colon rest
  | EmptyString => false
  end.

Definition examplePagePlatform : PagePlatform :=
  {| trim := fun s => String.rev (trimStart (String.rev (trimStart s)));
     readAsDataURL := fun blob =>
       Ok ("data:" +:+ blob_type blob +:+ ";base64," +:+
           pretty (List.length (blob_bytes blob))) |}.

Definition strictAtob : DecodePlatform :=
  {| atob := fun s => if has_colon s then None else Some [];
     atob_bytes := ltac:(intros s bytes Hs; cbv beta in Hs; destruct (has_colon s);
                         simplify_eq; constructor);
     rangeErrorMessage := "byte length of Int16Array should be a multiple of 2";
     createBufferSupports := fun _ _ => true |}.

(** Collaborators as [exampleCollab] that decode raw PCM as [decodeRawPCM]
    does, with its defaults. *)
Definition pcmCollab : Collaborators :=
  mkCollaborators (generateScriptFromStory exampleCollab) (generateSpeech exampleCollab)
    (generateElevenLabsSfx exampleCollab)
    (fun base64 => Decoding.decodeRawPCM (H := strictAtob) base64 24000 1)
    (decodeAudioFile exampleCollab) (generatePodcastCoverArt exampleCollab)
    (uploadToYouTube exampleCollab) (addVideoToPlaylist exampleCollab)
    (latency exampleCollab).

(** A page with a story and one line that has its clip. *)
Definition clipPage : Page :=
  mkPage None "Once upon a time" [mkCastMember "Narrator" "Puck" gemini None None]
    [(speechLine "line1" "Once upon a time", Some (mkAudioBuffer 24000 2 [[0; 0]]))]
    None None.

End SaveAsNew.

(** ** Reading a recording *)

Module RenderNotions.
Import Audio Notions.

(** Reading a recording: the clips it plays, each with the time, in
    milliseconds of [setTimeout] since the recorder started, at which its
    source was started; and the time it holds in all. *)
Fixpoint timeline (t : Q) (events : list CaptureEvent) : list (AudioBuffer * Q) :=
  match events with
  | [] => []
  | PlayBuffer buffer :: rest => (buffer, t) :: timeline t rest
  | Hold ms :: rest => timeline (t + ms) rest
  | _ :: rest => timeline t rest
  end.

Fixpoint held (events : list CaptureEvent) : Q :=
  match events with
  | [] => 0
  | Hold ms :: rest => ms + held rest
  | _ :: rest => held rest
  end.

(** Every segment's clip with the sum of the [duration] fields, times 1000,
    of the segments before it. *)
Fixpoint starts (t : Q) (segments : list WebmSegment) : list (AudioBuffer * Q) :=
  match segments with
  | [] => []
  | segment :: rest =>
      (audioBuffer segment, t) :: starts (t + segment_duration segment * 1000) rest
  end.

(** The images a render needs: the cover and the segments' images, unless
    empty. *)
Definition needed (segments : list WebmSegment) (defaultCover : option string)
  (img : string) : Prop :=
  img <> ""%string /\
  (defaultCover = Some img \/ exists segment, segment ∈ segments /\ imageBase64 segment = img).

End RenderNotions.

(** ** The RSS feed ([services/podcastService]) *)

Module Rss.
Import Audio.
Import Stdlib.Strings.Ascii.

(** [str.replace(/c/g, by)] for a single character [c]. *)
Fixpoint replaceAll (c : ascii) (by_ : string) (str : string) : string :=
  match str with
  | EmptyString => EmptyString
  | String x rest =>
      if Ascii.eqb x c then by_ +:+ replaceAll c by_ rest
      else String x (replaceAll c by_ rest)
  end.

Definition quote : ascii := Ascii.ascii_of_nat 34.

(** [escapeXml] of [generateRSSFeed]: the five replacements, in the order
    of the source. *)
Definition escapeXml (str : string) : string :=
  replaceAll "'" "&apos;"
    (replaceAll quote "&quot;"
       (replaceAll ">" "&gt;"
          (replaceAll "<" "&lt;"
             (replaceAll "&" "&amp;" str)))).

(** The entity a character is written as, or the character itself. *)
Definition escapeChar (x : ascii) : string :=
  if Ascii.eqb x "&" then "&amp;"
  else if Ascii.eqb x "<" then "&lt;"
  else if Ascii.eqb x ">" then "&gt;"
  else if Ascii.eqb x quote then "&quot;"
  else if Ascii.eqb x "'" then "&apos;"
  else String x EmptyString.

Fixpoint chars (str : string) : list ascii :=
  match str with
  | EmptyString => []
  | String x rest => x :: chars rest
  end.

(** The characters that end or open markup or an attribute value. *)
Definition special (x : ascii) : Prop :=
  x = "<"%char \/ x = ">"%char \/ x = quote \/ x = "'"%char.

(** [a % b] on numbers: the remainder has the sign of the dividend. *)
Definition remainder (a b : Q) : Q := a - b * inject_Z (truncate (a / b)).

(** [s.padStart(2, '0')] *)
Definition padStart2 (s : string) : string :=
  match String.length s with
  | 0%nat => "00"
  | 1%nat => "0" +:+ s
  | _ => s
  end.

(** [formatDuration] of [generateRSSFeed]; a whole number is printed in
    decimal.  The quotients are exact where the code divides doubles: for a
    duration below 2^53 seconds the floors taken are the same and every
    digit of a whole number is printed, so the result is the code's; from
    2^53 on the code's quotients and its number-to-string conversion round,
    and this definition does not follow them. *)
Definition formatDuration (seconds : Q) : string :=
  let h := Qfloor (seconds / 3600) in
  let m := Qfloor (remainder seconds 3600 / 60) in
  let s := Qfloor (remainder seconds 60) in
  if (0 <? h)%Z
  then pretty h +:+ ":" +:+ padStart2 (pretty m) +:+ ":" +:+ padStart2 (pretty s)
  else pretty m +:+ ":" +:+ padStart2 (pretty s).

(** The two decimal digits of a number below 100. *)
Definition digit (k : Z) : ascii := ascii_of_nat (48 + Z.to_nat k).

Definition twoDigits (k : Z) : string :=
  String (digit (k / 10)) (String (digit (k mod 10)) EmptyString).

End Rss.

(** ** The registry of speech providers ([lib/tts/registry.ts]) *)

Module Tts.
Import Storage Workflow.

(** [TtsConfig]: a [Record<string, string>]. *)
Definition TtsConfig : Type := gmap string string.

Record TtsVoice : Type := mkTtsVoice {
  tts_voice_id : string;
  tts_voice_name : string;
  tts_voice_language : option string
}.

(** A [TtsProvider]; a rejected promise is [Err]. *)
Record TtsProvider : Type := mkTtsProvider {
  provider_id : string;
  provider_name : string;
  provider_languages : list string;
  provider_isConfigured : TtsConfig -> bool;
  provider_getVoices : TtsConfig -> Result (list TtsVoice);
  provider_generateSpeech : SpeechOptions -> TtsConfig -> Result SpeechResult
}.

(** A JavaScript [Map] with string keys: its entries in insertion order. *)
Definition Map (V : Type) : Type := list (string * V).

(** [map.set(key, value)]: a present key keeps its place. *)
Fixpoint Map_set {V} (key : string) (value : V) (m : Map V) : Map V :=
  match m with
  | [] => [(key, value)]
  | (k, v) :: rest =>
      if String.eqb k key then (key, value) :: rest else (k, v) :: Map_set key value rest
  end.

Definition Map_get {V} (key : string) (m : Map V) : option V :=
  snd <$> List.find (fun entry => String.eqb (fst entry) key) m.

Definition Map_has {V} (key : string) (m : Map V) : bool :=
  existsb (fun entry => String.eqb (fst entry) key) m.

(** [map.delete(key)]: whether the key was present, and the map without it. *)
Definition Map_delete {V} (key : string) (m : Map V) : bool * Map V :=
  (Map_has key m, List.filter (fun entry => negb (String.eqb (fst entry) key)) m).

(** The private field [providers] of [TtsRegistry]. *)
Definition TtsRegistry : Type := Map TtsProvider.

Definition new_TtsRegistry : TtsRegistry := [].

Definition register (provider : TtsProvider) (providers : TtsRegistry) : TtsRegistry :=
  Map_set (provider_id provider) provider providers.

Definition unregister (id : string) (providers : TtsRegistry) : bool * TtsRegistry :=
  Map_delete id providers.

Definition get (id : string) (providers : TtsRegistry) : option TtsProvider :=
  Map_get id providers.

Definition listAll (providers : TtsRegistry) : list TtsProvider := map snd providers.

Definition getByLanguage (lang : string) (providers : TtsRegistry) : list TtsProvider :=
  List.filter (fun p => bool_decide (lang ∈ provider_languages p)) (listAll providers).

Definition getProviderIds (providers : TtsRegistry) : list string := map fst providers.

Definition has (id : string) (providers : TtsRegistry) : bool := Map_has id providers.

Definition isProviderConfigured (id : string) (config : TtsConfig)
  (providers : TtsRegistry) : bool :=
  match get id providers with
  | Some provider => provider_isConfigured provider config
  | None => false
  end.

Definition getVoices (providerId : string) (config : TtsConfig) (providers : TtsRegistry)
  : Result (list TtsVoice) :=
  match get providerId providers with
  | None => Ok []
  | Some provider =>
      if negb (provider_isConfigured provider config) then Ok []
      else provider_getVoices provider config
  end.

Definition doubleQuote : string := String (Ascii.ascii_of_nat 34) EmptyString.

Definition generateSpeech (providerId : string) (options : SpeechOptions)
  (config : TtsConfig) (providers : TtsRegistry) : Result SpeechResult :=
  match get providerId providers with
  | None => Err (Error ("[TTS Registry] Provider not found: " +:+ providerId))
  | Some provider =>
      if negb (provider_isConfigured provider config)
      then Err (Error ("[TTS Registry] Provider " +:+ doubleQuote +:+ provider_name provider
                       +:+ doubleQuote
                       +:+ " is not configured. Please add required API keys."))
      else provider_generateSpeech provider options config
  end.

Definition getConfiguredProviders (config : TtsConfig) (providers : TtsRegistry)
  : list TtsProvider :=
  List.filter (fun p => provider_isConfigured p config) (listAll providers).

(** The registries the class can hold: the field is private, set to a new
    map and changed by [register] and [unregister] only. *)
Inductive built : TtsRegistry -> Prop :=
  | built_new : built new_TtsRegistry
  | built_register provider providers :
      built providers -> built (register provider providers)
  | built_unregister id providers :
      built providers -> built (snd (unregister id providers)).

(** The keys are distinct and every entry is kept under its provider's id. *)
Definition keyed (providers : TtsRegistry) : Prop :=
  NoDup (map fst providers) /\
  Forall (fun entry => fst entry = provider_id (snd entry)) providers.

(** The two providers of [lib/tts/index.ts], as far as the registry reads
    them, with a synthesis that answers the text. *)
Definition geminiProvider : TtsProvider :=
  mkTtsProvider "gemini" "Gemini" ["en"; "zh-TW"; "ja"; "ko"; "es"; "fr"; "de"; "it"; "pt"]
    (fun config => truthy (config !! "geminiApiKey"))
    (fun _ => Ok [mkTtsVoice "Puck" "Puck" (Some "multi")])
    (fun options _ => Ok (mkSpeechResult (speech_text options) fmt_pcm)).

Definition elevenLabsProvider : TtsProvider :=
  mkTtsProvider "elevenlabs" "ElevenLabs" ["en"; "zh-TW"]
    (fun config => truthy (config !! "elevenLabsApiKey"))
    (fun _ => Ok [])
    (fun options _ => Ok (mkSpeechResult (speech_text options) fmt_mp3)).

Definition ttsRegistry : TtsRegistry :=
  register elevenLabsProvider (register geminiProvider new_TtsRegistry).

End Tts.

(** ** The resumable upload ([services/youtubeService.ts]) *)

Module YouTube.
Import Audio.

(** [const chunkSize = 5 * 1024 * 1024] *)
Definition chunkSize : N := 5 * 1024 * 1024.

(** [blob.slice(start, end)] on the bytes. *)
Definition slice (start end_ : N) (bytes : list Z) : list Z :=
  take (N.to_nat end_ - N.to_nat start) (drop (N.to_nat start) bytes).

(** A [PUT] of the upload loop: [Content-Range: bytes start-(end - 1)/total]
    and the chunk as body. *)
Record ChunkRequest : Type := mkChunkRequest {
  chunk_start : N;
  chunk_end : N;
  chunk_total : N;
  chunk_body : list Z
}.

(** What comes back for a [PUT]. *)
Inductive ChunkResponse : Type :=
  (** status 308; the [Range] header: absent, present without a match of
      [/bytes=0-(\d+)/], or present with the number matched *)
  | Resume (range : option (option N))
  (** an ok status; the [id] and [snippet.title] of the body, or what reading
      them throws *)
  | Created (body : Result (string * string))
  (** any other status, with [error.error?.message] of the body if it has
      one *)
  | Refused (status : N) (message : option string)
  (** [fetch] rejects *)
  | Unreachable (e : Exception).

(** The upload server: its answer to the last of the [PUT]s sent so far. *)
Definition Server : Type := list ChunkRequest -> ChunkResponse.

Record UploadResult : Type := mkUploadResult {
  result_videoId : string;
  result_title : string;
  result_url : string
}.

(** The [while (bytesUploaded < totalBytes)] loop of [uploadToYouTube] and
    the [throw] after it, for at most [fuel] turns: how it ended, if it did,
    and the requests sent. *)
Fixpoint uploadChunks (fuel : nat) (server : Server) (bytes : list Z)
  (bytesUploaded : N) (sent : list ChunkRequest)
  : option (Result UploadResult) * list ChunkRequest :=
  let totalBytes := N.of_nat (List.length bytes) in
  if (bytesUploaded <? totalBytes)%N then
    match fuel with
    | O => (None, sent)
    | S fuel =>
        let start := bytesUploaded in
        let end_ := N.min (bytesUploaded + chunkSize) totalBytes in
        let sent := sent ++ [mkChunkRequest start end_ totalBytes (slice start end_ bytes)] in
        match server sent with
        | Resume range =>
            let bytesUploaded :=
              match range with
              | Some (Some last) => (last + 1)%N
              | Some None => bytesUploaded
              | None => end_
              end in
            uploadChunks fuel server bytes bytesUploaded sent
        | Created (Ok (id, title)) =>
            (Some (Ok (mkUploadResult id title ("https://www.youtube.com/watch?v=" +:+ id))),
             sent)
        | Created (Err e) => (Some (Err e), sent)
        | Refused status message =>
            (Some (Err (Error (if truthy message then default "" message
                               else "上傳失敗: " +:+ pretty status))), sent)
        | Unreachable e => (Some (Err e), sent)
        end
    end
  else (Some (Err (Error "上傳未完成")), sent).

(** What comes back for the [POST] that opens the upload. *)
Inductive InitResponse : Type :=
  | Opened (location : option string)
  | InitRefused (status : N) (message : option string)
  | InitUnreachable (e : Exception).

(** [uploadToYouTube] on the bytes of the video blob. *)
Definition uploadToYouTube (fuel : nat) (init : InitResponse) (server : Server)
  (videoBlob : Blob) : option (Result UploadResult) * list ChunkRequest :=
  match init with
  | InitUnreachable e => (Some (Err e), [])
  | InitRefused status message =>
      (Some (Err (Error (if truthy message then default "" message
                         else "初始化上傳失敗: " +:+ pretty status))), [])
  | Opened location =>
      if negb (truthy location) then (Some (Err (Error "無法取得上傳 URL")), [])
      else uploadChunks fuel server (blob_bytes videoBlob) 0 []
  end.

(** A request that is a chunk of the video. *)
Definition chunk_of (bytes : list Z) (c : ChunkRequest) : Prop :=
  (chunk_start c < chunk_end c <= N.of_nat (List.length bytes))%N /\
  (chunk_end c - chunk_start c <= chunkSize)%N /\
  chunk_total c = N.of_nat (List.length bytes) /\
  chunk_body c = slice (chunk_start c) (chunk_end c) bytes /\
  N.of_nat (List.length (chunk_body c)) = (chunk_end c - chunk_start c)%N.

(** A server that takes every chunk but the last: 308, with no [Range]
    header or with the last byte of the chunk in it, for a chunk that does
    not end the video. *)
Definition takes_chunks (server : Server) : Prop :=
  forall sent c,
    (chunk_end c < chunk_total c)%N ->
    server (sent ++ [c]) = Resume None \/
    server (sent ++ [c]) = Resume (Some (Some (chunk_end c - 1)%N)).

(** What the server answers to a chunk that ends the video. *)
Definition ends_with (server : Server) (answer : ChunkResponse) : Prop :=
  forall sent c, chunk_end c = chunk_total c -> server (sent ++ [c]) = answer.

(** The first chunk of a video. *)
Definition firstChunk (bytes : list Z) : ChunkRequest :=
  let totalBytes := N.of_nat (List.length bytes) in
  mkChunkRequest 0 (N.min chunkSize totalBytes) totalBytes
    (slice 0 (N.min chunkSize totalBytes) bytes).

(** A three-byte video, an opened upload, and servers that create the video
    once they have it, that answer 308 to everything, and that answer 308
    with a [Range] header the loop cannot read. *)
Definition tinyVideo : Blob := mkBlob "video/webm" [1; 2; 3]%Z.

Definition opened : InitResponse := Opened (Some "https://upload.example/session").

Definition creatingServer : Server := fun sent =>
  match last sent with
  | Some c =>
      if (chunk_end c <? chunk_total c)%N then Resume None
      else Created (Ok ("v1", "Episode"))
  | None => Resume None
  end.

Definition resumingServer : Server := fun _ => Resume None.

Definition garbledServer : Server := fun _ => Resume (Some None).

End YouTube.

(** * Facts about the audio pipeline *)

Module AudioFacts.
Import Audio Notions.

(** ** The samples [bufferToWav] writes *)

Lemma truncate_floor_ceiling (y : Q) :
  truncate y = if Qle_bool 0 y then Qfloor y else Qceiling y.
Proof.
  destruct y as [n d]. unfold truncate, Qceiling, Qfloor, Qle_bool, Qopp; simpl.
  rewrite ?Z.mul_1_r. change (0 * Z.pos d)%Z with 0%Z.
  destruct (Z.leb_spec 0 n) as [Hn|Hn].
  - apply Z.quot_div_nonneg; lia.
  - rewrite <- (Z.opp_involutive n) at 1. rewrite Z.quot_opp_l by lia.
    rewrite Z.quot_div_nonneg by lia. reflexivity.
Qed.

Lemma truncate_Qeq (y y' : Q) : y == y' -> truncate y = truncate y'.
Proof.
  intros E. rewrite !truncate_floor_ceiling.
  assert (Qle_bool 0 y = Qle_bool 0 y') as ->.
  { apply eq_true_iff_eq. rewrite !Qle_bool_iff, E. reflexivity. }
  destruct (Qle_bool 0 y'); [by apply Qfloor_comp|by apply Qceiling_comp].
Qed.

Lemma truncate_bounds (a b : Z) (y : Q) :
  (a <= 0 <= b)%Z -> inject_Z a <= y -> y <= inject_Z b -> (a <= truncate y <= b)%Z.
Proof.
  intros Hab Hlo Hhi. rewrite truncate_floor_ceiling.
  destruct (Qle_bool 0 y) eqn:E.
  - apply Qle_bool_iff in E. split.
    + transitivity 0%Z; [lia|]. rewrite <- (Qfloor_Z 0). by apply Qfloor_resp_le.
    + rewrite <- (Qfloor_Z b). by apply Qfloor_resp_le.
  - assert (y <= 0) as Hneg.
    { apply Qlt_le_weak, Qnot_le_lt. intros Hle. apply Qle_bool_iff in Hle. congruence. }
    split.
    + rewrite <- (Qceiling_Z a). by apply Qceiling_resp_le.
    + transitivity 0%Z; [|lia]. rewrite <- (Qceiling_Z 0). by apply Qceiling_resp_le.
Qed.

Lemma Qltb_lt (x y : Q) : Qltb x y = true <-> x < y.
Proof.
  unfold Qltb. rewrite negb_true_iff, <- not_true_iff_false, Qle_bool_iff.
  split; [apply Qnot_le_lt|apply Qlt_not_le].
Qed.

Lemma Qltb_Qeq (x x' y : Q) : x == x' -> Qltb x y = Qltb x' y.
Proof. intros E. apply eq_true_iff_eq. rewrite !Qltb_lt, E. reflexivity. Qed.

Lemma clamp_bounds (x : Q) : -1 <= clamp x /\ clamp x <= 1.
Proof.
  unfold clamp. split; [apply Q.le_max_l|].
  apply Q.max_lub; [discriminate|apply Q.le_min_l].
Qed.

Lemma clamp_inside (x : Q) : -1 <= x -> x <= 1 -> clamp x == x.
Proof. intros Hlo Hhi. unfold clamp. rewrite Q.min_r by done. by apply Q.max_r. Qed.

Lemma clamp_above (x : Q) : 1 <= x -> clamp x == 1.
Proof. intros Hx. unfold clamp. rewrite Q.min_l by done. by apply Q.max_r. Qed.

Lemma clamp_below (x : Q) : x <= -1 -> clamp x == -1.
Proof.
  intros Hx. unfold clamp. rewrite Q.min_r by (eapply Qle_trans; [exact Hx|discriminate]).
  by apply Q.max_l.
Qed.

Lemma scaled_Qeq (s s' : Q) : s == s' -> scaled s == scaled s'.
Proof.
  intros E. unfold scaled. rewrite (Qltb_Qeq ((1 # 2) + s) ((1 # 2) + s')) by (by rewrite E).
  destruct (Qltb _ _); by rewrite E.
Qed.

Lemma scaled_bounds (s : Q) : -1 <= s -> s <= 1 -> -32768 <= scaled s /\ scaled s <= 32767.
Proof.
  intros Hlo Hhi. unfold scaled. destruct (Qltb _ _) eqn:E.
  - apply Qltb_lt in E. split; lra.
  - split; lra.
Qed.

Lemma toInt32_small (y : Q) :
  (-32768 <= truncate y <= 32767)%Z -> toInt32 y = truncate y.
Proof. intros Hy. unfold toInt32. rewrite Z.mod_small by lia. lia. Qed.

Lemma encodeSample_truncates (x : Q) :
  encodeSample x = truncate (scaled (clamp x)) /\
  (-32768 <= encodeSample x <= 32767)%Z.
Proof.
  destruct (clamp_bounds x) as [Hlo Hhi].
  destruct (scaled_bounds _ Hlo Hhi) as [Hlo' Hhi'].
  pose proof (truncate_bounds (-32768) 32767 (scaled (clamp x)) ltac:(lia) Hlo' Hhi') as Ht.
  unfold encodeSample, scale16.
  rewrite toInt32_small by exact Ht. done.
Qed.

Lemma encodeSample_Qeq (s : Q) (x : Q) : clamp x == s -> encodeSample x = truncate (scaled s).
Proof.
  intros E. rewrite (proj1 (encodeSample_truncates x)).
  by apply truncate_Qeq, scaled_Qeq.
Qed.

Lemma int16_round_trip (v : Z) :
  (-32768 <= v <= 32767)%Z ->
  exists lo hi, setInt16 v = [lo; hi] /\ getInt16 lo hi = v.
Proof.
  intros Hv. eexists _, _. split; [reflexivity|].
  unfold getInt16. cbv zeta.
  rewrite (Z.add_comm (_ mod 256)), <- (Z.div_mod (v mod 65536) 256) by lia.
  assert (v mod 65536 = if (v <? 0) then v + 65536 else v)%Z as ->.
  { destruct (Z.ltb_spec v 0).
    - rewrite <- (Z.mod_add v 1 65536) by lia. apply Z.mod_small. lia.
    - apply Z.mod_small. lia. }
  destruct (Z.ltb_spec v 0) as [Hneg|Hpos].
  - destruct (Z.ltb_spec (v + 65536) 32768); lia.
  - destruct (Z.ltb_spec v 32768); lia.
Qed.

(** ** Where [bufferToWav] writes them *)

Lemma flat_map_length_uniform {A B} (f : A -> list B) (n : nat) (l : list A) :
  (forall x, List.length (f x) = n) -> List.length (flat_map f l) = (List.length l * n)%nat.
Proof.
  intros Hf. induction l as [|x l IH]; simpl; [done|].
  rewrite length_app, Hf, IH. lia.
Qed.

Lemma flat_map_lookup_uniform {A B} (f : A -> list B) (n : nat) (l : list A) k a j :
  (forall x, List.length (f x) = n) -> l !! k = Some a -> (j < n)%nat ->
  flat_map f l !! (k * n + j)%nat = f a !! j.
Proof.
  intros Hf. revert k. induction l as [|x l IH]; intros k Hk Hj; [done|].
  simpl. destruct k as [|k]; simpl in Hk.
  - simplify_eq. rewrite lookup_app_l by (rewrite Hf; lia). reflexivity.
  - rewrite lookup_app_r by (rewrite Hf; lia). rewrite Hf.
    replace (S k * n + j - n)%nat with (k * n + j)%nat by lia. by apply IH.
Qed.

Lemma wavHeader_length (buffer : AudioBuffer) : List.length (wavHeader buffer) = 44%nat.
Proof. reflexivity. Qed.

Lemma turns_lookup (C start n k pos i : nat) :
  flat_map (fun pos => map (pair pos) (seq 0 C)) (seq start n) !! k = Some (pos, i) ->
  (i < C)%nat /\ (start <= pos < start + n)%nat /\ k = ((pos - start) * C + i)%nat.
Proof.
  revert start k. induction n as [|n IH]; intros start k Hk; [done|].
  cbn [seq flat_map] in Hk.
  destruct (decide (k < C)%nat) as [Hlt|Hge].
  - rewrite lookup_app_l in Hk by (by rewrite length_map, length_seq).
    change (map ?f ?l) with (f <$> l) in Hk. rewrite list_lookup_fmap in Hk.
    apply fmap_Some in Hk as (i' & Hi' & [= -> ->]).
    apply lookup_seq in Hi' as [-> Hi']. simpl. split; [done|]. split; [lia|].
    rewrite Nat.sub_diag. lia.
  - rewrite lookup_app_r in Hk by (rewrite length_map, length_seq; lia).
    rewrite length_map, length_seq in Hk.
    apply IH in Hk as (Hi & Hpos & Hk). split; [done|]. split; [lia|].
    replace (pos - start)%nat with (S (pos - S start)) by lia. simpl. lia.
Qed.

(** Turn [k] of the write loop is at frame [pos] and channel [i] exactly when
    [k] counts the channels of the frames before [pos], and [i]. *)
Lemma wavTurns_lookup (buffer : AudioBuffer) (k pos i : nat) :
  wavTurns buffer !! k = Some (pos, i) ->
  (i < numberOfChannels buffer)%nat /\ (44 <= pos < length buffer)%nat /\
  k = ((pos - 44) * numberOfChannels buffer + i)%nat.
Proof.
  unfold wavTurns. rewrite wavHeader_length. intros Hk.
  apply turns_lookup in Hk as (Hi & Hpos & Hk). split; [done|]. split; [lia|done].
Qed.

Lemma wavTurns_at (buffer : AudioBuffer) (k i : nat) :
  (k < length buffer - 44)%nat -> (i < numberOfChannels buffer)%nat ->
  wavTurns buffer !! (k * numberOfChannels buffer + i)%nat = Some (44 + k, i)%nat.
Proof.
  intros Hk Hi. unfold wavTurns. rewrite wavHeader_length.
  rewrite (flat_map_lookup_uniform _ (numberOfChannels buffer) _ _ (44 + k)%nat).
  - change (map ?f ?l) with (f <$> l). rewrite list_lookup_fmap.
    by rewrite (proj2 (lookup_seq 0 (numberOfChannels buffer) i i) (conj eq_refl Hi)).
  - intros pos. by rewrite length_map, length_seq.
  - rewrite lookup_seq. split; [reflexivity|done].
  - done.
Qed.

Lemma wavTurns_length (buffer : AudioBuffer) :
  List.length (wavTurns buffer) = ((length buffer - 44) * numberOfChannels buffer)%nat.
Proof.
  unfold wavTurns. rewrite wavHeader_length.
  rewrite (flat_map_length_uniform _ (numberOfChannels buffer)).
  - by rewrite length_seq.
  - intros pos. by rewrite length_map, length_seq.
Qed.

Lemma wavWritten_length (buffer : AudioBuffer) :
  List.length (wavWritten buffer)
  = ((length buffer - 44) * (numberOfChannels buffer * 2))%nat.
Proof.
  unfold wavWritten. rewrite (flat_map_length_uniform _ 2) by (by intros [pos i]).
  rewrite wavTurns_length. lia.
Qed.

Lemma bufferToWav_length (buffer : AudioBuffer) :
  List.length (blob_bytes (bufferToWav buffer)) = wavLength buffer.
Proof.
  unfold bufferToWav, wavData. cbn [blob_bytes].
  rewrite !length_app, wavHeader_length, length_replicate, wavWritten_length.
  unfold wavLength. nia.
Qed.

Lemma wavWritten_lookup (buffer : AudioBuffer) k i j :
  (k < length buffer - 44)%nat -> (i < numberOfChannels buffer)%nat -> (j < 2)%nat ->
  wavWritten buffer !! (k * (numberOfChannels buffer * 2) + (i * 2 + j))%nat
  = setInt16 (encodeAt buffer i (44 + k)) !! j.
Proof.
  intros Hk Hi Hj. unfold wavWritten.
  replace (k * (numberOfChannels buffer * 2) + (i * 2 + j))%nat
    with ((k * numberOfChannels buffer + i) * 2 + j)%nat by lia.
  by rewrite (flat_map_lookup_uniform _ 2 _ _ (44 + k, i)%nat)
    by ((by intros [pos i'])|| (by apply wavTurns_at) || done).
Qed.

(** The two bytes written for channel [i] of frame [pos]. *)
Lemma bufferToWav_sample_bytes (buffer : AudioBuffer) i pos j :
  (i < numberOfChannels buffer)%nat -> (44 <= pos < length buffer)%nat -> (j < 2)%nat ->
  blob_bytes (bufferToWav buffer)
    !! (44 + 2 * ((pos - 44) * numberOfChannels buffer + i) + j)%nat
  = setInt16 (encodeAt buffer i pos) !! j.
Proof.
  intros Hi Hpos Hj.
  destruct (Nat.le_exists_sub 44 pos) as (k & -> & _); [lia|].
  replace (k + 44 - 44)%nat with k by lia.
  pose proof (wavWritten_length buffer) as Hlen.
  assert (k < length buffer - 44)%nat as Hk by lia.
  pose proof (wavWritten_lookup buffer k i j Hk Hi Hj) as Hlook.
  assert ((k + 1) * numberOfChannels buffer
          <= (length buffer - 44) * numberOfChannels buffer)%nat as Hle
    by (apply Nat.mul_le_mono_r; lia).
  clear Hk Hpos. revert Hlen Hle. generalize (length buffer - 44)%nat. intros n Hlen Hle.
  unfold bufferToWav, wavData. cbn [blob_bytes].
  rewrite lookup_app_r by (rewrite wavHeader_length; lia).
  rewrite wavHeader_length.
  replace (44 + 2 * (k * numberOfChannels buffer + i) + j - 44)%nat
    with (k * (numberOfChannels buffer * 2) + (i * 2 + j))%nat by lia.
  rewrite lookup_app_l by (rewrite Hlen; lia).
  rewrite (Nat.add_comm k 44). exact Hlook.
Qed.

(** C5, as stated, fails: the sample 0.5 is written as 16383, where rounding
    halves away from zero gives 16384. *)
Lemma wav_sample_is_not_rounded :
  let buffer := mkAudioBuffer 44100 45 [replicate 44 0 ++ [1 # 2]] in
  well_formed buffer /\
  sampleAt buffer 0 44 = Some (1 # 2) /\
  blob_bytes (bufferToWav buffer) !! 44%nat = Some 255%Z /\
  blob_bytes (bufferToWav buffer) !! 45%nat = Some 63%Z /\
  getInt16 255 63 = 16383%Z /\
  roundedSample (1 # 2) = 16384%Z /\
  ~ (forall x, encodeSample x = roundedSample x).
Proof.
  intros buffer. split.
  { split; [vm_compute; lia|]. split; [vm_compute; lia|]. by constructor. }
  split; [reflexivity|]. split; [reflexivity|]. split; [reflexivity|].
  split; [reflexivity|]. split; [reflexivity|].
  intros Hall. specialize (Hall (1 # 2)). vm_compute in Hall. discriminate.
Qed.

(** What turn [k] of the write loop stores, and where. *)
Lemma bufferToWav_stores (buffer : AudioBuffer) (k pos i : nat) :
  well_formed buffer ->
  wavTurns buffer !! k = Some (pos, i) ->
  exists x lo hi,
    sampleAt buffer i pos = Some x /\
    blob_bytes (bufferToWav buffer) !! (44 + 2 * k)%nat = Some lo /\
    blob_bytes (bufferToWav buffer) !! (44 + 2 * k + 1)%nat = Some hi /\
    getInt16 lo hi = encodeSample x.
Proof.
  intros (_ & _ & Hchannels) Hturn.
  apply wavTurns_lookup in Hturn as (Hi & Hpos & ->).
  assert (exists x, sampleAt buffer i pos = Some x) as [x Hx].
  { unfold sampleAt. destruct (lookup_lt_is_Some_2 (channelData buffer) i Hi) as [channel Hc].
    rewrite Hc. simpl. apply lookup_lt_is_Some_2.
    rewrite Forall_forall in Hchannels. rewrite (Hchannels channel); [lia|].
    by eapply list_elem_of_lookup_2. }
  destruct (encodeSample_truncates x) as [Henc Hrange].
  destruct (int16_round_trip _ Hrange) as (lo & hi & Hset & Hget).
  exists x, lo, hi.
  pose proof (bufferToWav_sample_bytes buffer i pos 0 Hi Hpos ltac:(lia)) as H0.
  pose proof (bufferToWav_sample_bytes buffer i pos 1 Hi Hpos ltac:(lia)) as H1.
  unfold encodeAt in H0, H1. rewrite Hx, Hset in H0, H1. rewrite Nat.add_0_r in H0.
  done.
Qed.

(** C5, amended.  [bufferToWav] returns a file of the size it computed.  At
    every turn of its write loop, number [k] say, there is a sample to read,
    and the two bytes stored, in the 16-bit slot [k] after the 44 header
    bytes, hold that sample clamped to [-1, 1], multiplied by 32768 when the
    clamped sample is below -1/2 and by 32767 otherwise, and truncated toward
    zero; the value is a signed 16-bit number, +1 and above give 32767, -1
    and below give -32768. *)
Theorem wav_samples_are_clamped_scaled_and_truncated (buffer : AudioBuffer)
  (k pos i : nat) :
  well_formed buffer ->
  wavTurns buffer !! k = Some (pos, i) ->
  List.length (blob_bytes (bufferToWav buffer)) = wavLength buffer /\
  exists x lo hi,
    sampleAt buffer i pos = Some x /\
    blob_bytes (bufferToWav buffer) !! (44 + 2 * k)%nat = Some lo /\
    blob_bytes (bufferToWav buffer) !! (44 + 2 * k + 1)%nat = Some hi /\
    let s := clamp x in
    -1 <= s /\ s <= 1 /\
    (s < -(1 # 2) -> getInt16 lo hi = truncate (s * 32768)) /\
    (-(1 # 2) <= s -> getInt16 lo hi = truncate (s * 32767)) /\
    (forall y, truncate y = if Qle_bool 0 y then Qfloor y else Qceiling y) /\
    (-32768 <= getInt16 lo hi <= 32767)%Z /\
    (1 <= x -> getInt16 lo hi = 32767%Z) /\
    (x <= -1 -> getInt16 lo hi = (-32768)%Z).
Proof.
  intros Hwf Hturn. split; [apply bufferToWav_length|].
  destruct (bufferToWav_stores buffer k pos i Hwf Hturn)
    as (x & lo & hi & Hx & H0 & H1 & Hget).
  destruct (encodeSample_truncates x) as [Henc Hrange].
  exists x, lo, hi.
  split; [done|]. split; [exact H0|]. split; [exact H1|]. cbv zeta.
  destruct (clamp_bounds x) as [Hlo Hhi]. rewrite Hget, Henc.
  split; [done|]. split; [done|]. split; [|split].
  - intros Hs. unfold scaled.
    assert (Qltb ((1 # 2) + clamp x) 0 = true) as -> by (apply Qltb_lt; lra). done.
  - intros Hs. unfold scaled.
    assert (Qltb ((1 # 2) + clamp x) 0 = false) as ->; [|done].
    apply not_true_iff_false. rewrite Qltb_lt. lra.
  - split; [apply truncate_floor_ceiling|]. rewrite <- Henc. split; [done|]. split.
    + intros Hx1. by rewrite (encodeSample_Qeq 1 x (clamp_above x Hx1)).
    + intros Hx1. by rewrite (encodeSample_Qeq (-1) x (clamp_below x Hx1)).
Qed.

(** Two turns of the loop: the sample 3/4 is read at the second and stored
    as 24575. *)
Lemma wav_samples_are_clamped_scaled_and_truncated_witness :
  let buffer := mkAudioBuffer 44100 46 [replicate 45 0 ++ [3 # 4]] in
  exists x lo hi,
    sampleAt buffer 0 45 = Some x /\
    blob_bytes (bufferToWav buffer) !! 46%nat = Some lo /\
    blob_bytes (bufferToWav buffer) !! 47%nat = Some hi /\
    (- (1 # 2) <= clamp x -> getInt16 lo hi = truncate (clamp x * 32767)).
Proof.
  intros buffer.
  assert (well_formed buffer) as Hwf.
  { split; [vm_compute; lia|]. split; [vm_compute; lia|]. by constructor. }
  assert (wavTurns buffer !! 1%nat = Some (45, 0)%nat) as Hturn by reflexivity.
  destruct (proj2 (wav_samples_are_clamped_scaled_and_truncated buffer 1 45 0 Hwf Hturn))
    as (x & lo & hi & Hx & Hlo & Hhi & _ & _ & _ & Hscale & _).
  exists x, lo, hi. split; [exact Hx|]. split; [exact Hlo|]. split; [exact Hhi|exact Hscale].
Defined.

(** ** The fallback of [bufferToMp3] *)




(** ** The context [mergeAudioBuffers] renders *)



(** ** What [createDynamicWebmVideo] does without segments or images *)

Lemma find_all_false {A} (f : A -> bool) (l : list A) :
  (forall x, x ∈ l -> f x = false) -> List.find f l = None.
Proof.
  induction l as [|x l IH]; intros Hall; [done|]. simpl.
  rewrite (Hall x) by apply list_elem_of_here.
  apply IH. intros y Hy. apply Hall. by apply list_elem_of_further.
Qed.

Lemma truthy_nonempty (o : option string) (s : string) :
  truthy o = true -> o = Some s -> s <> ""%string.
Proof.
  intros Ht ->. simpl in Ht. intros ->. discriminate.
Qed.

Lemma uniqueImages_elem (segments : list WebmSegment) (defaultCover : option string) x :
  x ∈ uniqueImages segments defaultCover ->
  x <> ""%string /\
  ((truthy defaultCover = true /\ defaultCover = Some x) \/
   exists segment, segment ∈ segments /\ imageBase64 segment = x).
Proof.
  unfold uniqueImages. rewrite elem_of_remove_dups, elem_of_app. intros [Hc|Hs].
  - destruct (truthy defaultCover) eqn:Ht; [|by apply elem_of_nil in Hc].
    destruct defaultCover as [c|]; [|by apply elem_of_nil in Hc].
    apply list_elem_of_singleton in Hc as ->. split; [|by left].
    by eapply truthy_nonempty.
  - apply list_elem_of_filter in Hs as [Hne Hin].
    apply list_elem_of_fmap in Hin as (segment & -> & Hin).
    split; [done|]. right. by exists segment.
Qed.

Lemma createDynamicWebmVideo_resolves `{Platform} (segments : list WebmSegment)
  (defaultCover : option string) (options : WebmOptions) :
  (forall x, x ∈ uniqueImages segments defaultCover -> imageLoads x = true) ->
  records segments defaultCover options ->
  createDynamicWebmVideo segments defaultCover options
  = Ok (mkBlob "video/webm" (recorderData (captureEvents segments defaultCover options))).
Proof.
  intros Hload [Hnew Hcapture]. unfold createDynamicWebmVideo.
  rewrite find_all_false by (intros x Hx; by rewrite (Hload x Hx)).
  destruct (resolveResolution options) as [width height]. simpl in Hnew.
  by rewrite Hnew, Hcapture.
Qed.

(** A rejection is the [error] event of an image of the set, what the
    recorder's constructor threw, or what made the capture fail. *)
Lemma createDynamicWebmVideo_rejects `{Platform} (segments : list WebmSegment)
  (defaultCover : option string) (options : WebmOptions) (e : Exception) :
  createDynamicWebmVideo segments defaultCover options = Err e ->
  (exists img, e = ErrorEvent img /\ img ∈ uniqueImages segments defaultCover /\
               imageLoads img = false) \/
  mediaRecorderThrows (fst (resolveResolution options)) (snd (resolveResolution options))
    (resolveBitrate options) = Some e \/
  captureError (captureEvents segments defaultCover options) = Some e.
Proof.
  unfold createDynamicWebmVideo.
  destruct (List.find _ _) as [img|] eqn:Hfind.
  - intros [= <-]. left. exists img. apply find_some in Hfind as [Hin Hfail].
    split; [done|]. split; [by apply list_elem_of_In|by apply negb_true_iff].
  - destruct (resolveResolution options) as [width height]. simpl.
    destruct (mediaRecorderThrows _ _ _) as [e'|]; [intros [= <-]; by right; left|].
    destruct (captureError _) as [e'|]; [intros [= <-]; by right; right|done].
Qed.

Lemma drawImage_without_image (segments : list WebmSegment) (defaultCover : option string) :
  truthy defaultCover = false ->
  drawImage (uniqueImages segments defaultCover) defaultCover "" = [FillBlack].
Proof.
  intros Hc. unfold drawImage, cachedImage. rewrite Hc.
  rewrite bool_decide_eq_false_2; [done|].
  intros Hin. by apply uniqueImages_elem in Hin as [Hne _].
Qed.

(** C7, as stated, fails for the video: rendering no segment resolves with a
    video blob. *)
Lemma render_of_no_segments_resolves :
  @createDynamicWebmVideo examplePlatform [] None (mkWebmOptions None None)
    = Ok (mkBlob "video/webm" []) /\
  captureEvents [] None (mkWebmOptions None None)
    = [RecorderStart 1920 1080 8000000; Hold 500; RecorderStop] /\
  ~ (forall (P : Platform) defaultCover options,
       exists e, @createDynamicWebmVideo P [] defaultCover options = Err e).
Proof.
  split; [reflexivity|]. split; [reflexivity|].
  intros Hall.
  destruct (Hall examplePlatform None (mkWebmOptions None None)) as [e He].
  discriminate He.
Qed.

(** C8, as stated, fails: a segment without image and no fallback is
    rendered as a black frame, and the promise resolves. *)
Lemma render_without_image_resolves :
  let clip := mkAudioBuffer 44100 1 [[0]] in
  let segment := mkWebmSegment clip "" 2 in
  @createDynamicWebmVideo examplePlatform [segment] None (mkWebmOptions None None)
    = Ok (mkBlob "video/webm" []) /\
  captureEvents [segment] None (mkWebmOptions None None)
    = [RecorderStart 1920 1080 8000000; FillBlack; FillBlack; PlayBuffer clip;
       Hold (2 * 1000); Hold 500; RecorderStop] /\
  ~ (forall (P : Platform) segments options,
       Exists (fun s => imageBase64 s = ""%string) segments ->
       exists e, @createDynamicWebmVideo P segments None options = Err e).
Proof.
  intros clip segment.
  split; [reflexivity|]. split; [reflexivity|].
  intros Hall.
  destruct (Hall examplePlatform [segment] (mkWebmOptions None None)) as [e He].
  - by apply Exists_cons_hd.
  - discriminate He.
Qed.

(** C8, amended.  With no fallback image, when the images the segments do
    carry load and the recorder is made and records without error, the render
    resolves with a video blob of what was captured.  When it rejects, it is
    with the [error] event of a segment's image that failed to load, with what
    the recorder's constructor threw, or with what made the capture fail:
    never for a missing image.  A segment without image is captured as a
    frame cleared to black, its audio played and held for its duration. *)
Theorem render_without_image_draws_black `{Platform} (segments : list WebmSegment)
  (options : WebmOptions) :
  ((forall segment, segment ∈ segments -> imageBase64 segment <> ""%string ->
      imageLoads (imageBase64 segment) = true) ->
   records segments None options ->
   createDynamicWebmVideo segments None options
     = Ok (mkBlob "video/webm" (recorderData (captureEvents segments None options)))) /\
  (forall e, createDynamicWebmVideo segments None options = Err e ->
     (exists segment, segment ∈ segments /\ imageBase64 segment <> ""%string /\
        imageLoads (imageBase64 segment) = false /\
        e = ErrorEvent (imageBase64 segment)) \/
     mediaRecorderThrows (fst (resolveResolution options))
       (snd (resolveResolution options)) (resolveBitrate options) = Some e \/
     captureError (captureEvents segments None options) = Some e) /\
  (forall segment, segment ∈ segments -> imageBase64 segment = ""%string ->
     playSegment (uniqueImages segments None) None segment
     = [FillBlack; PlayBuffer (audioBuffer segment);
        Hold (segment_duration segment * 1000)]) /\
  (exists first rest,
     captureEvents segments None options
     = first ++ flat_map (playSegment (uniqueImages segments None) None) segments ++ rest).
Proof.
  split; [|split; [|split]].
  - intros Hload Hrec. apply createDynamicWebmVideo_resolves; [|done]. intros x Hx.
    apply uniqueImages_elem in Hx as [Hne [[Ht _]|(segment & Hin & <-)]]; [done|].
    by apply Hload.
  - intros e He.
    apply createDynamicWebmVideo_rejects in He as [(img & -> & Hin & Hfail)|He]; [|by right].
    left. apply uniqueImages_elem in Hin as [Hne [[Ht _]|(segment & Hin & <-)]]; [done|].
    by exists segment.
  - intros segment _ Himg. unfold playSegment. rewrite Himg.
    by rewrite drawImage_without_image.
  - unfold captureEvents. destruct (resolveResolution options) as [width height].
    eexists (_ ++ _), _. rewrite <- app_assoc. reflexivity.
Qed.

(** One segment without image, one with. *)
Lemma render_without_image_draws_black_witness :
  let clip := mkAudioBuffer 44100 1 [[0]] in
  let segments := [mkWebmSegment clip "" 2; mkWebmSegment clip "aGk=" 3] in
  @createDynamicWebmVideo examplePlatform segments None (mkWebmOptions None None)
    = Ok (mkBlob "video/webm"
            (@recorderData examplePlatform
               (captureEvents segments None (mkWebmOptions None None)))).
Proof.
  intros clip segments.
  assert (forall segment, segment ∈ segments -> imageBase64 segment <> ""%string ->
            @imageLoads examplePlatform (imageBase64 segment) = true) as Hload
    by reflexivity.
  assert (@records examplePlatform segments None (mkWebmOptions None None)) as Hrec
    by (split; reflexivity).
  exact (proj1 (@render_without_image_draws_black examplePlatform segments
                  (mkWebmOptions None None)) Hload Hrec).
Defined.

End AudioFacts.

(** * Facts about the two stores *)

Module StorageFacts.
Import Audio Storage Notions.

Section WithPersistence.
Context `{Persistence}.

Lemma bind_Ok {A B} (m : M A) (k : A -> M B) w a w' :
  m w = (Ok a, w') -> bind m k w = k a w'.
Proof. unfold bind. by intros ->. Qed.

Lemma bind_Err {A B} (m : M A) (k : A -> M B) w e w' :
  m w = (Err e, w') -> bind m k w = (Err e, w').
Proof. unfold bind. by intros ->. Qed.

(** The deletion loop never throws, touches nothing but the blob store, and
    removes exactly the keys whose delete request succeeds. *)
Lemma deleteKeys_run (keys : list string) (w : World) :
  exists w',
    deleteKeys keys w = (Ok tt, w') /\
    batchJobs w' = batchJobs w /\ now w' = now w /\ written w' = written w /\
    forall key,
      audioFiles w' !! key
      = if bool_decide (key ∈ keys) && negb (deleteFails key)
        then None else audioFiles w !! key.
Proof.
  revert w. induction keys as [|k keys IH]; intros w.
  - exists w. by split_and!.
  - simpl. unfold bind at 1, try_catch, deleteAudioBlob.
    destruct (deleteFails k) eqn:Hk; simpl.
    + destruct (IH w) as (w' & Hrun & Hj & Hn & Hw & Hf).
      exists w'. rewrite Hrun. split_and!; try done.
      intros key. rewrite Hf.
      destruct (decide (key = k)) as [->|Hne].
      * rewrite Hk, !andb_false_r. done.
      * rewrite (bool_decide_ext (key ∈ k :: keys) (key ∈ keys)); [done|].
        rewrite elem_of_cons. split; [by intros [?|?]|by right].
    + destruct (IH (mkWorld (batchJobs w) (delete k (audioFiles w)) (now w) (written w)))
        as (w' & Hrun & Hj & Hn & Hw & Hf).
      exists w'. rewrite Hrun. split_and!; try done.
      intros key. rewrite Hf. simpl.
      destruct (decide (key = k)) as [->|Hne].
      * rewrite Hk, lookup_delete_eq.
        rewrite (bool_decide_eq_true_2 (k ∈ k :: keys)) by apply list_elem_of_here.
        simpl. by destruct (bool_decide _ && _).
      * rewrite lookup_delete_ne by done.
        rewrite (bool_decide_ext (key ∈ k :: keys) (key ∈ keys)); [done|].
        rewrite elem_of_cons. split; [by intros [?|?]|by right].
Qed.

Lemma keysToDelete_spec (job : BatchJob) (key : string) :
  references job key <->
  key <> ""%string /\
  (files job ≫= mp3Key = Some key \/ files job ≫= webmKey = Some key \/
   files job ≫= coverKey = Some key \/
   exists sd item, scriptData job = Some sd /\ item ∈ items sd /\ audioKey item = Some key).
Proof.
  unfold references, keysToDelete.
  assert (forall (o : option string),
            key ∈ match o with
                  | Some k => if String.eqb k "" then [] else [k]
                  | None => []
                  end <-> key <> ""%string /\ o = Some key) as Hone.
  { intros [k|]; [|split; [by intros ?%elem_of_nil|by intros [_ ?]]].
    destruct (String.eqb_spec k "") as [->|Hne].
    - split; [by intros ?%elem_of_nil|]. intros [Hne Heq]. by simplify_eq.
    - rewrite list_elem_of_singleton. split; [by intros ->|]. intros [_ Heq]. by simplify_eq. }
  rewrite !elem_of_app, !Hone.
  assert (key ∈ match scriptData job with
                | Some sd =>
                    flat_map (fun item =>
                                match audioKey item with
                                | Some k => if String.eqb k "" then [] else [k]
                                | None => []
                                end) (items sd)
                | None => []
                end
          <-> key <> ""%string /\
              exists sd item, scriptData job = Some sd /\ item ∈ items sd /\
                              audioKey item = Some key) as ->.
  { destruct (scriptData job) as [sd|].
    - rewrite list_elem_of_In, in_flat_map. split.
      + intros (item & Hin & Hk).
        apply list_elem_of_In in Hin. apply list_elem_of_In in Hk.
        apply Hone in Hk as [Hne Hk]. split; [done|]. by exists sd, item.
      + intros (Hne & sd' & item & Hsd & Hin & Hk). simplify_eq.
        exists item. split; [by apply list_elem_of_In|].
        apply list_elem_of_In. by apply Hone.
    - split; [by intros ?%elem_of_nil|]. by intros (_ & sd & item & Hsd & _). }
  tauto.
Qed.

(** C4, amended.  Deleting a stored job runs the deletion loop over the keys
    the job references, which leaves the metadata as it is, and then writes
    the job list without the job, which leaves the blobs as they are.  Every
    referenced blob whose delete request succeeds is absent afterwards, a
    blob whose delete request fails stays, no other blob changes, and the job
    is absent from the metadata when the write succeeds. *)
Theorem deleteBatchJob_deletes_what_it_can (id : string) (job : BatchJob) (w : World) :
  getBatchJob id w = Some job ->
  exists w1 w',
    deleteJobAudioFiles job w = (Ok tt, w1) /\
    batchJobs w1 = batchJobs w /\
    deleteBatchJob id w = (Ok (filter (fun j => job_id j <> id) (batchJobs w)), w') /\
    audioFiles w' = audioFiles w1 /\
    (forall key, references job key -> deleteFails key = false ->
       audioFiles w' !! key = None) /\
    (forall key, references job key -> deleteFails key = true ->
       audioFiles w' !! key = audioFiles w !! key) /\
    (forall key, ~ references job key -> audioFiles w' !! key = audioFiles w !! key) /\
    (setItemThrows (filter (fun j => job_id j <> id) (batchJobs w)) = false ->
       batchJobs w' = filter (fun j => job_id j <> id) (batchJobs w) /\
       forall j, j ∈ batchJobs w' -> job_id j <> id) /\
    (setItemThrows (filter (fun j => job_id j <> id) (batchJobs w)) = true ->
       batchJobs w' = batchJobs w).
Proof.
  intros Hjob. unfold deleteJobAudioFiles.
  destruct (deleteKeys_run (keysToDelete job) w) as (w1 & Hrun & Hj & Hn & Hw & Hf).
  assert (forall key, references job key -> deleteFails key = false ->
            audioFiles w1 !! key = None) as Hgone.
  { intros key Href Hok. rewrite Hf, Hok.
    by rewrite (bool_decide_eq_true_2 _ Href). }
  assert (forall key, references job key -> deleteFails key = true ->
            audioFiles w1 !! key = audioFiles w !! key) as Hstay.
  { intros key Href Hfail. by rewrite Hf, Hfail, andb_false_r. }
  assert (forall key, ~ references job key ->
            audioFiles w1 !! key = audioFiles w !! key) as Hframe.
  { intros key Href. rewrite Hf. by rewrite (bool_decide_eq_false_2 _ Href). }
  unfold deleteBatchJob.
  rewrite (bind_Ok _ _ w (Some job) w) by (unfold inspect; by rewrite Hjob).
  unfold deleteJobAudioFiles. rewrite (bind_Ok _ _ w tt w1) by exact Hrun.
  rewrite (bind_Ok _ _ w1 (batchJobs w) w1) by (unfold inspect, loadBatchJobs; by rewrite Hj).
  unfold bind, saveBatchJobs, ret.
  destruct (setItemThrows _) eqn:Hset.
  - exists w1, w1. split_and!; try done.
  - eexists w1, _. split_and!; try done. intros _. split; [done|]. simpl.
    intros j Hin. by apply list_elem_of_filter in Hin as [Hne _].
Qed.

End WithPersistence.

(** The example job is deleted from the example world. *)
Lemma deleteBatchJob_deletes_what_it_can_witness :
  exists w1 w',
    @deleteJobAudioFiles reliable exampleJob exampleWorld = (Ok tt, w1) /\
    @deleteBatchJob reliable "job1" exampleWorld = (Ok [], w') /\
    audioFiles w' = audioFiles w1.
Proof.
  assert (@getBatchJob "job1" exampleWorld = Some exampleJob) as Hjob by reflexivity.
  destruct (@deleteBatchJob_deletes_what_it_can reliable "job1" exampleJob exampleWorld Hjob)
    as (w1 & w' & H1 & _ & H2 & H3 & _).
  exists w1, w'. split; [exact H1|]. split; [exact H2|exact H3].
Defined.

(** C4, as stated, fails: when the delete request for the MP3 blob errors,
    the job leaves the metadata and the blob stays behind. *)
Lemma failed_delete_leaves_an_orphan :
  let P := deleteFailsOn "job1_mp3_1500" in
  references exampleJob "job1_mp3_1500" /\
  @getBatchJob "job1" exampleWorld = Some exampleJob /\
  batchJobs (snd (@deleteBatchJob P "job1" exampleWorld)) = [] /\
  audioFiles (snd (@deleteBatchJob P "job1" exampleWorld)) !! "job1_mp3_1500"
    = Some (StoredBlob (mkBlob "audio/mp3" [1%Z])) /\
  audioFiles (snd (@deleteBatchJob P "job1" exampleWorld)) !! "job1_webm_1500" = None.
Proof.
  intros P. split; [|split; [|split; [|split]]].
  - unfold references. vm_compute. apply list_elem_of_here.
  - reflexivity.
  - vm_compute. reflexivity.
  - vm_compute. reflexivity.
  - vm_compute. reflexivity.
Qed.

End StorageFacts.

(** * Facts about the workflow *)

Module WorkflowFacts.
Import Audio Storage Workflow Notions AudioFacts StorageFacts.

(** ** Running computations *)

Lemma bind_inv {A B} (m : M A) (k : A -> M B) w b w' :
  bind m k w = (Ok b, w') -> exists a w1, m w = (Ok a, w1) /\ k a w1 = (Ok b, w').
Proof.
  unfold bind. destruct (m w) as [[a|e] w1]; [|discriminate]. intros Hk. by exists a, w1.
Qed.

Lemma footprint_weaken {A} (K K' : string -> Prop) (m : M A) :
  (forall key, K key -> K' key) -> footprint K m -> footprint K' m.
Proof.
  intros HK Hm w. destruct (Hm w) as (Hj & Hw & Hn & Hf). split_and!; try done.
  intros key Hkey. apply Hf. intros HKk. by apply Hkey, HK.
Qed.

Lemma footprint_ret {A} K (a : A) : footprint K (ret a).
Proof. intros w. by split_and!. Qed.

Lemma footprint_throw {A} K e : footprint K (@throw A e).
Proof. intros w. by split_and!. Qed.

Lemma footprint_liftR {A} K (r : Result A) : footprint K (liftR r).
Proof. intros w. by split_and!. Qed.

Lemma footprint_inspect {A} K (f : World -> A) : footprint K (inspect f).
Proof. intros w. by split_and!. Qed.

Lemma footprint_Date_now K : footprint K Date_now.
Proof. intros w. by split_and!. Qed.

Lemma footprint_sleep K ms : footprint K (sleep ms).
Proof. intros w. split_and!; try done. simpl. lia. Qed.

Lemma footprint_await {A} K collab (call : N -> Result A) : footprint K (await collab call).
Proof. intros w. split_and!; try done. simpl. lia. Qed.

Lemma footprint_bind {A B} K (m : M A) (k : A -> M B) :
  footprint K m -> (forall a, footprint K (k a)) -> footprint K (bind m k).
Proof.
  intros Hm Hk w. unfold bind. specialize (Hm w).
  destruct (m w) as [[a|e] w1]; simpl in *; [|done].
  destruct Hm as (Hj & Hw & Hn & Hf). destruct (Hk a w1) as (Hj' & Hw' & Hn' & Hf').
  split_and!; [congruence|congruence|lia|].
  intros key Hkey. rewrite Hf', Hf; done.
Qed.

Lemma footprint_try_catch {A} K (body : M A) (handler : Exception -> M A) :
  footprint K body -> (forall e, footprint K (handler e)) ->
  footprint K (try_catch body handler).
Proof.
  intros Hm Hk w. unfold try_catch. specialize (Hm w).
  destruct (body w) as [[a|e] w1]; simpl in *; [done|].
  destruct Hm as (Hj & Hw & Hn & Hf). destruct (Hk e w1) as (Hj' & Hw' & Hn' & Hf').
  split_and!; [congruence|congruence|lia|].
  intros key Hkey. rewrite Hf', Hf; done.
Qed.

Section WithPersistence.
Context `{Platform} `{Mp3Library} `{Persistence}.

Lemma footprint_saveAudioBlob (K : string -> Prop) key blob :
  K key -> footprint K (saveAudioBlob key blob).
Proof.
  intros HK w. unfold saveAudioBlob. destruct (putFails key); simpl; [by split_and!|].
  split_and!; try done. intros k Hk. apply lookup_insert_ne. by intros ->.
Qed.

Lemma footprint_saveItemAudioBase64 (K : string -> Prop) key base64 :
  K key -> footprint K (saveItemAudioBase64 key base64).
Proof.
  intros HK w. unfold saveItemAudioBase64. destruct (putFails key); simpl; [by split_and!|].
  split_and!; try done. intros k Hk. apply lookup_insert_ne. by intros ->.
Qed.

Lemma footprint_generateAudioKey K jobId type : footprint K (generateAudioKey jobId type).
Proof.
  apply footprint_bind; [apply footprint_Date_now|]. intros t. apply footprint_ret.
Qed.

End WithPersistence.

(** ** The footprint of file generation *)

Ltac footprint_tac :=
  repeat first
    [ apply footprint_ret | apply footprint_throw | apply footprint_liftR
    | apply footprint_inspect | apply footprint_Date_now | apply footprint_sleep
    | apply footprint_await | apply footprint_generateAudioKey
    | apply footprint_bind; [|intros ?]
    | apply footprint_try_catch; [|intros ?]
    | match goal with
      | |- footprint _ (match ?x with _ => _ end) => destruct x
      end
    | apply footprint_saveAudioBlob
    | apply footprint_saveItemAudioBase64 ].

Section FileGeneration.
Context `{Platform} `{Mp3Library} `{Persistence}.
Variable app : AppState.
Variable collab : Collaborators.

Lemma footprint_generateItem (K : string -> Prop) job cast item audioBuffers :
  (forall key, item_key (job_id job) key -> K key) ->
  footprint K (generateItem app collab job cast item audioBuffers).
Proof.
  intros HK. unfold generateItem, generateSpeechItem, generateSfxItem.
  footprint_tac; apply HK; by eexists.
Qed.

Lemma footprint_generateItems (K : string -> Prop) job cast items audioBuffers :
  (forall key, item_key (job_id job) key -> K key) ->
  footprint K (generateItems app collab job cast items audioBuffers).
Proof.
  intros HK. revert audioBuffers.
  induction items as [|item rest IH]; intros audioBuffers; simpl.
  - apply footprint_ret.
  - apply footprint_bind; [by apply footprint_generateItem|]. intros one.
    apply footprint_bind; [apply IH|]. intros more. apply footprint_ret.
Qed.

Lemma footprint_generateCover (K : string -> Prop) job info title :
  footprint K (generateCover app collab job info title).
Proof. unfold generateCover. footprint_tac. Qed.

Lemma footprint_generateFiles job sd :
  footprint (fun _ => True) (generateFiles app collab job sd).
Proof.
  unfold generateFiles.
  apply footprint_bind; [by apply footprint_generateItems|]. intros generated.
  destruct (fst generated); [apply footprint_throw|].
  apply footprint_bind; [apply footprint_liftR|]. intros mergedBuffer.
  apply footprint_bind; [apply footprint_generateCover|]. intros coverBase64.
  footprint_tac; done.
Qed.

End FileGeneration.

(** ** Status order and the stored lists *)

Lemma status_le_refl s : status_le s s.
Proof. unfold status_le. destruct s; auto. Qed.

Lemma status_le_error s : status_le s error.
Proof. by left. Qed.

Lemma status_le_trans s1 s2 s3 : status_le s1 s2 -> status_le s2 s3 -> status_le s1 s3.
Proof.
  unfold status_le. intros [->|[H1 H1']] [->|[H2 H2']]; auto; [done|].
  right. split; [done|lia].
Qed.

Lemma advances_refl jobs : advances jobs jobs.
Proof. apply Forall2_same_length_lookup. split; [done|]. intros i a b Ha Hb. simplify_eq.
  split; [done|apply status_le_refl]. Qed.

Lemma advances_trans j1 j2 j3 : advances j1 j2 -> advances j2 j3 -> advances j1 j3.
Proof.
  unfold advances. intros H12 H23. eapply Forall2_trans; [|exact H12|exact H23].
  intros a b c [Hab Hab'] [Hbc Hbc']. split; [congruence|by eapply status_le_trans].
Qed.

Lemma advances_ids j1 j2 : advances j1 j2 -> map job_id j1 = map job_id j2.
Proof.
  induction 1 as [|a b l k [Hid _] _ IH]; [done|]. simpl. by rewrite Hid, IH.
Qed.

Lemma advances_insert jobs p job0 job1 :
  jobs !! p = Some job0 -> job_id job0 = job_id job1 ->
  status_le (status job0) (status job1) ->
  advances jobs (<[p := job1]> jobs).
Proof.
  intros Hp Hid Hle. rewrite <- (list_insert_id jobs p job0 Hp) at 1.
  apply Forall2_insert; [apply advances_refl|done].
Qed.

Lemma insert_ids (jobs : list BatchJob) p job0 job1 :
  jobs !! p = Some job0 -> job_id job1 = job_id job0 ->
  map job_id (<[p := job1]> jobs) = map job_id jobs.
Proof.
  intros Hp Hid. change (map job_id) with (fmap (M:=list) job_id).
  rewrite list_fmap_insert, Hid. apply list_insert_id. by rewrite list_lookup_fmap, Hp.
Qed.

Lemma evolves_refl w : evolves w w.
Proof. by apply evolves_same. Qed.

Lemma evolves_trans w1 w2 w3 : evolves w1 w2 -> evolves w2 w3 -> evolves w1 w3.
Proof.
  intros H12 H23. induction H23 as [w3 Hj Hw|w3 w4 H23 IH Hadv Hw].
  - destruct H12 as [w2 Hj2 Hw2|w2' w2 H12 Hadv Hw2].
    + apply evolves_same; congruence.
    + eapply evolves_write; [exact H12| |]; congruence.
  - eapply evolves_write; [exact IH|done..].
Qed.

Lemma footprint_evolves {A} K (m : M A) w : footprint K m -> evolves w (snd (m w)).
Proof. intros Hm. destruct (Hm w) as (Hj & Hw & _). by apply evolves_same. Qed.

Lemma find_unique (jobs : list BatchJob) p job0 :
  NoDup (map job_id jobs) -> jobs !! p = Some job0 ->
  list_find (fun j => job_id j = job_id job0) jobs = Some (p, job0).
Proof.
  intros Hnd Hp. apply list_find_Some. split_and!; [done..|].
  intros q job Hq Hlt Hid.
  assert (q = p); [|lia].
  apply (NoDup_lookup _ q p (job_id job0) Hnd).
  - change (map job_id jobs) with (job_id <$> jobs).
    rewrite list_lookup_fmap, Hq. simpl. by rewrite Hid.
  - change (map job_id jobs) with (job_id <$> jobs).
    by rewrite list_lookup_fmap, Hp.
Qed.

(** ** One metadata write *)

Section Updates.
Context `{Persistence}.

Lemma updateBatchJob_at id updates w p job0 :
  NoDup (map job_id (batchJobs w)) -> batchJobs w !! p = Some job0 -> job_id job0 = id ->
  updateBatchJob id updates w
  = (Ok (<[p := spread job0 updates (now w)]> (batchJobs w)),
     if setItemThrows (<[p := spread job0 updates (now w)]> (batchJobs w)) then w
     else mkWorld (<[p := spread job0 updates (now w)]> (batchJobs w)) (audioFiles w)
            (now w) (written w ++ [<[p := spread job0 updates (now w)]> (batchJobs w)])).
Proof.
  intros Hnd Hp <-. unfold updateBatchJob, bind, inspect, loadBatchJobs, Date_now,
    saveBatchJobs, ret.
  rewrite (find_unique _ _ _ Hnd Hp). by destruct (setItemThrows _).
Qed.

Lemma spread_id job updates t id :
  job_id job = id -> (u_id updates = None \/ u_id updates = Some id) ->
  job_id (spread job updates t) = id.
Proof. intros Hid [Hu|Hu]; unfold spread; simpl; by rewrite Hu. Qed.

Lemma moves_updateBatchJob id updates from s :
  (u_id updates = None \/ u_id updates = Some id) -> u_status updates = Some s ->
  status_le from s ->
  moves id from (updateBatchJob id updates) (fun _ => s).
Proof.
  intros Hu Hs Hle w p job0 Hnd Hp Hid Hfrom.
  rewrite (updateBatchJob_at id updates w p job0 Hnd Hp Hid).
  pose proof (spread_id job0 updates (now w) id Hid Hu) as Hid'.
  assert (status (spread job0 updates (now w)) = s) as Hst
    by (unfold spread; simpl; by rewrite Hs).
  destruct (setItemThrows _); simpl.
  - split; [apply evolves_refl|]. exists job0. split; [by rewrite list_insert_id|].
    split; [done|]. by eapply status_le_trans.
  - split.
    + eapply evolves_write; [apply evolves_refl| |done]. simpl.
      apply (advances_insert _ _ job0); [done|congruence|].
      rewrite Hst. by eapply status_le_trans.
    + eexists. split; [done|]. split; [done|]. rewrite Hst. apply status_le_refl.
Qed.

End Updates.

(** ** Composing computations that move one job *)

Lemma moves_footprint {A} K id from (m : M A) :
  footprint K m -> moves id from m (fun _ => from).
Proof.
  intros Hm w p job0 Hnd Hp Hid Hfrom.
  split; [by eapply footprint_evolves|].
  destruct (Hm w) as (Hj & _). exists job0. rewrite Hj.
  split; [by rewrite list_insert_id|]. split; [done|]. by destruct (fst (m w)).
Qed.

Lemma moves_bind {A B} id from (m : M A) (k : A -> M B) to1 to2 (Q : A -> Prop) :
  moves id from m to1 -> returns m Q ->
  (forall a, Q a -> moves id (to1 a) (k a) to2) ->
  moves id from (bind m k) to2.
Proof.
  intros Hm HQ Hk w p job0 Hnd Hp Hid Hfrom.
  destruct (Hm w p job0 Hnd Hp Hid Hfrom) as (Hev & job1 & Hj & Hid1 & Hto).
  unfold bind. specialize (HQ w).
  destruct (m w) as [[a|e] w1]; simpl in *.
  - assert (batchJobs w1 !! p = Some job1) as Hp1.
    { rewrite Hj. apply list_lookup_insert_eq. by eapply lookup_lt_Some. }
    assert (NoDup (map job_id (batchJobs w1))) as Hnd1.
    { rewrite Hj, (insert_ids _ _ job0); [done..|congruence]. }
    destruct (Hk a (HQ a w1 eq_refl) w1 p job1 Hnd1 Hp1 Hid1 Hto)
      as (Hev' & job2 & Hj' & Hid2 & Hto').
    split; [by eapply evolves_trans|].
    exists job2. rewrite Hj', Hj, list_insert_insert_eq. done.
  - split; [done|]. by exists job1.
Qed.

Lemma moves_consequence {A} id from (m : M A) to to' (Q : A -> Prop) :
  moves id from m to -> returns m Q ->
  (forall a, Q a -> status_le (to a) (to' a)) ->
  moves id from m to'.
Proof.
  intros Hm HQ Hto w p job0 Hnd Hp Hid Hfrom.
  destruct (Hm w p job0 Hnd Hp Hid Hfrom) as (Hev & job1 & Hj & Hid1 & Hto1).
  split; [done|]. exists job1. split; [done|]. split; [done|].
  specialize (HQ w). destruct (m w) as [[a|e] w1]; simpl in *; [|done].
  eapply status_le_trans; [exact Hto1|]. apply Hto. by eapply HQ.
Qed.

Lemma moves_from {A} id from from' (m : M A) to :
  status_le from' from -> moves id from m to -> moves id from' m to.
Proof.
  intros Hle Hm w p job0 Hnd Hp Hid Hfrom.
  apply (Hm w p job0); [done..|]. by eapply status_le_trans.
Qed.

Lemma returns_any {A} (m : M A) : returns m (fun _ => True).
Proof. by intros w a w' _. Qed.

Lemma returns_ret {A} (a : A) (Q : A -> Prop) : Q a -> returns (ret a) Q.
Proof. intros HQ w a' w' Hr. unfold ret in Hr. by simplify_eq. Qed.

Lemma returns_bind {A B} (m : M A) (k : A -> M B) (Q : B -> Prop) :
  (forall a, returns (k a) Q) -> returns (bind m k) Q.
Proof.
  intros Hk w b w' Hr. apply bind_inv in Hr as (a & w1 & _ & Hr). by eapply Hk.
Qed.

Lemma returns_throw {A} e (Q : A -> Prop) : returns (throw e) Q.
Proof. intros w a w' Hr. discriminate Hr. Qed.

Lemma moves_throw {A} id from e to : moves id from (@throw A e) to.
Proof.
  intros w p job0 Hnd Hp Hid Hfrom. split; [apply evolves_refl|].
  exists job0. split; [by rewrite list_insert_id|]. done.
Qed.

Lemma moves_ret {A} id from (a : A) to :
  status_le from (to a) -> moves id from (ret a) to.
Proof.
  intros Hle w p job0 Hnd Hp Hid Hfrom. split; [apply evolves_refl|].
  exists job0. split; [by rewrite list_insert_id|]. split; [done|].
  simpl. by eapply status_le_trans.
Qed.

Lemma moves_bind_footprint {A B} K id from (m : M A) (k : A -> M B) to (Q : A -> Prop) :
  footprint K m -> returns m Q -> (forall a, Q a -> moves id from (k a) to) ->
  moves id from (bind m k) to.
Proof.
  intros Hm HQ Hk. eapply moves_bind; [by eapply moves_footprint|exact HQ|exact Hk].
Qed.

Lemma moves_bind_update `{Persistence} {B} id updates from s (k : list BatchJob -> M B) to :
  (u_id updates = None \/ u_id updates = Some id) -> u_status updates = Some s ->
  status_le from s -> (forall jobs, moves id s (k jobs) to) ->
  moves id from (bind (updateBatchJob id updates) k) to.
Proof.
  intros Hu Hs Hle Hk.
  eapply moves_bind; [by apply moves_updateBatchJob|apply returns_any|].
  intros jobs _. apply Hk.
Qed.

(** ** The three steps *)

Section Steps.
Context `{Platform} `{Mp3Library} `{Persistence}.
Variable app : AppState.
Variable collab : Collaborators.

Lemma returns_handleGenerateScript job :
  returns (handleGenerateScript app collab job)
          (fun job' => job_id job' = job_id job /\ status job' = script_ready).
Proof.
  unfold handleGenerateScript. apply returns_bind. intros result.
  apply returns_bind. intros _. by apply returns_ret.
Qed.

Lemma moves_handleGenerateScript job :
  moves (job_id job) pending (handleGenerateScript app collab job) (fun _ => script_ready).
Proof.
  unfold handleGenerateScript.
  eapply (moves_bind_footprint (fun _ => True)); [apply footprint_await|apply returns_any|].
  intros result _.
  apply moves_bind_update with (s := script_ready); [by right|done|right; simpl; split; [done|lia]|].
  intros _. apply moves_ret. apply status_le_refl.
Qed.

Lemma returns_generateFiles job sd :
  returns (generateFiles app collab job sd)
          (fun job' => job_id job' = job_id job /\ status job' = files_ready).
Proof.
  unfold generateFiles. apply returns_bind. intros generated.
  destruct (fst generated); [apply returns_throw|].
  repeat (apply returns_bind; intros ?). by apply returns_ret.
Qed.

Lemma returns_handleGenerateFiles job :
  returns (handleGenerateFiles app collab job)
          (fun job' => job_id job' = job_id job /\ status job' = files_ready).
Proof.
  unfold handleGenerateFiles. destruct (scriptData job) as [sd|]; [|apply returns_throw].
  apply returns_bind. intros _.
  intros w job' w' Hr. apply bind_inv in Hr as (updatedJob & w1 & Hgen & Hr).
  apply bind_inv in Hr as (jobs & w2 & _ & Hr). unfold ret in Hr. simplify_eq.
  by eapply returns_generateFiles.
Qed.

Lemma moves_handleGenerateFiles job :
  moves (job_id job) script_ready (handleGenerateFiles app collab job)
        (fun _ => files_ready).
Proof.
  unfold handleGenerateFiles. destruct (scriptData job) as [sd|]; [|apply moves_throw].
  apply moves_bind_update with (s := generating);
    [by left|done|right; simpl; split; [done|lia]|].
  intros _.
  eapply (moves_bind_footprint (fun _ => True));
    [apply footprint_generateFiles|apply returns_generateFiles|].
  intros updatedJob [Hid Hst].
  apply moves_bind_update with (s := files_ready);
    [right; simpl; by rewrite Hid|simpl; by rewrite Hst|right; simpl; split; [done|lia]|].
  intros _. apply moves_ret. apply status_le_refl.
Qed.

Lemma returns_handleUploadToYouTube job :
  returns (handleUploadToYouTube app collab job)
          (fun job' => job_id job' = job_id job /\ status job' = uploaded).
Proof.
  unfold handleUploadToYouTube.
  destruct (negb (truthy _)); [apply returns_throw|].
  destruct (negb (truthy _)); [apply returns_throw|].
  apply returns_bind. intros _. apply returns_bind. intros [webmBlob|]; [|apply returns_throw].
  repeat (apply returns_bind; intros ?). by apply returns_ret.
Qed.

Lemma moves_handleUploadToYouTube job :
  moves (job_id job) files_ready (handleUploadToYouTube app collab job)
        (fun _ => uploaded).
Proof.
  unfold handleUploadToYouTube.
  destruct (negb (truthy _)); [apply moves_throw|].
  destruct (negb (truthy _)); [apply moves_throw|].
  apply moves_bind_update with (s := uploading);
    [by left|done|right; simpl; split; [done|lia]|].
  intros _.
  eapply (moves_bind_footprint (fun _ => True)); [apply footprint_inspect|apply returns_any|].
  intros [webmBlob|] _; [|apply moves_throw].
  eapply (moves_bind_footprint (fun _ => True)); [apply footprint_await|apply returns_any|].
  intros result _.
  eapply (moves_bind_footprint (fun _ => True)); [|apply returns_any|].
  { destruct (_ && _); [|apply footprint_ret].
    apply footprint_try_catch; [apply footprint_await|intros e; apply footprint_ret]. }
  intros _ _.
  eapply (moves_bind_footprint (fun _ => True)); [apply footprint_Date_now|apply returns_any|].
  intros uploadedAt' _.
  apply moves_bind_update with (s := uploaded);
    [by right|done|right; simpl; split; [done|lia]|].
  intros _. apply moves_ret. apply status_le_refl.
Qed.

Lemma returns_autoProcess job :
  returns (autoProcess app collab job)
          (fun job' => job_id job' = job_id job /\ status job' = uploaded).
Proof.
  unfold autoProcess. intros w job' w' Hr.
  apply bind_inv in Hr as (job1 & w1 & Hr1 & Hr).
  apply bind_inv in Hr as (job2 & w2 & Hr2 & Hr).
  apply returns_handleGenerateScript in Hr1 as [Hid1 _].
  apply returns_handleGenerateFiles in Hr2 as [Hid2 _].
  apply returns_handleUploadToYouTube in Hr as [Hid3 Hst]. split; congruence.
Qed.

Lemma moves_autoProcess job :
  moves (job_id job) pending (autoProcess app collab job) (fun _ => uploaded).
Proof.
  unfold autoProcess.
  eapply moves_bind;
    [apply moves_handleGenerateScript|apply returns_handleGenerateScript|].
  intros job1 [Hid1 _]. rewrite <- Hid1.
  eapply moves_bind;
    [apply moves_handleGenerateFiles|apply returns_handleGenerateFiles|].
  intros job2 [Hid2 _]. rewrite <- Hid2.
  apply moves_handleUploadToYouTube.
Qed.

End Steps.

(** ** The loops *)

Lemma replaceJob_insert (jobs : list BatchJob) p job id job' :
  NoDup (map job_id jobs) -> jobs !! p = Some job -> job_id job = id ->
  replaceJob id job' jobs = <[p := job']> jobs.
Proof.
  intros Hnd Hp Hid. apply list_eq. intros i. unfold replaceJob.
  change (map ?f jobs) with (f <$> jobs). rewrite list_lookup_fmap.
  destruct (decide (i = p)) as [->|Hne].
  - rewrite Hp, list_lookup_insert_eq by (by eapply lookup_lt_Some). simpl.
    by rewrite bool_decide_eq_true_2.
  - rewrite list_lookup_insert_ne by done.
    destruct (jobs !! i) as [x|] eqn:Hi; [|done]. simpl.
    rewrite bool_decide_eq_false_2; [done|]. intros Hx. apply Hne.
    apply (NoDup_lookup _ i p id Hnd); change (map job_id jobs) with (job_id <$> jobs);
      rewrite list_lookup_fmap; [by rewrite Hi, <- Hx|by rewrite Hp, <- Hid].
Qed.

Section Loops.
Context `{Platform} `{Mp3Library} `{Persistence}.

Lemma error_update_step id message w p job1 :
  NoDup (map job_id (batchJobs w)) -> batchJobs w !! p = Some job1 -> job_id job1 = id ->
  exists jobs' job2,
    fst (updateBatchJob id (error_update message) w) = Ok jobs' /\
    evolves w (snd (updateBatchJob id (error_update message) w)) /\
    batchJobs (snd (updateBatchJob id (error_update message) w))
      = <[p := job2]> (batchJobs w) /\
    job_id job2 = id /\
    advances (batchJobs (snd (updateBatchJob id (error_update message) w))) jobs'.
Proof.
  intros Hnd Hp Hid.
  rewrite (updateBatchJob_at id (error_update message) w p job1 Hnd Hp Hid).
  assert (job_id (spread job1 (error_update message) (now w)) = id) as Hid'
    by (apply spread_id; [done|by left]).
  assert (advances (batchJobs w)
            (<[p := spread job1 (error_update message) (now w)]> (batchJobs w))) as Hadv.
  { apply (advances_insert _ _ job1); [done|congruence|]. apply status_le_error. }
  destruct (setItemThrows _); simpl.
  - eexists _, job1. split; [done|]. split; [apply evolves_refl|].
    split; [by rewrite list_insert_id|]. done.
  - eexists _, _. split; [done|]. split.
    { eapply evolves_write; [apply evolves_refl|done|done]. }
    split; [done|]. split; [done|]. apply advances_refl.
Qed.

Lemma processJobs_cons_Ok (step : BatchJob -> M BatchJob) job rest jobs w job' w1 :
  step job w = (Ok job', w1) ->
  processJobs step (job :: rest) jobs w
  = processJobs step rest (replaceJob (job_id job) job' jobs) w1.
Proof. intros Hstep. simpl. unfold bind at 1, try_catch, bind at 1. by rewrite Hstep. Qed.

Lemma processJobs_cons_Err (step : BatchJob -> M BatchJob) job rest jobs w e w1 jobs1 w2 :
  step job w = (Err e, w1) ->
  updateBatchJob (job_id job) (error_update (message_of e)) w1 = (Ok jobs1, w2) ->
  processJobs step (job :: rest) jobs w = processJobs step rest jobs1 w2.
Proof.
  intros Hstep Hupd. simpl. unfold bind at 1, try_catch, bind at 1.
  by rewrite Hstep, Hupd.
Qed.

Lemma processJobs_advances (step : BatchJob -> M BatchJob) (selected : list BatchJob) :
  (forall job, job ∈ selected ->
     exists to,
       moves (job_id job) (status job) (step job) (fun _ => to) /\
       returns (step job) (fun job' => job_id job' = job_id job /\ status job' = to)) ->
  forall jobs w,
    NoDup (map job_id (batchJobs w)) -> NoDup (map job_id selected) ->
    advances (batchJobs w) jobs ->
    (forall job, job ∈ selected ->
       exists p job0, batchJobs w !! p = Some job0 /\ job_id job0 = job_id job /\
                      status_le (status job0) (status job)) ->
    exists jobs',
      fst (processJobs step selected jobs w) = Ok jobs' /\
      evolves w (snd (processJobs step selected jobs w)) /\
      advances (batchJobs (snd (processJobs step selected jobs w))) jobs' /\
      NoDup (map job_id (batchJobs (snd (processJobs step selected jobs w)))).
Proof.
  induction selected as [|job rest IH]; intros Hstep jobs w Hnd Hsel Hadv Hpos.
  - exists jobs. simpl. split_and!; [done|apply evolves_refl|done|done].
  - destruct (Hstep job) as (to & Hmoves & Hret); [apply list_elem_of_here|].
    destruct (Hpos job) as (p & job0 & Hp & Hid0 & Hle0); [apply list_elem_of_here|].
    destruct (Hmoves w p job0 Hnd Hp Hid0 Hle0) as (Hev & job1 & Hj & Hid1 & Hto).
    apply NoDup_cons in Hsel as [Hnotin Hsel].
    assert (forall w1 job1',
              batchJobs w1 = <[p := job1']> (batchJobs w) -> job_id job1' = job_id job ->
              NoDup (map job_id (batchJobs w1)) /\
              forall job_r, job_r ∈ rest ->
                exists p_r job0_r, batchJobs w1 !! p_r = Some job0_r /\
                  job_id job0_r = job_id job_r /\
                  status_le (status job0_r) (status job_r)) as Hrest.
    { intros w1 job1' Hj1 Hid1'. split.
      { rewrite Hj1, (insert_ids _ _ job0); [done..|congruence]. }
      intros job_r Hin. destruct (Hpos job_r) as (p_r & job0_r & Hp_r & Hid_r & Hle_r);
        [by apply list_elem_of_further|].
      exists p_r, job0_r. split; [|done]. rewrite Hj1.
      rewrite list_lookup_insert_ne; [done|]. intros ->.
      assert (job_id job = job_id job_r) as Heq by congruence.
      apply Hnotin. rewrite Heq.
      change (map job_id rest) with (job_id <$> rest). by apply list_elem_of_fmap_2. }
    assert (forall job', job' ∈ rest ->
              exists to,
                moves (job_id job') (status job') (step job') (fun _ => to) /\
                returns (step job')
                  (fun job'' => job_id job'' = job_id job' /\ status job'' = to)) as Hstep'
      by (intros job' Hin; apply Hstep; by apply list_elem_of_further).
    specialize (Hret w).
    destruct (step job w) as [[job'|e] w1] eqn:Hrun; cbn [fst snd] in *.
    + rewrite (processJobs_cons_Ok step job rest jobs w job' w1 Hrun).
      destruct (Hret job' w1 eq_refl) as [Hid' Hst'].
      destruct (Hrest w1 job1 Hj Hid1) as [Hnd1 Hpos1].
      assert (advances (batchJobs w1) (replaceJob (job_id job) job' jobs)) as Hadv1.
      { pose proof (advances_ids _ _ Hadv) as Hids.
        destruct (Forall2_lookup_l _ _ _ _ _ Hadv Hp) as (rj & Hrj & Hrid & _).
        rewrite (replaceJob_insert jobs p rj (job_id job) job');
          [|by rewrite <- Hids|exact Hrj|congruence].
        rewrite Hj. apply Forall2_insert; [exact Hadv|].
        split; [congruence|]. by rewrite Hst'. }
      destruct (IH Hstep' _ w1 Hnd1 Hsel Hadv1 Hpos1) as (jobs' & Hok & Hev' & Hadv' & Hnd').
      exists jobs'. split_and!; [done| |done|done]. by eapply evolves_trans.
    + destruct (Hrest w1 job1 Hj Hid1) as [Hnd1 Hpos1].
      assert (batchJobs w1 !! p = Some job1) as Hp1.
      { rewrite Hj. apply list_lookup_insert_eq. by eapply lookup_lt_Some. }
      destruct (error_update_step (job_id job) (message_of e) w1 p job1 Hnd1 Hp1 Hid1)
        as (jobs1 & job2 & Hok1 & Hev1 & Hj2 & Hid2 & Hadv2).
      destruct (updateBatchJob (job_id job) (error_update (message_of e)) w1)
        as [r2 w2] eqn:Hupd. cbn [fst snd] in *. subst r2.
      rewrite (processJobs_cons_Err step job rest jobs w e w1 jobs1 w2 Hrun Hupd).
      assert (batchJobs w2 = <[p := job2]> (batchJobs w)) as Hj2'
        by (by rewrite Hj2, Hj, list_insert_insert_eq).
      destruct (Hrest w2 job2 Hj2' Hid2) as [Hnd2 Hpos2].
      destruct (IH Hstep' _ w2 Hnd2 Hsel Hadv2 Hpos2) as (jobs' & Hok & Hev' & Hadv' & Hnd').
      exists jobs'. split_and!; [done| |done|done].
      eapply evolves_trans; [|exact Hev']. by eapply evolves_trans.
Qed.

(** What a loop needs from the page's list and the store when it starts. *)
Lemma selected_positions (jobs : list BatchJob) (w : World) s :
  NoDup (map job_id (batchJobs w)) -> advances (batchJobs w) jobs ->
  NoDup (map job_id (with_status s jobs)) /\
  forall job, job ∈ with_status s jobs ->
    status job = s /\
    exists p job0, batchJobs w !! p = Some job0 /\ job_id job0 = job_id job /\
                   status_le (status job0) (status job).
Proof.
  intros Hnd Hadv. split.
  - eapply sublist_NoDup; [rewrite (advances_ids _ _ Hadv) in Hnd; exact Hnd|].
    change (map job_id ?l) with (job_id <$> l). apply fmap_sublist.
    apply sublist_filter.
  - intros job Hin. apply list_elem_of_filter in Hin as [Hs Hin]. split; [done|].
    apply list_elem_of_lookup in Hin as [p Hp].
    destruct (Forall2_lookup_r _ _ _ _ _ Hadv Hp) as (job0 & Hp0 & Hid & Hle).
    by exists p, job0.
Qed.

Lemma loop_advances (step : BatchJob -> M BatchJob) (s to : BatchJobStatus)
  (jobs : list BatchJob) (w : World) :
  (forall job, moves (job_id job) s (step job) (fun _ => to) /\
               returns (step job)
                 (fun job' => job_id job' = job_id job /\ status job' = to)) ->
  NoDup (map job_id (batchJobs w)) -> advances (batchJobs w) jobs ->
  exists jobs',
    fst (processJobs step (with_status s jobs) jobs w) = Ok jobs' /\
    evolves w (snd (processJobs step (with_status s jobs) jobs w)) /\
    advances (batchJobs (snd (processJobs step (with_status s jobs) jobs w))) jobs' /\
    NoDup (map job_id (batchJobs (snd (processJobs step (with_status s jobs) jobs w)))).
Proof.
  intros Hstep Hnd Hadv.
  destruct (selected_positions jobs w s Hnd Hadv) as [Hsel Hpos].
  apply processJobs_advances; [|done|done|done|].
  - intros job Hin. exists to. destruct (Hpos job Hin) as [-> _]. apply Hstep.
  - intros job Hin. by destruct (Hpos job Hin) as [_ ?].
Qed.

Lemma handleClick_advances (c : Click) (jobs : list BatchJob) (w : World) :
  NoDup (map job_id (batchJobs w)) -> advances (batchJobs w) jobs ->
  exists jobs',
    fst (handleClick c jobs w) = Ok jobs' /\
    evolves w (snd (handleClick c jobs w)) /\
    advances (batchJobs (snd (handleClick c jobs w))) jobs' /\
    NoDup (map job_id (batchJobs (snd (handleClick c jobs w)))).
Proof.
  intros Hnd Hadv.
  assert (exists jobs', fst (ret (A:=list BatchJob) jobs w) = Ok jobs' /\
            evolves w (snd (ret jobs w)) /\
            advances (batchJobs (snd (ret jobs w))) jobs' /\
            NoDup (map job_id (batchJobs (snd (ret jobs w))))) as Hnothing
    by (exists jobs; split_and!; [done|apply evolves_refl|done|done]).
  unfold handleClick. destruct (action c).
  - unfold handleGenerateAllScripts.
    pose proof (loop_advances (handleGenerateScript (click_app c) (click_collab c))
                  pending script_ready jobs w) as Hloop.
    destruct (with_status pending jobs); [done|]. apply Hloop; [|done..].
    intros job. split; [apply moves_handleGenerateScript|apply returns_handleGenerateScript].
  - unfold handleGenerateAllFiles.
    pose proof (loop_advances (handleGenerateFiles (click_app c) (click_collab c))
                  script_ready files_ready jobs w) as Hloop.
    destruct (with_status script_ready jobs); [done|]. apply Hloop; [|done..].
    intros job. split; [apply moves_handleGenerateFiles|apply returns_handleGenerateFiles].
  - unfold handleUploadAll. destruct (negb _); [done|].
    pose proof (loop_advances (handleUploadToYouTube (click_app c) (click_collab c))
                  files_ready uploaded jobs w) as Hloop.
    destruct (with_status files_ready jobs); [done|]. apply Hloop; [|done..].
    intros job. split; [apply moves_handleUploadToYouTube|apply returns_handleUploadToYouTube].
  - unfold handleAutoProcessAll.
    pose proof (loop_advances (autoProcess (click_app c) (click_collab c))
                  pending uploaded jobs w) as Hloop.
    destruct (with_status pending jobs); [done|]. destruct (negb _); [done|].
    apply Hloop; [|done..].
    intros job. split; [apply moves_autoProcess|apply returns_autoProcess].
Qed.

Lemma runClicks_advances (clicks : list Click) (jobs : list BatchJob) (w : World) :
  NoDup (map job_id (batchJobs w)) -> advances (batchJobs w) jobs ->
  evolves w (snd (runClicks clicks jobs w)) /\
  NoDup (map job_id (batchJobs (snd (runClicks clicks jobs w)))).
Proof.
  revert jobs w. induction clicks as [|c rest IH]; intros jobs w Hnd Hadv.
  - split; [apply evolves_refl|done].
  - simpl. destruct (handleClick_advances c jobs w Hnd Hadv)
      as (jobs' & Hok & Hev & Hadv' & Hnd').
    destruct (handleClick c jobs w) as [r w']. cbn [fst snd] in *. subst r.
    destruct (IH jobs' w' Hnd' Hadv') as [Hev' Hnd''].
    split; [by eapply evolves_trans|done].
Qed.

Lemma batchVisits_evolves (visits : list (list Click)) (w : World) :
  NoDup (map job_id (batchJobs w)) -> evolves w (batchVisits visits w).
Proof.
  revert w. induction visits as [|clicks rest IH]; intros w Hnd; [apply evolves_refl|].
  simpl. unfold batchPage, loadBatchJobs.
  destruct (runClicks_advances clicks (batchJobs w) w Hnd (advances_refl _)) as [Hev Hnd'].
  eapply evolves_trans; [exact Hev|]. by apply IH.
Qed.

End Loops.

(** What [evolves] says about the history. *)
Lemma evolves_history (w0 w : World) :
  evolves w0 w ->
  (forall i j before after,
     (i <= j)%nat -> history w0 w !! i = Some before -> history w0 w !! j = Some after ->
     advances before after) /\
  last (history w0 w) = Some (batchJobs w).
Proof.
  intros Hev.
  assert (exists new,
            written w = written w0 ++ new /\
            last (batchJobs w0 :: new) = Some (batchJobs w) /\
            Forall (fun s => advances s (batchJobs w)) (batchJobs w0 :: new) /\
            forall i j before after,
              (i <= j)%nat -> (batchJobs w0 :: new) !! i = Some before ->
              (batchJobs w0 :: new) !! j = Some after -> advances before after)
    as (new & Hw & Hlast & _ & Hsorted).
  { induction Hev as [w Hj Hw|w w' Hev IH Hadv Hw].
    - exists []. rewrite app_nil_r. split; [done|]. split; [by rewrite Hj|].
      split; [constructor; [rewrite Hj; apply advances_refl|constructor]|].
      intros [|i] [|j] before after Hij Hi Hj'; simplify_eq/=. apply advances_refl.
    - destruct IH as (new & Hw' & Hlast & Hall & Hsorted).
      exists (new ++ [batchJobs w']). split; [by rewrite Hw, Hw', app_assoc|].
      split; [by rewrite app_comm_cons, last_snoc|].
      split.
      { rewrite app_comm_cons. apply Forall_app. split.
        - eapply Forall_impl; [exact Hall|]. intros s Hs.
          exact (advances_trans _ _ _ Hs Hadv).
        - constructor; [apply advances_refl|constructor]. }
      intros i j before after Hij Hi Hj. rewrite app_comm_cons in Hi, Hj.
      apply lookup_snoc_Some in Hj as [[Hlt Hj]|[Hlen <-]].
      + apply lookup_snoc_Some in Hi as [[_ Hi]|[Hlen _]]; [|lia].
        exact (Hsorted i j before after Hij Hi Hj).
      + apply lookup_snoc_Some in Hi as [[_ Hi]|[_ <-]]; [|apply advances_refl].
        eapply advances_trans; [|exact Hadv].
        eapply Forall_lookup_1 in Hall; [exact Hall|exact Hi]. }
  unfold history. rewrite Hw, drop_app_length. done.
Qed.

(** ** The status of a job over time *)

(** C9, amended.  Through any series of visits of the batch page and, in
    each visit, any series of clicks on its four buttons, the loop of each
    click ending before the next click or visit, with any collaborators and
    any storage failures, every job list the store held is followed only by
    lists that hold the same jobs in the same places, each with a status that
    is its earlier status moved forward on the path or set to error; a job in
    error stays in error.  The job ids of the store are taken to be
    distinct. *)
Theorem batch_loops_never_move_a_status_backward
  `{Platform} `{Mp3Library} `{Persistence} (visits : list (list Click)) (w0 : World) :
  NoDup (map job_id (batchJobs w0)) ->
  (forall i j before after,
     (i <= j)%nat ->
     history w0 (batchVisits visits w0) !! i = Some before ->
     history w0 (batchVisits visits w0) !! j = Some after ->
     advances before after) /\
  last (history w0 (batchVisits visits w0)) = Some (batchJobs (batchVisits visits w0)).
Proof.
  intros Hnd. by apply evolves_history, batchVisits_evolves.
Qed.

(** Two pending jobs and two visits: scripts and files in the first, upload
    and the whole chain in the second. *)
Lemma batch_loops_never_move_a_status_backward_witness :
  let pendingJob id :=
    mkBatchJob id "A story" pending 1000 1000 None None None None None None None None None in
  let w0 := mkWorld [pendingJob "job1"; pendingJob "job2"] ∅ 5000 [] in
  let click a := mkClick a exampleApp exampleCollab in
  let visits :=
    [[click GenerateAllScripts; click GenerateAllFiles];
     [click UploadAll; click AutoProcessAll]] in
  last (history w0 (@batchVisits examplePlatform exampleMp3Library reliable visits w0))
  = Some (batchJobs (@batchVisits examplePlatform exampleMp3Library reliable visits w0)).
Proof.
  intros pendingJob w0 click visits.
  assert (NoDup (map job_id (batchJobs w0))) as Hnd.
  { apply NoDup_cons. split; [|apply NoDup_singleton].
    intros Hin. apply list_elem_of_singleton in Hin. discriminate Hin. }
  exact (proj2 (@batch_loops_never_move_a_status_backward
                  examplePlatform exampleMp3Library reliable visits w0 Hnd)).
Defined.

(** C9, as stated, fails: the script step, invoked on a job that is already
    uploaded, stores it as script_ready. *)
Lemma script_generation_moves_an_uploaded_job_back :
  let job :=
    mkBatchJob "job1" "A story" uploaded 1000 2000 None None None None None
      (Some "v1") None (Some 1500%N) None in
  let w := mkWorld [job] ∅ 5000 [] in
  stored_status "job1" w = Some uploaded /\
  stored_status "job1" (snd (@handleGenerateScript reliable exampleApp exampleCollab job w))
    = Some script_ready /\
  ~ status_le uploaded script_ready.
Proof.
  intros job w. split; [reflexivity|]. split; [reflexivity|].
  intros [Herr|[_ Hrank]]; [discriminate Herr|]. simpl in Hrank. lia.
Qed.

(** ** Failures during file generation *)

(** C3 fails on this input: a script of one spoken line and one sound-effect
    cue, the synthesis of the cue being rejected.  The line's clip was made
    and stored, yet the step throws the synthesis error, the stored status
    stays [generating], and the batch loop then marks the job as [error]. *)
Lemma sfx_failure_aborts_file_generation :
  let job := scriptedJob "job1" [speechLine "line1" "Hello"; sfxCue "boom" "(fails)"] in
  let w := mkWorld [job] ∅ 5000 [] in
  let run :=
    @handleGenerateFiles examplePlatform exampleMp3Library reliable
      exampleApp exampleCollab job w in
  fst run = Err (Error "ElevenLabs SFX Error: Too Many Requests") /\
  audioFiles (snd run) !! "job1_item_line1" = Some (StoredBase64 "Hello") /\
  stored_status "job1" (snd run) = Some generating /\
  stored_status "job1"
    (snd (@handleGenerateAllFiles examplePlatform exampleMp3Library reliable
            exampleApp exampleCollab [job] w))
  = Some error.
Proof.
  intros job w run. split; [|split; [|split]]; vm_compute; reflexivity.
Qed.

(** The same failure on a spoken line is caught: of five lines whose third
    fails, four clips are merged in script order, the third item keeps no
    audio key, and the job is stored as [files_ready]. *)
Lemma speech_failure_is_skipped :
  let job :=
    scriptedJob "job1"
      [speechLine "i1" "a"; speechLine "i2" "bb"; speechLine "i3" "(fails)";
       speechLine "i4" "dddd"; speechLine "i5" "eeeee"] in
  let w := mkWorld [job] ∅ 5000 [] in
  let run :=
    @handleGenerateFiles examplePlatform exampleMp3Library reliable
      exampleApp exampleCollab job w in
  let clip n := mkAudioBuffer 24000 n [replicate n 0] in
  exists job' merged,
    fst run = Ok job' /\
    status job' = files_ready /\
    stored_status "job1" (snd run) = Some files_ready /\
    (map audioKey <$> (items <$> scriptData job'))
      = Some [Some "job1_item_i1"; Some "job1_item_i2"; None;
              Some "job1_item_i4"; Some "job1_item_i5"] /\
    @mergeAudioBuffers examplePlatform [clip 1%nat; clip 2%nat; clip 4%nat; clip 5%nat]
      = Ok merged /\
    audioFiles (snd run) !! "job1_mp3_6620"
      = Some (StoredBlob (@bufferToMp3 exampleMp3Library merged)).
Proof.
  intros job w run clip. eexists _, _.
  split; [vm_compute; reflexivity|].
  split; [reflexivity|]. split; [vm_compute; reflexivity|].
  split; [reflexivity|]. split; [vm_compute; reflexivity|].
  vm_compute. reflexivity.
Qed.

(** ** Empty inputs *)

(** C7, amended.  [mergeAudioBuffers] on no clip produces no buffer: it asks
    for an offline context of length 0, which the platform refuses with
    NotSupportedError.  [createDynamicWebmVideo] on no segment does not fail
    for the lack of segments: when the fallback image, if given, loads and
    the recorder is made and records without error, it records the 500 ms
    trailing hold alone and resolves with that video; when it rejects, it is
    with the [error] event of the fallback image, with what the recorder's
    constructor threw, or with what made the capture fail.  File generation
    never calls the merge with no clip: it throws "No audio generated"
    first. *)
Theorem empty_inputs `{Platform} `{Mp3Library} `{Persistence} :
  mergeAudioBuffers [] = Err (DOMException "NotSupportedError") /\
  (forall defaultCover options,
     captureEvents [] defaultCover options
       = [RecorderStart (fst (resolveResolution options))
            (snd (resolveResolution options)) (resolveBitrate options);
          Hold 500; RecorderStop] /\
     ((forall cover, defaultCover = Some cover -> imageLoads cover = true) ->
      records [] defaultCover options ->
      createDynamicWebmVideo [] defaultCover options
      = Ok (mkBlob "video/webm"
              (recorderData
                 [RecorderStart (fst (resolveResolution options))
                    (snd (resolveResolution options)) (resolveBitrate options);
                  Hold 500; RecorderStop]))) /\
     (forall e, createDynamicWebmVideo [] defaultCover options = Err e ->
        (exists cover, defaultCover = Some cover /\ imageLoads cover = false /\
                       e = ErrorEvent cover) \/
        mediaRecorderThrows (fst (resolveResolution options))
          (snd (resolveResolution options)) (resolveBitrate options) = Some e \/
        captureError (captureEvents [] defaultCover options) = Some e)) /\
  (forall app collab job sd w updatedItems w1,
     generateItems app collab job (cast sd) (items sd) [] w
       = (Ok ([], updatedItems), w1) ->
     generateFiles app collab job sd w = (Err (Error "No audio generated"), w1)).
Proof.
  split; [reflexivity|]. split.
  - intros defaultCover options.
    assert (captureEvents [] defaultCover options
            = [RecorderStart (fst (resolveResolution options))
                 (snd (resolveResolution options)) (resolveBitrate options);
               Hold 500; RecorderStop]) as Hevents.
    { unfold captureEvents. by destruct (resolveResolution options). }
    split; [exact Hevents|]. split.
    + intros Hload Hrec. rewrite createDynamicWebmVideo_resolves; [by rewrite Hevents| |done].
      intros x Hx. apply uniqueImages_elem in Hx as [_ [[_ Hc]|(segment & Hin & _)]].
      * by apply Hload.
      * by apply elem_of_nil in Hin.
    + intros e He.
      apply createDynamicWebmVideo_rejects in He as [(img & -> & Hin & Hfail)|He];
        [|by right].
      left. apply uniqueImages_elem in Hin as [_ [[_ Hc]|(segment & Hin & _)]].
      * by exists img.
      * by apply elem_of_nil in Hin.
  - intros app collab job sd w updatedItems w1 Hgen.
    unfold generateFiles. by rewrite (bind_Ok _ _ _ _ _ Hgen).
Qed.

(** No segment and a fallback image that loads. *)
Lemma empty_inputs_witness :
  @createDynamicWebmVideo examplePlatform [] (Some "Y292ZXI=") (mkWebmOptions None None)
  = Ok (mkBlob "video/webm"
          (@recorderData examplePlatform
             [RecorderStart 1920 1080 8000000; Hold 500; RecorderStop])).
Proof.
  assert (forall cover, Some "Y292ZXI="%string = Some cover ->
                        @imageLoads examplePlatform cover = true) as Hload
    by reflexivity.
  assert (@records examplePlatform [] (Some "Y292ZXI="%string) (mkWebmOptions None None))
    as Hrec by (split; reflexivity).
  exact (proj1 (proj2 (proj1 (proj2 (@empty_inputs examplePlatform exampleMp3Library reliable))
           (Some "Y292ZXI="%string) (mkWebmOptions None None))) Hload Hrec).
Defined.

(** ** Blob keys *)

Lemma file_key_inj jobId type t t' :
  file_key jobId type t = file_key jobId type t' -> t = t'.
Proof.
  unfold file_key. intros Heq.
  apply (String.app_inj jobId) in Heq. simpl in Heq. injection Heq as Heq.
  apply (String.app_inj type) in Heq. simpl in Heq. injection Heq as Heq.
  change ("" +:+ pretty t) with (pretty t) in Heq.
  change ("" +:+ pretty t') with (pretty t') in Heq.
  by apply (inj pretty) in Heq.
Qed.

Lemma file_key_mp3_webm jobId t t' : file_key jobId "mp3" t <> file_key jobId "webm" t'.
Proof.
  unfold file_key. intros Heq. apply (String.app_inj jobId) in Heq. discriminate Heq.
Qed.

Lemma file_key_not_cover jobId type t :
  type = "mp3"%string \/ type = "webm"%string ->
  file_key jobId type t <> jobId +:+ "_cover".
Proof.
  unfold file_key. intros [->| ->] Heq; apply (String.app_inj jobId) in Heq;
    discriminate Heq.
Qed.

Lemma file_key_not_item jobId type t itemId :
  type = "mp3"%string \/ type = "webm"%string ->
  file_key jobId type t <> generateItemAudioKey jobId itemId.
Proof.
  unfold file_key, generateItemAudioKey. intros [->| ->] Heq;
    apply (String.app_inj jobId) in Heq; discriminate Heq.
Qed.

(** ** Running file generation to its end *)

Section Regeneration.
Context `{Platform} `{Mp3Library} `{Persistence}.
Variable app : AppState.
Variable collab : Collaborators.

(** One turn of the item loop keeps the audio reference of the item or sets
    the per-item key, and every clip it adds is followed by the 300 ms pause. *)
Lemma generateItem_inv job cast item bufs w bufs' item' w1 :
  generateItem app collab job cast item bufs w = (Ok (bufs', item'), w1) ->
  item_audio (job_id job) item item' /\
  (bufs' = bufs \/ (now w + 300 <= now w1)%N).
Proof.
  unfold generateItem, generateSpeechItem, generateSfxItem, item_audio.
  unfold bind, try_catch, await, liftR, ret, sleep, saveItemAudioBase64.
  intros Hrun.
  repeat case_match; simplify_eq; simpl; split; auto; right; lia.
Qed.

Lemma generateItems_inv job cast items bufs w bufs' items' w1 :
  generateItems app collab job cast items bufs w = (Ok (bufs', items'), w1) ->
  Forall2 (item_audio (job_id job)) items items' /\
  (bufs' = bufs \/ (now w + 300 <= now w1)%N).
Proof.
  revert bufs w bufs' items' w1.
  induction items as [|item rest IH]; intros bufs w bufs' items' w1; simpl.
  - unfold ret. intros [= <- <- <-]. split; [constructor|by left].
  - intros Hrun.
    apply bind_inv in Hrun as ([bufs1 item1] & w2 & Hone & Hrun).
    apply bind_inv in Hrun as ([bufs2 items2] & w3 & Hmore & Hrun).
    unfold ret in Hrun. simpl in Hrun. simplify_eq.
    simpl in Hmore.
    pose proof (footprint_generateItem app collab (fun _ => True) job cast item bufs
                  (fun _ _ => I) w) as (_ & _ & Hclock1 & _).
    pose proof (footprint_generateItems app collab (fun _ => True) job cast rest bufs1
                  (fun _ _ => I) w2) as (_ & _ & Hclock2 & _).
    rewrite Hone in Hclock1. rewrite Hmore in Hclock2. simpl in Hclock1, Hclock2.
    apply generateItem_inv in Hone as [Hitem Hone].
    apply IH in Hmore as [Hrest Hmore].
    split; [by constructor|].
    destruct Hone as [->|Hone]; [|right; lia].
    destruct Hmore as [->|Hmore]; [by left|right; lia].
Qed.


(** ** What a returning file generation did *)

Lemma file_key_nonempty jobId type t : String.eqb (file_key jobId type t) "" = false.
Proof. apply String.eqb_neq. unfold file_key. by destruct jobId. Qed.

Lemma generateAudioKey_run jobId type w :
  generateAudioKey jobId type w = (Ok (file_key jobId type (now w)), w).
Proof. done. Qed.

Lemma generateFiles_inv job sd w job' w' :
  generateFiles app collab job sd w = (Ok job', w') ->
  exists t webm cover items',
    (now w + 300 <= t)%N /\
    files job' = Some (mkBatchJobFiles (Some (file_key (job_id job) "mp3" t)) webm cover) /\
    scriptData job' = Some (mkBatchJobScriptData (cast sd) items' (podcastInfo sd)) /\
    Forall2 (item_audio (job_id job)) (items sd) items' /\
    job_id job' = job_id job /\
    (exists blob, audioFiles w' !! file_key (job_id job) "mp3" t = Some (StoredBlob blob)) /\
    match webm with
    | Some key =>
        exists t', (now w + 300 <= t')%N /\ key = file_key (job_id job) "webm" t' /\
          exists blob, audioFiles w' !! key = Some (StoredBlob blob)
    | None => True
    end /\
    (cover = None \/ cover = Some (job_id job +:+ "_cover")) /\
    forall key,
      ~ item_key (job_id job) key -> key <> job_id job +:+ "_cover" ->
      (forall type t', type = "mp3"%string \/ type = "webm"%string ->
         (now w + 300 <= t')%N -> key <> file_key (job_id job) type t') ->
      audioFiles w' !! key = audioFiles w !! key.
Proof.
  unfold generateFiles. intros Hrun.
  apply bind_inv in Hrun as ([bufs items'] & w1 & Hitems & Hrun). simpl in Hrun.
  pose proof (footprint_generateItems app collab (item_key (job_id job)) job (cast sd)
                (items sd) [] (fun _ Hk => Hk) w) as (_ & _ & _ & Hframe).
  rewrite Hitems in Hframe. simpl in Hframe.
  apply generateItems_inv in Hitems as [Hitems Hclock].
  destruct bufs as [|buffer bufs]; [discriminate Hrun|].
  destruct Hclock as [[=]|Hclock].
  apply bind_inv in Hrun as (merged & w2 & Hmerged & Hrun).
  unfold liftR in Hmerged. injection Hmerged as Hmerged <-.
  apply bind_inv in Hrun as (coverBase64 & w2 & Hcover & Hrun).
  pose proof (footprint_generateCover app collab (fun _ => False) job (podcastInfo sd)
    (default "Podcast"
       (or_else (info_podcastName <$> podcastInfo sd) (or_else (podcastTitle job) None)))
    w1) as (_ & _ & Hclock2 & Hframe2).
  rewrite Hcover in Hclock2, Hframe2. simpl in Hclock2, Hframe2. clear Hcover.
  apply bind_inv in Hrun as (webmBlob & w3 & Hwebm & Hrun).
  assert (w3 = w2) as ->.
  { destruct (truthy coverBase64); [|by injection Hwebm].
    unfold bind, liftR, ret in Hwebm. by repeat case_match; simplify_eq. }
  clear Hwebm.
  rewrite (bind_Ok _ _ _ _ _ (generateAudioKey_run _ _ _)) in Hrun.
  assert (forall type t, type = "mp3"%string \/ type = "webm"%string ->
            job_id job +:+ "_cover" <> file_key (job_id job) type t) as Hcover
    by (intros type t Htype Heq; by apply (file_key_not_cover (job_id job) type t)).
  assert (forall t t', file_key (job_id job) "webm" t <> file_key (job_id job) "mp3" t')
    as Hwebm by (intros t t' Heq; by apply (file_key_mp3_webm (job_id job) t' t)).
  assert (forall key, ~ item_key (job_id job) key -> audioFiles w2 !! key = audioFiles w !! key)
    as Hstore by (intros key Hkey; by rewrite Hframe2, Hframe by auto).
  clear Hframe Hframe2.
  unfold bind in Hrun.
  destruct webmBlob as [webm|]; rewrite ?generateAudioKey_run in Hrun;
    unfold ret, saveAudioBlob, saveItemAudioBase64 in Hrun;
    rewrite ?file_key_nonempty in Hrun;
    repeat case_match; simplify_eq; simpl in *.
  all: eexists (now w2), _, _, items'; split_and!; try done; try lia; auto.
  all: try (eexists; rewrite ?lookup_insert_ne by auto; by apply lookup_insert_eq).
  all: try (eexists; split_and!; [|done|]; [lia|];
            eexists; rewrite ?lookup_insert_ne by auto; by apply lookup_insert_eq).
  all: intros key Hitem Hcov Hfile;
    rewrite ?lookup_insert_ne
      by (auto || (intros Heq; symmetry in Heq; revert Heq; apply Hfile; [auto|lia]));
    by apply Hstore.
Qed.


(** ** Generating the files again *)

Lemma file_key_fresh jobId type type' t t' :
  type = "mp3"%string \/ type = "webm"%string ->
  type' = "mp3"%string \/ type' = "webm"%string ->
  (t < t')%N -> file_key jobId type' t' <> file_key jobId type t.
Proof.
  intros [->| ->] [->| ->] Hlt Heq.
  - apply file_key_inj in Heq. lia.
  - symmetry in Heq. by apply file_key_mp3_webm in Heq.
  - by apply file_key_mp3_webm in Heq.
  - apply file_key_inj in Heq. lia.
Qed.

Lemma regenerated_job_unreferences job sd t_old type job' t webm cover items' :
  type = "mp3"%string \/ type = "webm"%string ->
  (t_old < t)%N ->
  (forall item, item ∈ items sd -> audioKey item <> Some (file_key (job_id job) type t_old)) ->
  files job' = Some (mkBatchJobFiles (Some (file_key (job_id job) "mp3" t)) webm cover) ->
  scriptData job' = Some (mkBatchJobScriptData (cast sd) items' (podcastInfo sd)) ->
  Forall2 (item_audio (job_id job)) (items sd) items' ->
  match webm with
  | Some key => exists t', (t_old < t')%N /\ key = file_key (job_id job) "webm" t'
  | None => True
  end ->
  (cover = None \/ cover = Some (job_id job +:+ "_cover")) ->
  ~ references job' (file_key (job_id job) type t_old).
Proof.
  intros Htype Hlt Hold Hfiles Hsd Hitems Hwebm Hcover.
  rewrite keysToDelete_spec, Hfiles, Hsd. simpl.
  intros (_ & [Hk|[Hk|[Hk|(sd' & item' & Hsd' & Hin & Hk)]]]).
  - injection Hk as Hk. revert Hk. by apply file_key_fresh; [|left|].
  - subst webm. destruct Hwebm as (t' & Hlt' & Hk). symmetry in Hk. revert Hk.
    by apply file_key_fresh; [|right|].
  - destruct Hcover as [->| ->]; [done|]. injection Hk as Hk. symmetry in Hk.
    by apply file_key_not_cover in Hk.
  - injection Hsd' as <-. simpl in Hin.
    apply list_elem_of_lookup in Hin as [i Hi].
    destruct (Forall2_lookup_r _ _ _ _ _ Hitems Hi) as (item & Hitem & [Haudio|Haudio]).
    + apply (Hold item); [by eapply list_elem_of_lookup_2|]. by rewrite <- Haudio.
    + rewrite Hk in Haudio. injection Haudio as Haudio.
      by apply file_key_not_item in Haudio.
Qed.

(** C10.  [handleGenerateFiles] returns on a job that the store holds under
    a unique id and accepts writes for.  Then the mp3 artifact, and the webm
    artifact if one was made, are stored under keys made from a time later
    than that of any key [generateAudioKey] made for the job before the step,
    and the stored job names these keys in [files].  A blob stored under such
    an earlier mp3 or webm key is still stored, unchanged, and no job of the
    store references its key any more, provided no other job and no script
    item of the job referenced it. *)
Theorem regeneration_orphans_the_old_files
  (job job0 job' : BatchJob) (p : nat) (w w' : World)
  (type : string) (t_old : N) (old : Stored) :
  let k_old := file_key (job_id job) type t_old in
  (forall jobs, setItemThrows jobs = false) ->
  NoDup (map job_id (batchJobs w)) ->
  batchJobs w !! p = Some job0 -> job_id job0 = job_id job ->
  type = "mp3"%string \/ type = "webm"%string ->
  (t_old <= now w)%N ->
  audioFiles w !! k_old = Some old ->
  (forall q other, batchJobs w !! q = Some other -> q <> p -> ~ references other k_old) ->
  (forall sd item, scriptData job = Some sd -> item ∈ items sd -> audioKey item <> Some k_old) ->
  handleGenerateFiles app collab job w = (Ok job', w') ->
  exists t webm cover job1,
    (t_old < t)%N /\
    files job' = Some (mkBatchJobFiles (Some (file_key (job_id job) "mp3" t)) webm cover) /\
    (exists blob, audioFiles w' !! file_key (job_id job) "mp3" t = Some (StoredBlob blob)) /\
    match webm with
    | Some key =>
        exists t', (t_old < t')%N /\ key = file_key (job_id job) "webm" t' /\
          exists blob, audioFiles w' !! key = Some (StoredBlob blob)
    | None => True
    end /\
    batchJobs w' !! p = Some job1 /\ files job1 = files job' /\
    audioFiles w' !! k_old = Some old /\
    unreferenced w' k_old.
Proof.
  intros k_old Hset Hnd Hp Hid Htype Hold_t Hold Hothers Hitems Hrun.
  unfold handleGenerateFiles in Hrun.
  destruct (scriptData job) as [sd|] eqn:Hsd; [|discriminate Hrun].
  apply bind_inv in Hrun as (jobs1 & wa & Hup1 & Hrun).
  rewrite (updateBatchJob_at _ _ _ p job0 Hnd Hp Hid), Hset in Hup1.
  injection Hup1 as _ <-.
  apply bind_inv in Hrun as (updatedJob & wb & Hgen & Hrun).
  pose proof (footprint_generateFiles app collab job sd
    (mkWorld (<[p := spread job0 (status_update generating) (now w)]> (batchJobs w))
       (audioFiles w) (now w)
       (written w ++ [<[p := spread job0 (status_update generating) (now w)]> (batchJobs w)])))
    as (Hjobs & _).
  rewrite Hgen in Hjobs. simpl in Hjobs.
  apply generateFiles_inv in Hgen
    as (t & webm & cover & items' & Ht & Hfiles & Hsd' & Hit & Hid' & Hmp3 & Hwebm & Hcover
        & Hframe).
  simpl in Ht, Hframe.
  apply bind_inv in Hrun as (jobs2 & wc & Hup2 & Hrun).
  unfold ret in Hrun. injection Hrun as <- <-.
  assert (job_id (spread job0 (status_update generating) (now w)) = job_id job) as Hid1
    by (apply spread_id; [done|by left]).
  rewrite (updateBatchJob_at _ _ _ p (spread job0 (status_update generating) (now w))), Hset
    in Hup2; [ | | |done].
  2: { rewrite Hjobs. by rewrite (insert_ids _ _ job0) by (done || congruence). }
  2: { rewrite Hjobs. apply list_lookup_insert_eq. by eapply lookup_lt_Some. }
  injection Hup2 as _ <-. simpl.
  set (job1 := spread _ (as_updates updatedJob) (now wb)).
  assert (files job1 = files updatedJob /\ scriptData job1 = scriptData updatedJob)
    as [Hfiles1 Hsd1] by (unfold job1, spread; simpl; by rewrite Hfiles, Hsd').
  exists t, webm, cover, job1. split_and!.
  - lia.
  - done.
  - done.
  - destruct webm as [key|]; [|done]. destruct Hwebm as (t' & Ht' & Hkey & Hblob).
    simpl in Ht'. exists t'. split_and!; [lia|done..].
  - apply list_lookup_insert_eq. rewrite Hjobs, length_insert. by eapply lookup_lt_Some.
  - done.
  - rewrite Hframe; [done|..].
    + intros [itemId Hk]. by apply file_key_not_item in Hk.
    + by apply file_key_not_cover.
    + intros type' t' Htype' Ht'. apply not_eq_sym, file_key_fresh; [done..|lia].
  - intros other [q Hq]%list_elem_of_lookup. simpl in Hq.
    destruct (decide (q = p)) as [->|Hne].
    + rewrite list_lookup_insert_eq in Hq
        by (rewrite Hjobs, length_insert; by eapply lookup_lt_Some).
      injection Hq as <-.
      eapply (regenerated_job_unreferences job sd t_old type job1 t webm cover items');
        [done|lia|by intros item Hin; apply (Hitems sd item)|congruence|congruence|done| |done].
      destruct webm as [key|]; [|done]. destruct Hwebm as (t' & Ht' & Hkey & _).
      simpl in Ht'. exists t'. split; [lia|done].
    + rewrite list_lookup_insert_ne, Hjobs, list_lookup_insert_ne in Hq by done.
      by eapply Hothers.
Qed.
End Regeneration.

(** The example job, whose files were generated at time 1500, at time 3000. *)
Lemma regeneration_orphans_the_old_files_witness :
  let run :=
    @handleGenerateFiles examplePlatform exampleMp3Library reliable
      exampleApp exampleCollab exampleJob exampleWorld in
  let k_old := file_key "job1" "mp3" 1500 in
  audioFiles (snd run) !! k_old = Some (StoredBlob (mkBlob "audio/mp3" [1%Z])) /\
  unreferenced (snd run) k_old.
Proof.
  intros run k_old.
  assert (run = (Ok (match fst run with Ok job' => job' | Err _ => exampleJob end), snd run))
    as Hrun by (vm_compute; reflexivity).
  assert (NoDup (map job_id (batchJobs exampleWorld))) as Hnd by apply NoDup_singleton.
  assert (audioFiles exampleWorld !! k_old = Some (StoredBlob (mkBlob "audio/mp3" [1%Z])))
    as Hold by (vm_compute; reflexivity).
  assert (forall q other, batchJobs exampleWorld !! q = Some other -> q <> 0%nat ->
                          ~ references other k_old) as Hothers.
  { intros [|q] other Hq Hne; [done|]. simpl in Hq. discriminate Hq. }
  assert (forall sd item, scriptData exampleJob = Some sd -> item ∈ items sd ->
                          audioKey item <> Some k_old) as Hitems.
  { intros sd item [= <-] Hin. simpl in Hin. apply list_elem_of_singleton in Hin as ->.
    intros Heq. vm_compute in Heq. discriminate Heq. }
  destruct (@regeneration_orphans_the_old_files examplePlatform exampleMp3Library reliable
              exampleApp exampleCollab exampleJob exampleJob _ 0%nat exampleWorld _
              "mp3" 1500%N _ (fun _ => eq_refl) Hnd eq_refl eq_refl (or_introl eq_refl)
              ltac:(simpl; lia) Hold Hothers Hitems Hrun)
    as (t & webm & cover & job1 & _ & _ & _ & _ & _ & _ & Hkept & Hunref).
  by split.
Defined.

(** The cover key is not made from the time: the regenerated cover replaces
    the blob under the key the job named before, and the job names it still. *)
Lemma regeneration_reuses_the_cover_key :
  let run :=
    @handleGenerateFiles examplePlatform exampleMp3Library reliable
      exampleApp exampleCollab exampleJob exampleWorld in
  files exampleJob ≫= coverKey = Some "job1_cover"%string /\
  ((getBatchJob "job1" (snd run) ≫= files) ≫= coverKey) = Some "job1_cover"%string /\
  ((getBatchJob "job1" (snd run) ≫= files) ≫= mp3Key) = Some "job1_mp3_3340"%string /\
  ((getBatchJob "job1" (snd run) ≫= files) ≫= webmKey) = Some "job1_webm_3340"%string.
Proof. intros run. split_and!; vm_compute; reflexivity. Qed.

End WorkflowFacts.

(** * Laws of the job store and the blob store *)

Module StorageLaws.
Import Audio Storage Workflow Notions MoreNotions StorageFacts WorkflowFacts.

Lemma getBatchJob_None id w :
  getBatchJob id w = None <-> forall j, j ∈ batchJobs w -> job_id j <> id.
Proof.
  unfold getBatchJob, loadBatchJobs. rewrite fmap_None, list_find_None, Forall_forall.
  done.
Qed.

Lemma getBatchJob_Some id w job :
  getBatchJob id w = Some job <->
  exists p, batchJobs w !! p = Some job /\ job_id job = id /\
            forall q j, batchJobs w !! q = Some j -> (q < p)%nat -> job_id j <> id.
Proof.
  unfold getBatchJob, loadBatchJobs. rewrite fmap_Some. split.
  - intros ([p j] & Hfind & ->). apply list_find_Some in Hfind as (Hp & Hid & Hbefore).
    exists p. split_and!; [done..|]. intros q j' Hq Hlt. by eapply Hbefore.
  - intros (p & Hp & Hid & Hbefore). exists (p, job). split; [|done].
    apply list_find_Some. split_and!; [done..|]. intros q j' Hq Hlt. by eapply Hbefore.
Qed.

Section Laws.
Context `{Persistence}.

(** X1.  [updateBatchJob] on an id the store does not hold changes nothing
    and returns the stored list.  On an id it holds, with updates that keep
    the id and a write that succeeds, [getBatchJob] then returns the first
    job of that id merged with the updates and stamped with the current
    time, every other id reads as before, the ids of the list are the same,
    and no blob is touched. *)
Theorem updateBatchJob_then_getBatchJob (id : string) (updates : BatchJobUpdates) (w : World) :
  (getBatchJob id w = None -> updateBatchJob id updates w = (Ok (batchJobs w), w)) /\
  (forall job0,
     getBatchJob id w = Some job0 ->
     (u_id updates = None \/ u_id updates = Some id) ->
     (forall jobs, setItemThrows jobs = false) ->
     let w' := snd (updateBatchJob id updates w) in
     fst (updateBatchJob id updates w) = Ok (batchJobs w') /\
     getBatchJob id w' = Some (spread job0 updates (now w)) /\
     (forall id', id' <> id -> getBatchJob id' w' = getBatchJob id' w) /\
     map job_id (batchJobs w') = map job_id (batchJobs w) /\
     audioFiles w' = audioFiles w).
Proof.
  split.
  - intros Hnone. unfold updateBatchJob, bind, inspect.
    unfold getBatchJob in Hnone. apply fmap_None in Hnone. by rewrite Hnone.
  - intros job0 Hsome Hid Hset w'.
    unfold getBatchJob, loadBatchJobs in Hsome. apply fmap_Some in Hsome as ([p j] & Hfind & ->).
    simpl in *.
    assert (updateBatchJob id updates w
            = (Ok (<[p := spread j updates (now w)]> (batchJobs w)),
               mkWorld (<[p := spread j updates (now w)]> (batchJobs w)) (audioFiles w)
                 (now w) (written w ++ [<[p := spread j updates (now w)]> (batchJobs w)])))
      as Hrun.
    { unfold updateBatchJob, bind, inspect, loadBatchJobs, Date_now, saveBatchJobs, ret.
      rewrite Hfind. by rewrite Hset. }
    subst w'. rewrite Hrun. simpl.
    apply list_find_Some in Hfind as (Hp & Hj & Hbefore).
    assert (job_id (spread j updates (now w)) = id) as Hid' by by apply spread_id.
    split_and!; [done| | | |done].
    + unfold getBatchJob, loadBatchJobs. simpl. apply fmap_Some. eexists (p, _).
      split; [|done]. apply list_find_Some. split_and!.
      * apply list_lookup_insert_eq. by eapply lookup_lt_Some.
      * done.
      * intros q j' Hq Hlt. rewrite list_lookup_insert_ne in Hq by lia. by eapply Hbefore.
    + intros id' Hne. unfold getBatchJob, loadBatchJobs. simpl. f_equal.
      destruct (list_find (λ j0, job_id j0 = id') (batchJobs w)) as [[q j']|] eqn:Hq.
      * apply list_find_Some in Hq as (Hq & Hj' & Hbefore').
        apply list_find_Some. split_and!; [|done|].
        -- rewrite list_lookup_insert_ne; [done|]. intros Heq. subst q.
           rewrite Hp in Hq. injection Hq as <-. congruence.
        -- intros r j'' Hr Hlt. destruct (decide (r = p)) as [->|Hrp].
           ++ rewrite list_lookup_insert_eq in Hr by by eapply lookup_lt_Some.
              injection Hr as <-. congruence.
           ++ rewrite list_lookup_insert_ne in Hr by done. by eapply Hbefore'.
      * apply list_find_None. rewrite list_find_None in Hq.
        apply Forall_forall. intros j' [r Hr]%list_elem_of_lookup.
        destruct (decide (r = p)) as [->|Hrp].
        -- rewrite list_lookup_insert_eq in Hr by by eapply lookup_lt_Some.
           injection Hr as <-. congruence.
        -- rewrite list_lookup_insert_ne in Hr by done.
           rewrite Forall_forall in Hq. apply Hq. by eapply list_elem_of_lookup_2.
    + by apply (insert_ids _ _ j); [|congruence].
Qed.

(** X2.  [addBatchJob] appends.  When the write succeeds, [getBatchJob] on
    the id of the new job returns the new job if the id was free and the
    job that already had the id otherwise; every other id reads as before. *)
Theorem addBatchJob_then_getBatchJob (job : BatchJob) (w : World) :
  (forall jobs, setItemThrows jobs = false) ->
  let w' := snd (addBatchJob job w) in
  fst (addBatchJob job w) = Ok (batchJobs w ++ [job]) /\
  batchJobs w' = batchJobs w ++ [job] /\
  getBatchJob (job_id job) w' = Some (default job (getBatchJob (job_id job) w)) /\
  (forall id, id <> job_id job -> getBatchJob id w' = getBatchJob id w) /\
  audioFiles w' = audioFiles w.
Proof.
  intros Hset w'. subst w'.
  unfold addBatchJob, bind, inspect, loadBatchJobs, saveBatchJobs, ret. rewrite Hset. simpl.
  split_and!; [done..| | |done].
  - unfold getBatchJob, loadBatchJobs. simpl.
    destruct (list_find (λ j, job_id j = job_id job) (batchJobs w)) as [[p j]|] eqn:Hfind.
    + by rewrite (list_find_app_l _ _ _ _ _ Hfind).
    + rewrite list_find_app_r by done. simpl.
      by rewrite decide_True by done.
  - intros id Hne. unfold getBatchJob, loadBatchJobs. simpl.
    destruct (list_find (λ j, job_id j = id) (batchJobs w)) as [[p j]|] eqn:Hfind.
    + by rewrite (list_find_app_l _ _ _ _ _ Hfind).
    + rewrite list_find_app_r by done. simpl.
      by rewrite decide_False by done.
Qed.

(** X3.  When [localStorage.setItem] throws, the exception is swallowed:
    [updateBatchJob], [addBatchJob] and [deleteBatchJob] return the changed
    list to their caller, and the stored list stays as it was. *)
Theorem failed_write_is_not_reported (job : BatchJob) (id : string)
  (updates : BatchJobUpdates) (w : World) (job0 : BatchJob) :
  (forall jobs, setItemThrows jobs = true) ->
  getBatchJob id w = Some job0 ->
  (exists p,
     fst (updateBatchJob id updates w)
       = Ok (<[p := spread job0 updates (now w)]> (batchJobs w)) /\
     batchJobs w !! p = Some job0) /\
  snd (updateBatchJob id updates w) = w /\
  fst (addBatchJob job w) = Ok (batchJobs w ++ [job]) /\
  snd (addBatchJob job w) = w /\
  fst (deleteBatchJob id w) = Ok (filter (fun j => job_id j <> id) (batchJobs w)) /\
  batchJobs (snd (deleteBatchJob id w)) = batchJobs w.
Proof.
  intros Hset Hsome.
  pose proof Hsome as Hfind.
  unfold getBatchJob, loadBatchJobs in Hfind. apply fmap_Some in Hfind as ([p j] & Hfind & ->).
  simpl in *.
  assert (updateBatchJob id updates w
          = (Ok (<[p := spread j updates (now w)]> (batchJobs w)), w)) as ->.
  { unfold updateBatchJob, bind, inspect, loadBatchJobs, Date_now, saveBatchJobs, ret.
    rewrite Hfind. by rewrite Hset. }
  assert (addBatchJob job w = (Ok (batchJobs w ++ [job]), w)) as ->.
  { unfold addBatchJob, bind, inspect, loadBatchJobs, saveBatchJobs, ret. by rewrite Hset. }
  destruct (deleteKeys_run (keysToDelete j) w) as (w1 & Hkeys & Hjobs & _).
  assert (deleteBatchJob id w
          = (Ok (filter (fun j => job_id j <> id) (batchJobs w)), w1)) as ->.
  { unfold deleteBatchJob.
    rewrite (bind_Ok _ _ w (Some j) w) by (unfold inspect; by rewrite Hsome).
    unfold deleteJobAudioFiles. rewrite (bind_Ok _ _ w tt w1) by exact Hkeys.
    rewrite (bind_Ok _ _ w1 (batchJobs w) w1)
      by (unfold inspect, loadBatchJobs; by rewrite Hjobs).
    unfold bind, saveBatchJobs, ret. by rewrite Hset. }
  simpl. split_and!; try done.
  exists p. split; [done|]. by apply list_find_Some in Hfind as (Hp & _).
Qed.

(** X4.  What is put under a key is what [loadAudioBlob] reads back, except
    that an empty base64 string reads back as [null]; after a delete the key
    reads [null]; other keys are not affected. *)
Theorem blob_store_round_trip (key : string) (blob : Blob) (base64 : string) (w : World) :
  putFails key = false -> deleteFails key = false ->
  loadAudioBlob key (snd (saveAudioBlob key blob w)) = Some (StoredBlob blob) /\
  loadAudioBlob key (snd (saveItemAudioBase64 key base64 w))
    = (if String.eqb base64 "" then None else Some (StoredBase64 base64)) /\
  loadAudioBlob key (snd (deleteAudioBlob key w)) = None /\
  (forall key', key' <> key ->
     loadAudioBlob key' (snd (saveAudioBlob key blob w)) = loadAudioBlob key' w /\
     loadAudioBlob key' (snd (saveItemAudioBase64 key base64 w)) = loadAudioBlob key' w /\
     loadAudioBlob key' (snd (deleteAudioBlob key w)) = loadAudioBlob key' w).
Proof.
  intros Hput Hdel.
  unfold loadAudioBlob, saveAudioBlob, saveItemAudioBase64, deleteAudioBlob.
  rewrite Hput, Hdel. simpl. split_and!.
  - by rewrite lookup_insert_eq.
  - rewrite lookup_insert_eq. by destruct base64.
  - by rewrite lookup_delete_eq.
  - intros key' Hne. by rewrite !lookup_insert_ne, lookup_delete_ne by done.
Qed.

End Laws.

(** A second job added to the example world. *)
Lemma addBatchJob_then_getBatchJob_witness :
  @getBatchJob "job2" (snd (@addBatchJob reliable (scriptedJob "job2" []) exampleWorld))
  = Some (scriptedJob "job2" []).
Proof.
  exact (proj1 (proj2 (proj2
    (@addBatchJob_then_getBatchJob reliable (scriptedJob "job2" []) exampleWorld
       (fun _ => eq_refl))))).
Defined.

(** The example job is updated, a job is added and the example job deleted
    while the store is full. *)
Lemma failed_write_is_not_reported_witness :
  snd (@updateBatchJob fullStore "job1" (status_update uploading) exampleWorld) = exampleWorld /\
  snd (@addBatchJob fullStore (scriptedJob "job2" []) exampleWorld) = exampleWorld /\
  fst (@deleteBatchJob fullStore "job1" exampleWorld) = Ok [].
Proof.
  destruct (@failed_write_is_not_reported fullStore (scriptedJob "job2" []) "job1"
              (status_update uploading) exampleWorld exampleJob
              (fun _ => eq_refl) eq_refl)
    as (_ & Hupdate & _ & Hadd & Hdelete & _).
  split; [exact Hupdate|]. split; [exact Hadd|exact Hdelete].
Defined.

(** A blob and an empty string under a fresh key of the example world. *)
Lemma blob_store_round_trip_witness :
  loadAudioBlob "k" (snd (@saveAudioBlob reliable "k" (mkBlob "audio/mp3" [1%Z]) exampleWorld))
  = Some (StoredBlob (mkBlob "audio/mp3" [1%Z])) /\
  loadAudioBlob "k" (snd (@saveItemAudioBase64 reliable "k" "" exampleWorld)) = None.
Proof.
  destruct (@blob_store_round_trip reliable "k" (mkBlob "audio/mp3" [1%Z]) "" exampleWorld
              eq_refl eq_refl) as (Hblob & Hbase64 & _).
  split; [exact Hblob|exact Hbase64].
Defined.

(** X5.  [deleteBatchJob] on an id the store does not hold deletes no blob
    and leaves the job list as it was. *)
Theorem deleteBatchJob_unknown_id `{Persistence} (id : string) (w : World) :
  getBatchJob id w = None ->
  fst (deleteBatchJob id w) = Ok (batchJobs w) /\
  batchJobs (snd (deleteBatchJob id w)) = batchJobs w /\
  audioFiles (snd (deleteBatchJob id w)) = audioFiles w.
Proof.
  intros Hnone.
  assert (filter (fun j => job_id j <> id) (batchJobs w) = batchJobs w) as Hfilter.
  { pose proof (proj1 (getBatchJob_None id w) Hnone) as Hall. clear Hnone.
    rename Hall into Hnone. induction (batchJobs w) as [|j l IH]; [done|].
    rewrite filter_cons_True by (apply Hnone; apply list_elem_of_here).
    f_equal. apply IH. intros j' Hj'. apply Hnone. by apply list_elem_of_further. }
  unfold deleteBatchJob, bind, inspect, loadBatchJobs, saveBatchJobs, ret.
  rewrite Hnone. simpl. rewrite Hfilter. by destruct (setItemThrows _).
Qed.


(** No job "job9" in the example world. *)
Lemma deleteBatchJob_unknown_id_witness :
  batchJobs (snd (@deleteBatchJob reliable "job9" exampleWorld)) = [exampleJob] /\
  audioFiles (snd (@deleteBatchJob reliable "job9" exampleWorld)) = audioFiles exampleWorld.
Proof.
  exact (proj2 (@deleteBatchJob_unknown_id reliable "job9" exampleWorld eq_refl)).
Defined.

(** ** Keys *)

Lemma string_app_assoc (s1 s2 s3 : string) : (s1 +:+ s2) +:+ s3 = s1 +:+ (s2 +:+ s3).
Proof.
  induction s1 as [|c s1 IH]; [done|].
  change (String c ((s1 +:+ s2) +:+ s3) = String c (s1 +:+ (s2 +:+ s3))). by rewrite IH.
Qed.

Lemma generateItemAudioKey_inj jobId itemId itemId' :
  generateItemAudioKey jobId itemId = generateItemAudioKey jobId itemId' -> itemId = itemId'.
Proof.
  unfold generateItemAudioKey. intros Heq.
  apply (String.app_inj jobId) in Heq. by simplify_eq/=.
Qed.

(** X6.  The keys made for one job never coincide: the per-item key is
    injective in the item id, an mp3 or webm key determines its type and
    time, and item keys, file keys and the cover key are pairwise distinct.
    Across jobs nothing is guaranteed: ids that contain "_item_" give the
    same key for different jobs. *)
Theorem keys_of_one_job_are_distinct (jobId itemId itemId' type type' : string) (t t' : N) :
  (type = "mp3" \/ type = "webm")%string -> (type' = "mp3" \/ type' = "webm")%string ->
  (generateItemAudioKey jobId itemId = generateItemAudioKey jobId itemId' ->
     itemId = itemId') /\
  (file_key jobId type t = file_key jobId type' t' -> type = type' /\ t = t') /\
  file_key jobId type t <> generateItemAudioKey jobId itemId /\
  file_key jobId type t <> jobId +:+ "_cover" /\
  generateItemAudioKey jobId itemId <> jobId +:+ "_cover" /\
  generateItemAudioKey jobId (itemId +:+ "_item_" +:+ itemId')
    = generateItemAudioKey (jobId +:+ "_item_" +:+ itemId) itemId'.
Proof.
  intros Htype Htype'. split_and!.
  - apply generateItemAudioKey_inj.
  - intros Heq. destruct Htype as [->| ->], Htype' as [->| ->].
    + split; [done|]. by eapply file_key_inj.
    + by apply file_key_mp3_webm in Heq.
    + symmetry in Heq. by apply file_key_mp3_webm in Heq.
    + split; [done|]. by eapply file_key_inj.
  - by apply file_key_not_item.
  - by apply file_key_not_cover.
  - unfold generateItemAudioKey. intros Heq. apply (String.app_inj jobId) in Heq.
    discriminate Heq.
  - unfold generateItemAudioKey. by rewrite !string_app_assoc.
Qed.


(** The mp3 and webm keys of the example job. *)
Lemma keys_of_one_job_are_distinct_witness :
  file_key "job1" "mp3" 1500 <> generateItemAudioKey "job1" "line1" /\
  file_key "job1" "mp3" 1500 <> "job1_cover"%string.
Proof.
  destruct (keys_of_one_job_are_distinct "job1" "line1" "line1" "mp3" "webm" 1500 1500
              (or_introl eq_refl) (or_intror eq_refl))
    as (_ & _ & Hitem & Hcover & _).
  split; [exact Hitem|exact Hcover].
Defined.

End StorageLaws.

(** * Edges of the workflow steps *)

Module WorkflowEdges.
Import Audio Storage Workflow Notions MoreNotions AudioFacts StorageFacts WorkflowFacts.

Lemma returns_bind_post {A B} (m : M A) (k : A -> M B) (P : A -> Prop) (Q : B -> Prop) :
  returns m P -> (forall a, P a -> returns (k a) Q) -> returns (bind m k) Q.
Proof.
  intros Hm Hk w b w' Hr. apply bind_inv in Hr as (a & w1 & Hr1 & Hr).
  eapply Hk; [|exact Hr]. by eapply Hm.
Qed.

Lemma stores_under_pure {A} K (m : M A) :
  (forall w, audioFiles (snd (m w)) = audioFiles w) -> stores_under K m.
Proof. intros Hm w key. by rewrite Hm. Qed.

Lemma stores_under_bind {A B} K (m : M A) (k : A -> M B) (P : A -> Prop) :
  stores_under K m -> returns m P -> (forall a, P a -> stores_under K (k a)) ->
  stores_under K (bind m k).
Proof.
  intros Hm HP Hk w key. unfold bind. specialize (Hm w key). specialize (HP w).
  destruct (m w) as [[a|e] w1]; simpl in *; [|done].
  destruct (Hk a (HP a w1 eq_refl) w1 key) as [Hframe Hkeep].
  destruct Hm as [Hframe1 Hkeep1]. split.
  - intros HK. by rewrite Hframe, Hframe1.
  - intros Hsome. by apply Hkeep, Hkeep1.
Qed.

Lemma stores_under_try_catch {A} K (body : M A) (handler : Exception -> M A) :
  stores_under K body -> (forall e, stores_under K (handler e)) ->
  stores_under K (try_catch body handler).
Proof.
  intros Hm Hk w key. unfold try_catch. specialize (Hm w key).
  destruct (body w) as [[a|e] w1]; simpl in *; [done|].
  destruct (Hk e w1 key) as [Hframe Hkeep]. destruct Hm as [Hframe1 Hkeep1]. split.
  - intros HK. by rewrite Hframe, Hframe1.
  - intros Hsome. by apply Hkeep, Hkeep1.
Qed.

Section WithPersistence.
Context `{Platform} `{Mp3Library} `{Persistence}.

Lemma stores_under_saveAudioBlob (K : string -> Prop) key blob :
  K key -> stores_under K (saveAudioBlob key blob).
Proof.
  intros HK w k. unfold saveAudioBlob. destruct (putFails key); simpl; [done|]. split.
  - intros Hk. apply lookup_insert_ne. by intros ->.
  - intros Hsome. destruct (decide (key = k)) as [->|Hne].
    + by rewrite lookup_insert_eq.
    + by rewrite lookup_insert_ne.
Qed.

Lemma stores_under_saveItemAudioBase64 (K : string -> Prop) key base64 :
  K key -> stores_under K (saveItemAudioBase64 key base64).
Proof.
  intros HK w k. unfold saveItemAudioBase64. destruct (putFails key); simpl; [done|]. split.
  - intros Hk. apply lookup_insert_ne. by intros ->.
  - intros Hsome. destruct (decide (key = k)) as [->|Hne].
    + by rewrite lookup_insert_eq.
    + by rewrite lookup_insert_ne.
Qed.

Lemma updateBatchJob_keeps_blobs id updates w :
  audioFiles (snd (updateBatchJob id updates w)) = audioFiles w /\
  now (snd (updateBatchJob id updates w)) = now w /\
  exists jobs, fst (updateBatchJob id updates w) = Ok jobs.
Proof.
  unfold updateBatchJob, bind, inspect, Date_now, saveBatchJobs, ret.
  destruct (list_find _ _) as [[p j]|]; simpl; [|by eauto].
  destruct (setItemThrows _); simpl; by eauto.
Qed.

Lemma stores_under_updateBatchJob K id updates :
  stores_under K (updateBatchJob id updates).
Proof. apply stores_under_pure. intros w. apply updateBatchJob_keeps_blobs. Qed.

Lemma returns_generateAudioKey jobId type :
  returns (generateAudioKey jobId type) (fun key => exists t, key = file_key jobId type t).
Proof. intros w key w' Hr. injection Hr as <- _. by eexists. Qed.

End WithPersistence.

Ltac stores_tac :=
  repeat first
    [ apply stores_under_updateBatchJob
    | apply stores_under_pure; intros ?; reflexivity
    | eapply stores_under_bind; [|apply returns_any|intros ? _]
    | apply stores_under_try_catch; [|intros ?]
    | match goal with
      | |- stores_under _ (match ?x with _ => _ end) => destruct x
      end
    | apply stores_under_saveAudioBlob
    | apply stores_under_saveItemAudioBase64 ].

Section FileGeneration.
Context `{Platform} `{Mp3Library} `{Persistence}.
Variable app : AppState.
Variable collab : Collaborators.

Lemma stores_under_generateItems job cast items audioBuffers :
  stores_under (own_key (job_id job)) (generateItems app collab job cast items audioBuffers).
Proof.
  revert audioBuffers. induction items as [|item rest IH]; intros audioBuffers; simpl.
  - by apply stores_under_pure.
  - eapply stores_under_bind; [|apply returns_any|intros one _].
    + unfold generateItem, generateSpeechItem, generateSfxItem.
      stores_tac; left; by eexists.
    + eapply stores_under_bind; [apply IH|apply returns_any|intros more _].
      by apply stores_under_pure.
Qed.

Lemma stores_under_generateFiles job sd :
  stores_under (own_key (job_id job)) (generateFiles app collab job sd).
Proof.
  unfold generateFiles.
  eapply stores_under_bind; [apply stores_under_generateItems|apply returns_any|].
  intros generated _. destruct (fst generated); [by apply stores_under_pure|].
  eapply stores_under_bind; [by apply stores_under_pure|apply returns_any|].
  intros merged _.
  eapply stores_under_bind; [|apply returns_any|intros coverBase64 _].
  { unfold generateCover. stores_tac. }
  eapply stores_under_bind; [|apply returns_any|intros webmBlob _].
  { stores_tac. }
  eapply stores_under_bind;
    [by apply stores_under_pure|apply returns_generateAudioKey|intros mp3Key [t ->]].
  eapply (stores_under_bind _ _ _
            (fun webmKey => forall key, webmKey = Some key ->
                                        exists t, key = file_key (job_id job) "webm" t)).
  { destruct webmBlob; stores_tac. }
  { destruct webmBlob.
    - intros w key w' Hr. apply bind_inv in Hr as (k & w1 & Hk & Hr).
      apply returns_generateAudioKey in Hk as [t' ->]. injection Hr as <- _.
      intros key' [= <-]. by eexists.
    - intros w key w' Hr. by injection Hr as <- _. }
  intros webmKey Hwebm.
  eapply stores_under_bind; [|apply returns_any|intros _ _].
  { apply stores_under_saveAudioBlob. right; right. exists "mp3"%string, t. by split; [left|]. }
  eapply stores_under_bind; [|apply returns_any|intros _ _].
  { destruct webmBlob as [blob|], webmKey as [key|]; try by apply stores_under_pure.
    destruct (String.eqb key ""); [by apply stores_under_pure|].
    apply stores_under_saveAudioBlob. destruct (Hwebm key eq_refl) as [t' ->].
    right; right. exists "webm"%string, t'. by split; [right|]. }
  eapply stores_under_bind; [|apply returns_any|intros _ _].
  { destruct (truthy coverBase64); [|by apply stores_under_pure].
    destruct (_ && _); [|by apply stores_under_pure].
    apply stores_under_saveItemAudioBase64. right; by left. }
  by apply stores_under_pure.
Qed.

(** X7.  Whether it returns or throws, [handleGenerateFiles] never deletes a
    blob, and changes the blob store only under keys it makes for its job:
    per-item keys, the cover key, timestamped mp3 and webm keys. *)
Theorem file_generation_stores_under_its_own_keys (job : BatchJob) (w : World)
  (key : string) :
  (~ own_key (job_id job) key ->
   audioFiles (snd (handleGenerateFiles app collab job w)) !! key = audioFiles w !! key) /\
  (is_Some (audioFiles w !! key) ->
   is_Some (audioFiles (snd (handleGenerateFiles app collab job w)) !! key)).
Proof.
  revert w key. change (stores_under (own_key (job_id job)) (handleGenerateFiles app collab job)).
  unfold handleGenerateFiles. destruct (scriptData job) as [sd|]; [|by apply stores_under_pure].
  eapply stores_under_bind; [apply stores_under_updateBatchJob|apply returns_any|intros _ _].
  eapply stores_under_bind; [apply stores_under_generateFiles|apply returns_any|intros job' _].
  eapply stores_under_bind; [apply stores_under_updateBatchJob|apply returns_any|intros _ _].
  by apply stores_under_pure.
Qed.

Lemma returns_generateCover job info title :
  returns (generateCover app collab job info title)
    (fun cover =>
       (geminiApiKey app = ""%string -> cover = None) /\
       ((forall t prompt, is_Ok (generatePodcastCoverArt collab t prompt title) = false) ->
        cover = None)).
Proof.
  intros w cover w' Hr. unfold generateCover in Hr.
  destruct (String.eqb_spec (geminiApiKey app) "") as [Hkey|Hkey]; simpl in Hr.
  - injection Hr as <- _. done.
  - split; [done|]. intros Hfail.
    unfold try_catch, bind, await, ret in Hr.
    specialize (Hfail (now w)
      (default ("Based on story: " +:+ slice0 300 (storyText job))
               (or_else (info_coverPrompt <$> info) None))).
    destruct (generatePodcastCoverArt _ _ _ _); [discriminate Hfail|].
    by injection Hr as <- _.
Qed.

Lemma returns_generateFiles_video job sd :
  returns (generateFiles app collab job sd)
    (fun job' =>
       exists fs, files job' = Some fs /\
         (webmKey fs = None <-> coverKey fs = None) /\
         (geminiApiKey app = ""%string -> coverKey fs = None) /\
         ((forall t prompt title,
             is_Ok (generatePodcastCoverArt collab t prompt title) = false) ->
          coverKey fs = None)).
Proof.
  unfold generateFiles. apply returns_bind. intros generated.
  destruct (fst generated); [apply returns_throw|].
  apply returns_bind. intros merged.
  eapply returns_bind_post; [apply returns_generateCover|].
  intros coverBase64 [Hkey Hfail].
  eapply (returns_bind_post _ _ (fun webmBlob => is_Some webmBlob <-> truthy coverBase64 = true)).
  { destruct (truthy coverBase64).
    - intros w webmBlob w' Hr. apply bind_inv in Hr as (webm & w1 & _ & Hr).
      injection Hr as <- _. done.
    - intros w webmBlob w' Hr. injection Hr as <- _. split; [by intros [? ?]|done]. }
  intros webmBlob Hwebm. apply returns_bind. intros mp3Key.
  eapply (returns_bind_post _ _ (fun webmKey => is_Some webmKey <-> is_Some webmBlob)).
  { destruct webmBlob.
    - intros w webmKey w' Hr. apply bind_inv in Hr as (key & w1 & _ & Hr).
      injection Hr as <- _. done.
    - intros w webmKey w' Hr. by injection Hr as <- _. }
  intros webmKey Hkeys.
  repeat (apply returns_bind; intros ?). apply returns_ret. simpl.
  eexists. split; [done|]. simpl. split_and!.
  - destruct (truthy coverBase64); destruct webmKey; split; try done.
    + intros _. assert (is_Some (@None string)) as [? ?]; [|done]. apply Hkeys, Hwebm. done.
    + intros _. assert (true = false); [|done]. symmetry. apply Hwebm, Hkeys. by eexists.
  - intros Hk. by rewrite (Hkey Hk).
  - intros Hf. rewrite Hfail; [done|]. intros t prompt. apply Hf.
Qed.

(** X8.  The files [handleGenerateFiles] returns name a video exactly when
    they name a cover.  Without a Gemini key, or when cover art generation
    fails, there is neither, and the upload step then rejects the job with
    "No WebM file" before it writes or calls anything. *)
Theorem without_a_cover_there_is_no_video_to_upload (job job' : BatchJob) (w w' : World) :
  handleGenerateFiles app collab job w = (Ok job', w') ->
  (exists fs, files job' = Some fs /\
     (webmKey fs = None <-> coverKey fs = None) /\
     (geminiApiKey app = ""%string -> webmKey fs = None) /\
     ((forall t prompt title,
         is_Ok (generatePodcastCoverArt collab t prompt title) = false) ->
      webmKey fs = None)) /\
  (files job' ≫= webmKey = None ->
   forall app' collab' w'',
     handleUploadToYouTube app' collab' job' w'' = (Err (Error "No WebM file"), w'')).
Proof.
  intros Hrun. split.
  - unfold handleGenerateFiles in Hrun. destruct (scriptData job) as [sd|]; [|discriminate Hrun].
    apply bind_inv in Hrun as (jobs1 & w1 & _ & Hrun).
    apply bind_inv in Hrun as (updatedJob & w2 & Hgen & Hrun).
    apply bind_inv in Hrun as (jobs2 & w3 & _ & Hrun). injection Hrun as <- _.
    apply returns_generateFiles_video in Hgen as (fs & Hfs & Hiff & Hkey & Hfail).
    exists fs. split_and!; [done..| |].
    + intros Hk. apply Hiff. by apply Hkey.
    + intros Hf. apply Hiff. by apply Hfail.
  - intros Hnone app' collab' w''. unfold handleUploadToYouTube. by rewrite Hnone.
Qed.

(** X9.  [handleUploadToYouTube] stores the status [uploading] before it
    looks for the video blob: when the key the job names holds no blob, the
    step throws "WebM file not found" and leaves the job stored as
    [uploading]. *)
Theorem upload_of_a_missing_video_leaves_uploading (job job0 : BatchJob) (p : nat)
  (w : World) (key : string) :
  NoDup (map job_id (batchJobs w)) ->
  batchJobs w !! p = Some job0 -> job_id job0 = job_id job ->
  (forall jobs, setItemThrows jobs = false) ->
  files job ≫= webmKey = Some key -> key <> ""%string ->
  truthy (youTubeAccessToken app) = true ->
  loadAudioBlob key w = None ->
  fst (handleUploadToYouTube app collab job w) = Err (Error "WebM file not found") /\
  stored_status (job_id job) (snd (handleUploadToYouTube app collab job w)) = Some uploading /\
  audioFiles (snd (handleUploadToYouTube app collab job w)) = audioFiles w.
Proof.
  intros Hnd Hp Hid Hset Hkey Hne Htoken Hblob.
  assert (handleUploadToYouTube app collab job w
          = (Err (Error "WebM file not found"),
             mkWorld (<[p := spread job0 (status_update uploading) (now w)]> (batchJobs w))
               (audioFiles w) (now w)
               (written w ++ [<[p := spread job0 (status_update uploading) (now w)]>
                                (batchJobs w)]))) as ->.
  { unfold handleUploadToYouTube. rewrite Hkey, Htoken. simpl.
    rewrite (proj2 (String.eqb_neq key "") Hne). simpl.
    unfold bind at 1.
    rewrite (updateBatchJob_at _ _ _ p job0 Hnd Hp Hid), Hset.
    unfold bind, inspect. unfold loadAudioBlob in *. simpl. by rewrite Hblob. }
  simpl. split_and!; [done| |done].
  unfold stored_status, getBatchJob, loadBatchJobs. simpl.
  assert (job_id (spread job0 (status_update uploading) (now w)) = job_id job) as Hid'
    by (apply spread_id; [done|by left]).
  rewrite <- Hid'.
  rewrite (find_unique _ p (spread job0 (status_update uploading) (now w))); [done| |].
  - by rewrite (insert_ids _ _ job0) by (done || congruence).
  - apply list_lookup_insert_eq. by eapply lookup_lt_Some.
Qed.

(** X10.  Once YouTube accepted the video, the upload step returns the job
    as [uploaded] with the video id and URL, whatever [addVideoToPlaylist]
    does; the blobs are left as they are. *)
Theorem playlist_failure_does_not_fail_the_upload (job : BatchJob) (w : World)
  (key token : string) (blob : Stored) (result : YouTubeUploadResult) :
  files job ≫= webmKey = Some key -> key <> ""%string ->
  youTubeAccessToken app = Some token -> token <> ""%string ->
  loadAudioBlob key w = Some blob ->
  uploadToYouTube collab (now w) blob (uploadMetadata job) token = Ok result ->
  exists job',
    fst (handleUploadToYouTube app collab job w) = Ok job' /\
    status job' = uploaded /\
    youtubeVideoId job' = Some (videoId result) /\
    youtubeUrl job' = Some (url result) /\
    files job' = files job /\
    audioFiles (snd (handleUploadToYouTube app collab job w)) = audioFiles w.
Proof.
  intros Hkey Hne Htoken Htne Hblob Hup.
  unfold handleUploadToYouTube. rewrite Hkey, Htoken. simpl.
  rewrite (proj2 (String.eqb_neq key "") Hne), (proj2 (String.eqb_neq token "") Htne). simpl.
  destruct (updateBatchJob_keeps_blobs (job_id job) (status_update uploading) w)
    as (Hfiles & Hnow & jobs & Hok).
  destruct (updateBatchJob (job_id job) (status_update uploading) w) as [r w1] eqn:Hup1.
  simpl in *. subst r. rewrite (bind_Ok _ _ _ _ _ Hup1).
  rewrite (bind_Ok _ _ w1 (Some blob) w1)
    by (unfold inspect, loadAudioBlob in *; by rewrite Hfiles, Hblob).
  rewrite (bind_Ok _ _ w1 result
             (mkWorld (batchJobs w1) (audioFiles w1) (now w1 + latency collab (now w1))%N
                (written w1)))
    by (unfold await; by rewrite Hnow, Hup).
  set (w2 := mkWorld _ _ _ _).
  assert (audioFiles w2 = audioFiles w) as Hw2 by done.
  clearbody w2.
  assert (exists w3, (if negb (String.eqb (selectedPlaylistId app) "")
                         && negb (String.eqb (videoId result) "")
                      then try_catch
                             (await collab (fun t => addVideoToPlaylist collab t (videoId result)
                                                       (selectedPlaylistId app)))
                             (fun _ => ret tt)
                      else ret tt) w2 = (Ok tt, w3) /\ audioFiles w3 = audioFiles w)
    as (w3 & Hplaylist & Hw3).
  { destruct (_ && _); [|by exists w2].
    unfold try_catch, await, ret. destruct (addVideoToPlaylist _ _ _ _) as [[]|e]; by eexists. }
  rewrite (bind_Ok _ _ _ _ _ Hplaylist).
  rewrite (bind_Ok _ _ w3 (now w3) w3) by done.
  destruct (updateBatchJob_keeps_blobs (job_id job)
              (as_updates
                 (mkBatchJob (job_id job) (storyText job) uploaded (createdAt job)
                    (updatedAt job) (podcastTitle job) (episodeTitle job)
                    (podcastDescription job) (scriptData job) (files job)
                    (Some (videoId result)) (Some (url result)) (Some (now w3))
                    (job_error job))) w3)
    as (Hfiles' & _ & jobs' & Hok').
  destruct (updateBatchJob _ _ w3) as [r w4] eqn:Hup2. simpl in *. subst r.
  rewrite (bind_Ok _ _ _ _ _ Hup2). unfold ret. simpl.
  eexists. split_and!; try done. by rewrite Hfiles'.
Qed.

End FileGeneration.

(** One spoken line, no Gemini key: audio without cover or video. *)
Lemma without_a_cover_there_is_no_video_to_upload_witness :
  let job := scriptedJob "job1" [speechLine "line1" "Hello"] in
  let run :=
    @handleGenerateFiles examplePlatform exampleMp3Library reliable
      exampleAppNoGemini exampleCollab job (mkWorld [job] ∅ 5000 []) in
  exists job',
    fst run = Ok job' /\
    @handleUploadToYouTube reliable exampleApp exampleCollab job' (snd run)
    = (Err (Error "No WebM file"), snd run).
Proof.
  intros job run.
  assert (run = (Ok (match fst run with Ok job' => job' | Err _ => job end), snd run))
    as Hrun by (vm_compute; reflexivity).
  destruct (@without_a_cover_there_is_no_video_to_upload examplePlatform exampleMp3Library
              reliable exampleAppNoGemini exampleCollab job _ _ _ Hrun) as [_ Hupload].
  eexists. split; [by rewrite Hrun|].
  apply Hupload. vm_compute. reflexivity.
Defined.

(** The example job, its blobs gone from the store. *)
Lemma upload_of_a_missing_video_leaves_uploading_witness :
  let w := mkWorld [exampleJob] ∅ 3000 [] in
  stored_status "job1"
    (snd (@handleUploadToYouTube reliable exampleApp exampleCollab exampleJob w))
  = Some uploading.
Proof.
  intros w.
  assert (NoDup (map job_id (batchJobs w))) as Hnd by apply NoDup_singleton.
  assert ("job1_webm_1500" <> ""%string) as Hne by discriminate.
  exact (proj1 (proj2
    (@upload_of_a_missing_video_leaves_uploading reliable
       exampleApp exampleCollab exampleJob exampleJob 0%nat w "job1_webm_1500"
       Hnd eq_refl eq_refl (fun _ => eq_refl) eq_refl Hne eq_refl eq_refl))).
Defined.

(** The example job uploaded while the playlist call is rejected. *)
Lemma playlist_failure_does_not_fail_the_upload_witness :
  exists job',
    fst (@handleUploadToYouTube reliable exampleAppPlaylist playlistFails exampleJob
           exampleWorld) = Ok job' /\
    status job' = uploaded.
Proof.
  assert ("job1_webm_1500" <> ""%string) as Hne by discriminate.
  assert ("token" <> ""%string) as Htne by discriminate.
  destruct (@playlist_failure_does_not_fail_the_upload
              reliable exampleAppPlaylist playlistFails exampleJob exampleWorld
              "job1_webm_1500" "token" (StoredBlob (mkBlob "video/webm" [2%Z]))
              (mkYouTubeUploadResult "v1" "https://www.youtube.com/watch?v=v1")
              eq_refl Hne eq_refl Htne eq_refl eq_refl)
    as (job' & Hrun & Hstatus & _).
  exists job'. split; [exact Hrun|exact Hstatus].
Defined.

End WorkflowEdges.

(** * The files the encoders write *)

Module WavFacts.
Import Audio Notions Reading AudioFacts.

(** The header of the file [bufferToWav] returns, read back. *)
Lemma wavHeader_fields (buffer : AudioBuffer) :
  (0 < numberOfChannels buffer)%nat ->
  (Z.of_nat (wavLength buffer) < 4294967296)%Z ->
  (Zpos (sampleRate buffer) * 2 * Z.of_nat (numberOfChannels buffer) < 4294967296)%Z ->
  (Z.of_nat (numberOfChannels buffer) < 32768)%Z ->
  let bytes := blob_bytes (bufferToWav buffer) in
  List.length bytes = wavLength buffer /\
  take 4 bytes = [82; 73; 70; 70]%Z /\
  getUint32 bytes 4 = Some (Z.of_nat (List.length bytes) - 8)%Z /\
  take 8 (drop 8 bytes) = [87; 65; 86; 69; 102; 109; 116; 32]%Z /\
  getUint32 bytes 16 = Some 16%Z /\
  getUint16 bytes 20 = Some 1%Z /\
  getUint16 bytes 22 = Some (Z.of_nat (numberOfChannels buffer)) /\
  getUint32 bytes 24 = Some (Zpos (sampleRate buffer)) /\
  getUint32 bytes 28
    = Some (Zpos (sampleRate buffer) * 2 * Z.of_nat (numberOfChannels buffer))%Z /\
  getUint16 bytes 32 = Some (Z.of_nat (numberOfChannels buffer) * 2)%Z /\
  getUint16 bytes 34 = Some 16%Z /\
  take 4 (drop 36 bytes) = [100; 97; 116; 97]%Z /\
  getUint32 bytes 40 = Some (Z.of_nat (List.length bytes) - 44)%Z /\
  (Z.of_nat (List.length bytes) - 44
   = 2 * Z.of_nat (numberOfChannels buffer) * Z.of_nat (length buffer))%Z.
Proof.
  intros Hwf Hlen Hrate Hch bytes.
  assert (List.length bytes = wavLength buffer) as Hbytes by apply bufferToWav_length.
  assert (44 <= Z.of_nat (wavLength buffer))%Z as Hmin by (unfold wavLength; lia).
  assert (Z.of_nat (wavLength buffer) - 44
          = 2 * Z.of_nat (numberOfChannels buffer) * Z.of_nat (length buffer))%Z as Hdata
    by (unfold wavLength; lia).
  rewrite Hbytes. subst bytes. unfold bufferToWav, wavHeader, wavHeaderStart.
  cbn [blob_bytes]. rewrite <- !app_assoc.
  set (data := wavData buffer). set (L := Z.of_nat (wavLength buffer)) in *.
  set (C := Z.of_nat (numberOfChannels buffer)) in *.
  set (R := Zpos (sampleRate buffer)) in *.
  assert (0 < C)%Z as HC by lia. assert (0 < R)%Z as HR by lia.
  assert (R < 4294967296)%Z as HR' by nia.
  clearbody data L C R. clear Hbytes Hwf.
  unfold getUint32, getUint16, setUint32, setUint16. cbn -[Z.modulo Z.div Z.mul Z.sub Z.add].
  split_and!; try reflexivity; try done; f_equal.
  all: try (rewrite ?(Z.mod_small (L - 8) 4294967296), ?(Z.mod_small (L - 44) 4294967296),
              ?(Z.mod_small C 65536), ?(Z.mod_small R 4294967296),
              ?(Z.mod_small (R * 2 * C) 4294967296), ?(Z.mod_small (C * 2) 65536) by lia;
            Z.to_euclidean_division_equations; lia).
Qed.

(** X11.  The 44 header bytes of the file [bufferToWav] returns, read back
    little endian: "RIFF", the file size less 8, "WAVE", "fmt " of size 16,
    PCM, the channel count, the sample rate, the byte rate, the block
    alignment, 16 bits, "data", and a data size that is the file size less
    44, two bytes for every sample of the buffer.  The sizes are taken to fit
    the header's fields. *)
Theorem wav_header_describes_the_file (buffer : AudioBuffer) :
  well_formed buffer ->
  (Z.of_nat (wavLength buffer) < 4294967296)%Z ->
  (Zpos (sampleRate buffer) * 2 * Z.of_nat (numberOfChannels buffer) < 4294967296)%Z ->
  (Z.of_nat (numberOfChannels buffer) < 32768)%Z ->
  let bytes := blob_bytes (bufferToWav buffer) in
  List.length bytes = wavLength buffer /\
  take 4 bytes = [82; 73; 70; 70]%Z /\
  getUint32 bytes 4 = Some (Z.of_nat (List.length bytes) - 8)%Z /\
  take 8 (drop 8 bytes) = [87; 65; 86; 69; 102; 109; 116; 32]%Z /\
  getUint32 bytes 16 = Some 16%Z /\
  getUint16 bytes 20 = Some 1%Z /\
  getUint16 bytes 22 = Some (Z.of_nat (numberOfChannels buffer)) /\
  getUint32 bytes 24 = Some (Zpos (sampleRate buffer)) /\
  getUint32 bytes 28
    = Some (Zpos (sampleRate buffer) * 2 * Z.of_nat (numberOfChannels buffer))%Z /\
  getUint16 bytes 32 = Some (Z.of_nat (numberOfChannels buffer) * 2)%Z /\
  getUint16 bytes 34 = Some 16%Z /\
  take 4 (drop 36 bytes) = [100; 97; 116; 97]%Z /\
  getUint32 bytes 40 = Some (Z.of_nat (List.length bytes) - 44)%Z /\
  (Z.of_nat (List.length bytes) - 44
   = 2 * Z.of_nat (numberOfChannels buffer) * Z.of_nat (length buffer))%Z.
Proof. intros (Hwf & _). by apply wavHeader_fields. Qed.


(** X12.  The write loop of [bufferToWav] starts at frame 44, so the data
    chunk ends with as many zero bytes as the skipped frames would take: every
    byte from the end of what was written is 0, and a buffer of at most 44
    frames gives a file whose data is all zero. *)
Theorem wav_ends_with_unwritten_frames (buffer : AudioBuffer) (k : nat) :
  (44 + 2 * numberOfChannels buffer * (length buffer - 44) <= k < wavLength buffer)%nat ->
  blob_bytes (bufferToWav buffer) !! k = Some 0%Z.
Proof.
  intros [Hlo Hhi].
  assert ((length buffer - 44) * (numberOfChannels buffer * 2)
          <= length buffer * numberOfChannels buffer * 2)%nat as Hle
    by (rewrite Nat.mul_assoc; apply Nat.mul_le_mono_r, Nat.mul_le_mono_r; lia).
  pose proof (wavWritten_length buffer) as Hw.
  unfold wavLength in Hhi. unfold bufferToWav, wavData. cbn [blob_bytes].
  rewrite lookup_app_r by (rewrite wavHeader_length; lia).
  rewrite wavHeader_length.
  rewrite lookup_app_r by (rewrite Hw; lia).
  apply lookup_replicate_2. rewrite Hw. unfold wavLength. lia.
Qed.

Lemma blocks_concat {A} (size n : nat) (l : list A) :
  (List.length l <= n * size)%nat ->
  concat (map (fun k => take size (drop (k * size) l)) (seq 0 n)) = l.
Proof.
  revert l. induction n as [|n IH]; intros l Hl.
  - simpl in *. destruct l; [done|simpl in Hl; lia].
  - change (map ?f ?x) with (f <$> x). rewrite <- cons_seq, <- fmap_S_seq, fmap_cons, <- list_fmap_compose.
    cbn [concat]. simpl Nat.mul. rewrite drop_0.
    rewrite (list_fmap_ext _ (fun k => take size (drop (k * size) (drop size l))) (seq 0 n)).
    + change (?f <$> ?x) with (map f x). rewrite IH by (rewrite length_drop; lia).
      apply take_drop.
    + intros i k _. simpl. by rewrite drop_drop.
Qed.

Lemma floatTo16_range (x : Q) : (-32768 <= floatTo16 x <= 32767)%Z.
Proof.
  unfold floatTo16, toInt16. pose proof (Z.mod_pos_bound (truncate
    (if Qltb (clamp x) 0 then clamp x * 32768 else clamp x * 32767) + 32768) 65536). lia.
Qed.

(** X13.  The blocks [bufferToMp3] hands to the encoder, concatenated, are
    the samples of the first channel converted to 16-bit integers, each
    once and in order; no block is empty, every block but the last holds
    1152 samples, and there are as many blocks as the samples need. *)
Theorem mp3_blocks_cover_the_first_channel (samples : list Q) :
  let blocks := sampleBlocks (map floatTo16 samples) in
  concat blocks = map floatTo16 samples /\
  (forall k block, blocks !! k = Some block ->
     (0 < List.length block <= 1152)%nat /\
     ((S k < List.length blocks)%nat -> List.length block = 1152%nat) /\
     Forall (fun v => -32768 <= v <= 32767)%Z block) /\
  (List.length samples <= 1152 * List.length blocks < List.length samples + 1152)%nat.
Proof.
  intros blocks. subst blocks. unfold sampleBlocks. rewrite length_map.
  set (n := ((List.length samples + (sampleBlockSize - 1)) / sampleBlockSize)%nat).
  assert (List.length samples <= n * 1152 < List.length samples + 1152)%nat as Hn.
  { subst n. unfold sampleBlockSize. simpl Nat.sub.
    pose proof (Nat.div_mod (List.length samples + 1151) 1152 ltac:(done)) as Hdm.
    pose proof (Nat.mod_upper_bound (List.length samples + 1151) 1152 ltac:(done)). lia. }
  split; [|split].
  - apply blocks_concat. rewrite length_map. unfold sampleBlockSize. lia.
  - intros k block Hk. change (map ?f ?x) with (f <$> x) in Hk.
    rewrite list_lookup_fmap in Hk. apply fmap_Some in Hk as (k' & Hk' & ->).
    apply lookup_seq in Hk' as [-> Hlt]. simpl in Hlt.
    rewrite length_take, length_drop, !length_map, ?length_seq. unfold sampleBlockSize.
    split_and!; [lia..|].
    apply Forall_take, Forall_drop, Forall_forall. intros v Hv.
    apply list_elem_of_fmap in Hv as (x & -> & _). apply floatTo16_range.
  - rewrite length_map, length_seq. lia.
Qed.

(** Two frames of mono silence at 44100 Hz. *)
Lemma wav_header_describes_the_file_witness :
  let buffer := mkAudioBuffer 44100 2 [[0; 0]] in
  Reading.getUint32 (blob_bytes (bufferToWav buffer)) 40 = Some 4%Z /\
  Reading.getUint32 (blob_bytes (bufferToWav buffer)) 24 = Some 44100%Z.
Proof.
  intros buffer.
  assert (well_formed buffer) as Hwf.
  { split; [vm_compute; lia|]. split; [vm_compute; lia|]. by constructor. }
  destruct (wav_header_describes_the_file buffer Hwf ltac:(vm_compute; reflexivity)
              ltac:(vm_compute; reflexivity) ltac:(vm_compute; reflexivity))
    as (_ & _ & _ & _ & _ & _ & _ & Hrate & _ & _ & _ & _ & Hdata & _).
  split; [exact Hdata|exact Hrate].
Defined.

(** Two frames: the whole data chunk stays zero. *)
Lemma wav_ends_with_unwritten_frames_witness :
  blob_bytes (bufferToWav (mkAudioBuffer 44100 2 [[1; 1]])) !! 44%nat = Some 0%Z.
Proof.
  apply (wav_ends_with_unwritten_frames (mkAudioBuffer 44100 2 [[1; 1]]) 44).
  vm_compute. split; lia.
Defined.

End WavFacts.

(** * Decoding and encoding again *)

Module DecodingFacts.
Import Audio Notions Decoding AudioFacts.

Lemma getInt16_range (lo hi : Z) :
  (0 <= lo < 256)%Z -> (0 <= hi < 256)%Z -> (-32768 <= getInt16 lo hi <= 32767)%Z.
Proof. intros Hlo Hhi. unfold getInt16. cbv zeta. destruct (Z.ltb_spec (lo + 256 * hi) 32768); lia. Qed.

Lemma int16Pairs_length (bytes : list Z) :
  List.length (int16Pairs bytes) = (List.length bytes / 2)%nat.
Proof.
  induction bytes as [bytes IH] using (induction_ltof1 _ (@List.length Z)).
  destruct bytes as [|lo [|hi rest]]; [done..|].
  cbn [int16Pairs List.length]. rewrite IH by (unfold ltof; simpl; lia).
  change (S (S (List.length rest))) with (1 * 2 + List.length rest)%nat.
  rewrite (Nat.add_comm (1 * 2)), Nat.div_add by done. lia.
Qed.

Lemma int16Pairs_lookup (bytes : list Z) (i : nat) lo hi :
  bytes !! (2 * i)%nat = Some lo -> bytes !! (2 * i + 1)%nat = Some hi ->
  int16Pairs bytes !! i = Some (getInt16 lo hi).
Proof.
  revert bytes. induction i as [|i IH]; intros bytes Hlo Hhi.
  - destruct bytes as [|lo' [|hi' rest]]; simplify_eq/=. done.
  - destruct bytes as [|lo' [|hi' rest]]; [done..|].
    replace (2 * S i)%nat with (S (S (2 * i))) in Hlo, Hhi by lia.
    simpl in Hlo, Hhi. cbn [int16Pairs]. simpl. by apply IH.
Qed.

Lemma int16Pairs_range (bytes : list Z) :
  Forall (fun b => 0 <= b < 256)%Z bytes ->
  Forall (fun v => -32768 <= v <= 32767)%Z (int16Pairs bytes).
Proof.
  induction bytes as [bytes IH] using (induction_ltof1 _ (@List.length Z)).
  destruct bytes as [|lo [|hi rest]]; intros Hb; [constructor..|].
  apply Forall_cons in Hb as [Hlo Hb]. apply Forall_cons in Hb as [Hhi Hb].
  cbn [int16Pairs]. constructor; [by apply getInt16_range|].
  apply IH; [unfold ltof; simpl; lia|done].
Qed.

(** X14.  [decodeRawPCM] rejects what [atob] rejects, throws a RangeError on
    an odd number of bytes, and NotSupportedError when the bytes hold no
    whole frame or the layout is not supported.  Otherwise it returns a
    well-formed buffer of the requested rate and channel count whose sample
    [i] of channel [c] is the little-endian 16-bit integer number
    [i * numChannels + c] of the bytes, divided by 32768. *)
Theorem decodeRawPCM_deinterleaves_int16 `{DecodePlatform} (base64Data : string)
  (sampleRate numChannels : positive) :
  match atob base64Data with
  | None =>
      decodeRawPCM base64Data sampleRate numChannels
      = Err (DOMException "InvalidCharacterError")
  | Some bytes =>
      let dataInt16 := int16Pairs bytes in
      let frameCount := (List.length dataInt16 / Pos.to_nat numChannels)%nat in
      if negb (Nat.even (List.length bytes))
      then decodeRawPCM base64Data sampleRate numChannels = Err (Error rangeErrorMessage)
      else if Nat.eqb frameCount 0 || negb (createBufferSupports numChannels sampleRate)
      then decodeRawPCM base64Data sampleRate numChannels
           = Err (DOMException "NotSupportedError")
      else exists buffer,
        decodeRawPCM base64Data sampleRate numChannels = Ok buffer /\
        well_formed buffer /\
        Audio.sampleRate buffer = sampleRate /\
        numberOfChannels buffer = Pos.to_nat numChannels /\
        length buffer = frameCount /\
        forall channel i,
          (channel < Pos.to_nat numChannels)%nat -> (i < frameCount)%nat ->
          exists v,
            dataInt16 !! (i * Pos.to_nat numChannels + channel)%nat = Some v /\
            (-32768 <= v <= 32767)%Z /\
            sampleAt buffer channel i = Some (inject_Z v / 32768)
  end.
Proof.
  unfold decodeRawPCM, decodeBase64. destruct (atob base64Data) as [bytes|] eqn:Hatob; [|done].
  cbn [bindR]. unfold new_Int16Array.
  destruct (Nat.even (List.length bytes)) eqn:Heven; cbn [negb bindR]; [|done].
  unfold createBuffer.
  set (n := Pos.to_nat numChannels). set (ints := int16Pairs bytes).
  set (frames := (List.length ints / n)%nat).
  destruct (Nat.eqb frames 0 || negb (createBufferSupports numChannels sampleRate)) eqn:Hbad;
    [done|].
  apply orb_false_iff in Hbad as [Hframes _]. apply Nat.eqb_neq in Hframes.
  assert (0 < n)%nat as Hn by (subst n; lia).
  cbn [bindR Audio.sampleRate length]. unfold numberOfChannels at 1. cbn [channelData].
  rewrite length_replicate. fold n.
  eexists. split; [reflexivity|]. unfold well_formed, numberOfChannels, sampleAt.
  cbn [channelData length Audio.sampleRate]. rewrite length_map, length_seq.
  split_and!; [lia|lia| |done|done|done|].
  - apply Forall_forall. intros c Hc. apply list_elem_of_In, in_map_iff in Hc as (k & <- & _).
    by rewrite length_map, length_seq.
  - intros channel i Hc Hi.
    assert (i * n + channel < List.length ints)%nat as Hlt.
    { pose proof (Nat.div_mod (List.length ints) n ltac:(lia)) as Hdm.
      fold frames in Hdm. nia. }
    destruct (lookup_lt_is_Some_2 ints _ Hlt) as [v Hv]. exists v. split; [done|]. split.
    + pose proof (int16Pairs_range bytes (atob_bytes _ _ Hatob)) as Hall.
      rewrite Forall_forall in Hall. apply Hall. by eapply list_elem_of_lookup_2.
    + change (map ?f ?l) with (f <$> l). rewrite list_lookup_fmap.
      rewrite (proj2 (lookup_seq 0 n channel channel) (conj eq_refl Hc)). simpl.
      rewrite list_lookup_fmap.
      rewrite (proj2 (lookup_seq 0 frames i i) (conj eq_refl Hi)). simpl.
      by rewrite (nth_lookup_Some _ _ _ _ Hv).
Qed.

Lemma truncate_fraction (a : Z) (b : positive) : truncate (a # b) = (a `quot` Zpos b)%Z.
Proof. reflexivity. Qed.

Lemma pcm_sample_bounds (v : Z) :
  (-32768 <= v <= 32767)%Z -> -1 <= inject_Z v / 32768 /\ inject_Z v / 32768 < 1.
Proof.
  intros Hv. unfold Qle, Qlt, Qdiv, Qmult, Qinv, inject_Z. simpl. lia.
Qed.

(** X15.  A 16-bit PCM value [v], decoded to [v / 32768] by [decodeRawPCM]
    and encoded again, does not always come back: [bufferToWav] writes [v]
    below -16384, [v + 1] from -16384 to -1, 0 for 0 and [v - 1] above;
    the conversion in [bufferToMp3] gives [v] up to 0 and [v - 1] above. *)
Theorem pcm_samples_lose_one_step_when_encoded (v : Z) :
  (-32768 <= v <= 32767)%Z ->
  encodeSample (inject_Z v / 32768)
    = (if (v <? -16384)%Z then v else if (v <? 0)%Z then v + 1
       else if (v =? 0)%Z then 0 else v - 1)%Z /\
  floatTo16 (inject_Z v / 32768) = (if (v <=? 0)%Z then v else v - 1)%Z.
Proof.
  intros Hv. destruct (pcm_sample_bounds v Hv) as [Hlo Hhi].
  assert (clamp (inject_Z v / 32768) == inject_Z v / 32768) as Hclamp
    by (apply clamp_inside; [done|lra]).
  split.
  - rewrite (encodeSample_Qeq _ _ Hclamp). unfold scaled.
    destruct (Qltb ((1 # 2) + inject_Z v / 32768) 0) eqn:Hneg.
    + apply Qltb_lt in Hneg.
      assert (v < -16384)%Z as Hv'.
      { unfold Qlt, Qdiv, Qmult, Qinv, Qplus, inject_Z in Hneg. simpl in Hneg. lia. }
      rewrite (proj2 (Z.ltb_lt _ _) Hv').
      rewrite (truncate_Qeq _ (v # 1)); [rewrite truncate_fraction; by rewrite Z.quot_1_r|].
      unfold Qeq, Qdiv, Qmult, Qinv, inject_Z. simpl. lia.
    + assert (~ (1 # 2) + inject_Z v / 32768 < 0) as Hnn
        by (intros Hlt; apply Qltb_lt in Hlt; congruence).
      assert (-16384 <= v)%Z as Hv'.
      { apply Z.nlt_ge. intros Hlt. apply Hnn.
        unfold Qlt, Qdiv, Qmult, Qinv, Qplus, inject_Z. simpl. lia. }
      rewrite (proj2 (Z.ltb_ge _ _) Hv').
      rewrite (truncate_Qeq _ (v * 32767 # 32768));
        [|unfold Qeq, Qdiv, Qmult, Qinv, inject_Z; simpl; lia].
      rewrite truncate_fraction.
      destruct (Z.ltb_spec v 0); [|destruct (Z.eqb_spec v 0)];
        Z.to_euclidean_division_equations; lia.
  - unfold floatTo16, toInt16.
    assert (truncate (if Qltb (clamp (inject_Z v / 32768)) 0
                      then clamp (inject_Z v / 32768) * 32768
                      else clamp (inject_Z v / 32768) * 32767)
            = if (v <=? 0)%Z then v else (v - 1)%Z) as ->.
    { rewrite (Qltb_Qeq _ _ 0 Hclamp).
      destruct (Qltb (inject_Z v / 32768) 0) eqn:Hneg.
      - apply Qltb_lt in Hneg.
        assert (v < 0)%Z as Hv'.
        { unfold Qlt, Qdiv, Qmult, Qinv, inject_Z in Hneg. simpl in Hneg. lia. }
        rewrite (proj2 (Z.leb_le _ _)) by lia.
        rewrite (truncate_Qeq _ (v # 1)); [rewrite truncate_fraction; by rewrite Z.quot_1_r|].
        rewrite Hclamp. unfold Qeq, Qdiv, Qmult, Qinv, inject_Z. simpl. lia.
      - assert (0 <= v)%Z as Hv'.
        { apply Z.nlt_ge. intros Hlt.
          assert (inject_Z v / 32768 < 0) as Hq
            by (unfold Qlt, Qdiv, Qmult, Qinv, inject_Z; simpl; lia).
          apply Qltb_lt in Hq. congruence. }
        rewrite (truncate_Qeq _ (v * 32767 # 32768));
          [|rewrite Hclamp; unfold Qeq, Qdiv, Qmult, Qinv, inject_Z; simpl; lia].
        rewrite truncate_fraction.
        destruct (Z.leb_spec v 0); Z.to_euclidean_division_equations; lia. }
    destruct (Z.leb_spec v 0); rewrite Z.mod_small by lia; lia.
Qed.

(** The values 100 and -100. *)
Lemma pcm_samples_lose_one_step_when_encoded_witness :
  encodeSample (inject_Z 100 / 32768) = 99%Z /\
  encodeSample (inject_Z (-100) / 32768) = (-99)%Z.
Proof.
  split.
  - exact (proj1 (pcm_samples_lose_one_step_when_encoded 100 ltac:(lia))).
  - exact (proj1 (pcm_samples_lose_one_step_when_encoded (-100) ltac:(lia))).
Defined.

End DecodingFacts.

(** * Reloading a generated job *)

Module StudioFacts.
Import Audio Storage Workflow Notions MoreNotions Studio.
Import AudioFacts StorageFacts WorkflowFacts StorageLaws WorkflowEdges.

Section Reload.
Context `{Platform} `{Mp3Library} `{Persistence}.
Variable app : AppState.
Variable collab : Collaborators.

Lemma generateItem_cases job cast item bufs w bufs1 item1 w1 :
  generateItem app collab job cast item bufs w = (Ok (bufs1, item1), w1) ->
  (forall key, putFails key = false) ->
  (bufs1 = bufs /\ item1 = item /\ audioFiles w1 = audioFiles w) \/
  (exists base64 fmt buffer,
     bufs1 = bufs ++ [buffer] /\
     item1 = set_audio (generateItemAudioKey (job_id job) (item_id item)) fmt item /\
     audioFiles w1
       = <[generateItemAudioKey (job_id job) (item_id item) := StoredBase64 base64]>
           (audioFiles w) /\
     decode_as collab fmt base64 = Ok buffer).
Proof.
  intros Hrun Hput.
  unfold generateItem, generateSpeechItem, generateSfxItem in Hrun.
  unfold bind, try_catch, await, liftR, ret, sleep, saveItemAudioBase64 in Hrun.
  rewrite ?Hput in Hrun.
  repeat case_match; simplify_eq; simpl; try (by left).
  all: right; eexists _, _, _; split_and!; try done.
  all: unfold decode_as;
    match goal with |- context [format ?s] => destruct (format s) eqn:? end;
    by simplify_eq.
Qed.

Lemma item_key_nonempty jobId itemId : generateItemAudioKey jobId itemId <> ""%string.
Proof. unfold generateItemAudioKey. by destruct jobId. Qed.

Lemma loadItemAudio_without_key w item : audioKey item = None -> loadItemAudio collab w item = None.
Proof. unfold loadItemAudio. by intros ->. Qed.

Lemma loadItemAudio_stored w item key fmt base64 buffer :
  audioKey item = Some key -> key <> ""%string -> audioFormat item = Some fmt ->
  audioFiles w !! key = Some (StoredBase64 base64) -> base64 <> ""%string ->
  decode_as collab fmt base64 = Ok buffer ->
  loadItemAudio collab w item = Some buffer.
Proof.
  intros Hkey Hne Hfmt Hstored Hb Hdecode. unfold loadItemAudio, loadItemAudioBase64.
  rewrite Hkey, Hfmt. simpl. rewrite (proj2 (String.eqb_neq key "") Hne). simpl.
  rewrite Hstored. destruct base64 as [|c base64]; [done|]. simpl.
  unfold decode_as in Hdecode. destruct fmt; by rewrite Hdecode.
Qed.

Lemma generateItems_reload job cast items bufs w bufs' items' w1 :
  generateItems app collab job cast items bufs w = (Ok (bufs', items'), w1) ->
  NoDup (map item_id items) ->
  Forall (fun item => audioKey item = None) items ->
  (forall key, putFails key = false) ->
  (forall fmt, is_Ok (decode_as collab fmt "") = false) ->
  (forall key,
     (forall item, item ∈ items -> key <> generateItemAudioKey (job_id job) (item_id item)) ->
     audioFiles w1 !! key = audioFiles w !! key) /\
  exists new,
    bufs' = bufs ++ new /\
    forall w',
      (forall item, item ∈ items ->
         audioFiles w' !! generateItemAudioKey (job_id job) (item_id item)
         = audioFiles w1 !! generateItemAudioKey (job_id job) (item_id item)) ->
      omap (loadItemAudio collab w') items' = new.
Proof.
  intros Hrun Hnd Hnone Hput Hempty.
  revert bufs w bufs' items' w1 Hrun Hnd Hnone.
  induction items as [|item rest IH]; intros bufs w bufs' items' w1 Hrun Hnd Hnone.
  - injection Hrun as <- <- <-. split; [done|]. exists []. by rewrite app_nil_r.
  - simpl in Hrun.
    apply bind_inv in Hrun as ([bufs1 item1] & w2 & Hone & Hrun).
    apply bind_inv in Hrun as ([bufs2 items2] & w3 & Hmore & Hrun).
    unfold ret in Hrun. simpl in Hrun, Hmore. simplify_eq.
    simpl in Hnd. apply NoDup_cons in Hnd as [Hnotin Hnd].
    apply Forall_cons in Hnone as [Hitem Hnone].
    destruct (IH _ _ _ _ _ Hmore Hnd Hnone) as (Hframe & new & -> & Hload).
    assert (audioFiles w1 !! generateItemAudioKey (job_id job) (item_id item)
            = audioFiles w2 !! generateItemAudioKey (job_id job) (item_id item)) as Hkept.
    { apply Hframe. intros item' Hin Heq. apply generateItemAudioKey_inj in Heq.
      apply Hnotin. rewrite Heq. change (map item_id rest) with (item_id <$> rest).
      by apply list_elem_of_fmap_2. }
    destruct (generateItem_cases _ _ _ _ _ _ _ _ Hone Hput) as [(-> & -> & Hw2)|Hcase];
      clear Hone; [|rename Hcase into Hone].
    + split.
      * intros key Hkey. rewrite Hframe, Hw2; [done|].
        intros item' Hin. apply Hkey. by apply list_elem_of_further.
      * exists new. split; [done|]. intros w' Hw'. simpl.
        rewrite (loadItemAudio_without_key _ _ Hitem). apply Hload.
        intros item' Hin. apply Hw'. by apply list_elem_of_further.
    + destruct Hone as (base64 & fmt & buffer & -> & -> & Hw2 & Hdecode).
      split.
      * intros key Hkey. rewrite Hframe, Hw2.
        -- apply lookup_insert_ne. intros Heq. symmetry in Heq. revert Heq.
           apply Hkey. apply list_elem_of_here.
        -- intros item' Hin. apply Hkey. by apply list_elem_of_further.
      * exists (buffer :: new). split; [by rewrite <- app_assoc|]. intros w' Hw'. simpl.
        rewrite (loadItemAudio_stored w' _ (generateItemAudioKey (job_id job) (item_id item))
                   fmt base64 buffer); [| done | apply item_key_nonempty | done | | | done].
        -- f_equal. apply Hload. intros item' Hin. apply Hw'. by apply list_elem_of_further.
        -- rewrite Hw' by apply list_elem_of_here. rewrite Hkept, Hw2.
           apply lookup_insert_eq.
        -- intros ->. specialize (Hempty fmt). by rewrite Hdecode in Hempty.
Qed.

Lemma generateFiles_clips job sd w job' w' :
  generateFiles app collab job sd w = (Ok job', w') ->
  exists bufs items' w1 merged t,
    generateItems app collab job (cast sd) (items sd) [] w = (Ok (bufs, items'), w1) /\
    mergeAudioBuffers bufs = Ok merged /\
    scriptData job' = Some (mkBatchJobScriptData (cast sd) items' (podcastInfo sd)) /\
    files job' ≫= mp3Key = Some (file_key (job_id job) "mp3" t) /\
    audioFiles w' !! file_key (job_id job) "mp3" t = Some (StoredBlob (bufferToMp3 merged)) /\
    forall itemId,
      audioFiles w' !! generateItemAudioKey (job_id job) itemId
      = audioFiles w1 !! generateItemAudioKey (job_id job) itemId.
Proof.
  unfold generateFiles. intros Hrun.
  apply bind_inv in Hrun as ([bufs items'] & w1 & Hitems & Hrun). simpl in Hrun.
  destruct bufs as [|buffer bufs]; [discriminate Hrun|].
  apply bind_inv in Hrun as (merged & w2 & Hmerged & Hrun).
  unfold liftR in Hmerged. injection Hmerged as Hmerged <-.
  apply bind_inv in Hrun as (coverBase64 & w2 & Hcover & Hrun).
  pose proof (footprint_generateCover app collab (fun _ => False) job (podcastInfo sd)
    (default "Podcast"
       (or_else (info_podcastName <$> podcastInfo sd) (or_else (podcastTitle job) None)))
    w1) as (_ & _ & _ & Hframe2).
  rewrite Hcover in Hframe2. simpl in Hframe2. clear Hcover.
  apply bind_inv in Hrun as (webmBlob & w3 & Hwebm & Hrun).
  assert (w3 = w2) as ->.
  { destruct (truthy coverBase64); [|by injection Hwebm].
    unfold bind, liftR, ret in Hwebm. by repeat case_match; simplify_eq. }
  clear Hwebm.
  rewrite (bind_Ok _ _ _ _ _ (generateAudioKey_run _ _ _)) in Hrun.
  assert (forall itemId t,
            file_key (job_id job) "mp3" t <> generateItemAudioKey (job_id job) itemId)
    as Hitem by (intros; apply file_key_not_item; by left).
  assert (forall itemId t,
            file_key (job_id job) "webm" t <> generateItemAudioKey (job_id job) itemId)
    as Hitem' by (intros; apply file_key_not_item; by right).
  assert (forall itemId, job_id job +:+ "_cover" <> generateItemAudioKey (job_id job) itemId)
    as Hcover.
  { intros itemId Heq. unfold generateItemAudioKey in Heq.
    apply (String.app_inj (job_id job)) in Heq. discriminate Heq. }
  assert (forall t t', file_key (job_id job) "webm" t <> file_key (job_id job) "mp3" t')
    as Hwebm by (intros t t' Heq; by apply (file_key_mp3_webm (job_id job) t' t)).
  assert (forall t, job_id job +:+ "_cover" <> file_key (job_id job) "mp3" t) as Hcm
    by (intros t Heq; apply (file_key_not_cover (job_id job) "mp3" t); auto).
  exists (buffer :: bufs), items', w1, merged, (now w2).
  unfold bind in Hrun.
  destruct webmBlob as [webm|]; rewrite ?generateAudioKey_run in Hrun;
    unfold ret, saveAudioBlob, saveItemAudioBase64 in Hrun;
    rewrite ?file_key_nonempty in Hrun;
    repeat case_match; simplify_eq; simpl in *.
  all: split_and!; try done.
  all: try (rewrite ?lookup_insert_ne by auto; by apply lookup_insert_eq).
  all: intros itemId; rewrite ?lookup_insert_ne by auto; apply Hframe2; tauto.
Qed.

Lemma loadFromJob_items_audio w job sd :
  scriptData job = Some sd ->
  omap snd (loadFromJob_items collab w job) = omap (loadItemAudio collab w) (items sd).
Proof.
  intros Hsd. unfold loadFromJob_items. rewrite Hsd.
  induction (items sd) as [|item rest IH]; [done|]. simpl.
  destruct (loadItemAudio collab w item); [f_equal|]; exact IH.
Qed.

(** X16.  After file generation of a job whose items have distinct ids and
    had no audio yet, with stores that accept every write and decoders that
    reject empty data, the clips [loadFromJob] decodes for the job's items,
    in script order, merge to the very buffer whose encoding is stored under
    the job's [mp3Key]. *)
Theorem reloading_a_job_gives_the_clips_of_its_mp3 (job job' : BatchJob) (w w' : World)
  (sd : BatchJobScriptData) :
  handleGenerateFiles app collab job w = (Ok job', w') ->
  scriptData job = Some sd ->
  NoDup (map item_id (items sd)) ->
  Forall (fun item => audioKey item = None) (items sd) ->
  (forall key, putFails key = false) ->
  (forall fmt, is_Ok (decode_as collab fmt "") = false) ->
  exists merged key,
    mergeAudioBuffers (omap snd (loadFromJob_items collab w' job')) = Ok merged /\
    files job' ≫= mp3Key = Some key /\
    audioFiles w' !! key = Some (StoredBlob (bufferToMp3 merged)).
Proof.
  intros Hrun Hsd Hnd Hnone Hput Hempty.
  unfold handleGenerateFiles in Hrun. rewrite Hsd in Hrun.
  apply bind_inv in Hrun as (jobs1 & w0 & _ & Hrun).
  apply bind_inv in Hrun as (updatedJob & w2 & Hgen & Hrun).
  apply bind_inv in Hrun as (jobs2 & w3 & Hup & Hrun). injection Hrun as <- <-.
  pose proof (updateBatchJob_keeps_blobs (job_id job) (as_updates updatedJob) w2)
    as (Hfiles & _). rewrite Hup in Hfiles. simpl in Hfiles.
  apply generateFiles_clips in Hgen
    as (bufs & items' & w1 & merged & t & Hitems & Hmerged & Hsd' & Hkey & Hmp3 & Hkept).
  destruct (generateItems_reload _ _ _ _ _ _ _ _ Hitems Hnd Hnone Hput Hempty)
    as (_ & new & Hnew & Hload). simpl in Hnew. subst new.
  exists merged, (file_key (job_id job) "mp3" t).
  rewrite (loadFromJob_items_audio _ _ _ Hsd'). simpl.
  rewrite (Hload w3); [by rewrite Hfiles|].
  intros item _. rewrite Hfiles. apply Hkept.
Qed.

End Reload.

(** Of the three lines of the example, the reloaded page holds the two clips
    of the stored mp3. *)
Lemma reloading_a_job_gives_the_clips_of_its_mp3_witness :
  let job := threeLineJob in
  let w := threeLineWorld in
  let run : Result BatchJob * World :=
    @handleGenerateFiles examplePlatform exampleMp3Library reliable
      exampleApp strictCollab job w in
  let job' : BatchJob := match fst run with Ok job' => job' | Err _ => job end in
  List.length (omap snd (loadFromJob_items strictCollab (snd run) job')) = 2%nat /\
  exists merged key,
    @mergeAudioBuffers examplePlatform (omap snd (loadFromJob_items strictCollab (snd run) job')) = Ok merged /\
    files job' ≫= mp3Key = Some key /\
    audioFiles (snd run) !! key = Some (StoredBlob (@bufferToMp3 exampleMp3Library merged)).
Proof.
  intros job w run job'.
  assert (run = (Ok job', snd run)) as Hrun by (vm_compute; reflexivity).
  split; [by vm_compute|].
  apply (@reloading_a_job_gives_the_clips_of_its_mp3 examplePlatform exampleMp3Library
           reliable exampleApp strictCollab job job' w (snd run) _ Hrun eq_refl).
  - apply (bool_decide_unpack _). by vm_compute.
  - by repeat constructor.
  - done.
  - by intros [].
Defined.

End StudioFacts.
(** * The fallback of [bufferToMp3] *)

Module FallbackFacts.
Import Audio Storage Workflow Notions MoreNotions Reading.
Import AudioFacts StorageFacts WorkflowFacts StorageLaws WorkflowEdges WavFacts StudioFacts.

Section Fallback.
Context `{Platform} `{Persistence}.
Variable app : AppState.
Variable collab : Collaborators.





End Fallback.




End FallbackFacts.

(** * What a batch button settles *)

Module LoopFacts.
Import Audio Storage Workflow Notions MoreNotions LoopNotions.
Import AudioFacts StorageFacts WorkflowFacts.

Section Landing.
Context `{Platform} `{Mp3Library} `{Persistence}.
Hypothesis Hwrite : forall jobs, setItemThrows jobs = false.

Lemma lands_throw {A} id from e to : lands id from (@throw A e) to.
Proof. intros w p job0 a w' _ _ _ _ Hr. discriminate Hr. Qed.

Lemma lands_bind {A B} id from (m : M A) (k : A -> M B) mid to (Q : A -> Prop) :
  moves id from m (fun _ => mid) -> returns m Q ->
  (forall a, Q a -> lands id mid (k a) to) ->
  lands id from (bind m k) to.
Proof.
  intros Hm HQ Hk w p job0 b w' Hnd Hp Hid Hfrom Hr.
  apply bind_inv in Hr as (a & w1 & Hrun & Hr).
  destruct (Hm w p job0 Hnd Hp Hid Hfrom) as (_ & job1 & Hj & Hid1 & Hto).
  rewrite Hrun in Hj, Hto. simpl in Hj, Hto.
  assert (batchJobs w1 !! p = Some job1) as Hp1.
  { rewrite Hj. apply list_lookup_insert_eq. by eapply lookup_lt_Some. }
  assert (NoDup (map job_id (batchJobs w1))) as Hnd1.
  { rewrite Hj, (insert_ids _ _ job0); [done..|congruence]. }
  exact (Hk a (HQ w a w1 Hrun) w1 p job1 b w' Hnd1 Hp1 Hid1 Hto Hr).
Qed.

Lemma lands_update_ret {A} id updates from to (x : A) :
  u_status updates = Some to ->
  lands id from (updateBatchJob id updates ;; ret x) to.
Proof.
  intros Hs w p job0 a w' Hnd Hp Hid _ Hr.
  unfold bind, ret in Hr.
  rewrite (updateBatchJob_at id updates w p job0 Hnd Hp Hid), Hwrite in Hr.
  injection Hr as <- <-. simpl. eexists. split.
  - apply list_lookup_insert_eq. by eapply lookup_lt_Some.
  - unfold spread. simpl. by rewrite Hs.
Qed.

Variable app : AppState.
Variable collab : Collaborators.

Lemma lands_handleGenerateScript job :
  lands (job_id job) pending (handleGenerateScript app collab job) script_ready.
Proof.
  unfold handleGenerateScript.
  eapply (lands_bind _ _ _ _ pending _ (fun _ => True));
    [eapply moves_footprint; apply (footprint_await (fun _ => True))|apply returns_any|].
  intros result _. by apply lands_update_ret.
Qed.

Lemma lands_handleGenerateFiles job :
  lands (job_id job) script_ready (handleGenerateFiles app collab job) files_ready.
Proof.
  unfold handleGenerateFiles. destruct (scriptData job) as [sd|]; [|apply lands_throw].
  eapply (lands_bind _ _ _ _ generating _ (fun _ => True));
    [apply moves_updateBatchJob; [by left|done|right; simpl; split; [done|lia]]
    |apply returns_any|].
  intros _ _.
  eapply (lands_bind _ _ _ _ generating);
    [eapply moves_footprint; apply footprint_generateFiles|apply returns_generateFiles|].
  intros updatedJob [Hid Hst]. apply lands_update_ret. simpl. by rewrite Hst.
Qed.

Lemma lands_handleUploadToYouTube job :
  lands (job_id job) files_ready (handleUploadToYouTube app collab job) uploaded.
Proof.
  unfold handleUploadToYouTube.
  destruct (negb (truthy _)); [apply lands_throw|].
  destruct (negb (truthy _)); [apply lands_throw|].
  eapply (lands_bind _ _ _ _ uploading _ (fun _ => True));
    [apply moves_updateBatchJob; [by left|done|right; simpl; split; [done|lia]]
    |apply returns_any|].
  intros _ _.
  eapply (lands_bind _ _ _ _ uploading _ (fun _ => True));
    [eapply moves_footprint; apply (footprint_inspect (fun _ => True))|apply returns_any|].
  intros [webmBlob|] _; [|apply lands_throw].
  eapply (lands_bind _ _ _ _ uploading _ (fun _ => True));
    [eapply moves_footprint; apply (footprint_await (fun _ => True))|apply returns_any|].
  intros result _.
  eapply (lands_bind _ _ _ _ uploading _ (fun _ => True)); [|apply returns_any|].
  { eapply (moves_footprint (fun _ => True)).
    destruct (_ && _); [|apply footprint_ret].
    apply footprint_try_catch; [apply footprint_await|intros e; apply footprint_ret]. }
  intros _ _.
  eapply (lands_bind _ _ _ _ uploading _ (fun _ => True));
    [eapply moves_footprint; apply (footprint_Date_now (fun _ => True))|apply returns_any|].
  intros uploadedAt' _. by apply lands_update_ret.
Qed.

Lemma lands_autoProcess job :
  lands (job_id job) pending (autoProcess app collab job) uploaded.
Proof.
  unfold autoProcess.
  eapply lands_bind;
    [apply moves_handleGenerateScript|apply returns_handleGenerateScript|].
  intros job1 [Hid1 _]. rewrite <- Hid1.
  eapply lands_bind;
    [apply moves_handleGenerateFiles|apply returns_handleGenerateFiles|].
  intros job2 [Hid2 _]. rewrite <- Hid2.
  apply lands_handleUploadToYouTube.
Qed.

End Landing.

Section Settling.
Context `{Platform} `{Mp3Library} `{Persistence}.
Hypothesis Hwrite : forall jobs, setItemThrows jobs = false.

Lemma shows_refl jobs : shows jobs jobs.
Proof. apply Forall2_same_length_lookup_2; [done|]. by intros i x y ? ?; simplify_eq. Qed.

Lemma shows_ids jobs stored : shows jobs stored -> map job_id jobs = map job_id stored.
Proof. induction 1 as [|a b l k [Hid _] _ IH]; [done|]. simpl. by rewrite Hid, IH. Qed.

Lemma same_id_same_place (jobs : list BatchJob) p q a b :
  NoDup (map job_id jobs) -> jobs !! p = Some a -> jobs !! q = Some b ->
  job_id a = job_id b -> p = q.
Proof.
  intros Hnd Hp Hq Hid.
  apply (NoDup_lookup _ p q (job_id a) Hnd); change (map job_id jobs) with (job_id <$> jobs);
    rewrite list_lookup_fmap; [by rewrite Hp|by rewrite Hq, Hid].
Qed.

Lemma processJobs_settles (step : BatchJob -> M BatchJob) (from to : BatchJobStatus)
  (selected : list BatchJob) :
  (forall job,
     moves (job_id job) from (step job) (fun _ => to) /\
     returns (step job) (fun job' => job_id job' = job_id job /\ status job' = to) /\
     lands (job_id job) from (step job) to) ->
  forall jobs w,
    NoDup (map job_id (batchJobs w)) -> NoDup (map job_id selected) ->
    shows jobs (batchJobs w) ->
    (forall job, job ∈ selected ->
       exists p job0, batchJobs w !! p = Some job0 /\ job_id job0 = job_id job /\
                      status job0 = from) ->
    exists jobs' w',
      processJobs step selected jobs w = (Ok jobs', w') /\
      shows jobs' (batchJobs w') /\
      forall p job0, batchJobs w !! p = Some job0 ->
        exists job1,
          batchJobs w' !! p = Some job1 /\ job_id job1 = job_id job0 /\
          (job_id job0 ∈ map job_id selected -> status job1 = to \/ status job1 = error) /\
          (job_id job0 ∉ map job_id selected -> job1 = job0).
Proof.
  intros Hstep.
  induction selected as [|job rest IH]; intros jobs w Hnd Hsel Hshows Hpos.
  - exists jobs, w. split; [done|]. split; [done|]. intros p job0 Hp.
    exists job0. split_and!; [done|done| |done]. simpl. by intros ?%elem_of_nil.
  - destruct (Hstep job) as (Hmoves & Hret & Hlands).
    destruct (Hpos job) as (p & job0 & Hp & Hid0 & Hst0); [apply list_elem_of_here|].
    assert (status_le (status job0) from) as Hle0 by (rewrite Hst0; apply status_le_refl).
    destruct (Hmoves w p job0 Hnd Hp Hid0 Hle0) as (_ & job1 & Hj & Hid1 & _).
    apply NoDup_cons in Hsel as [Hnotin Hsel].
    (* what the rest of the loop needs from a store that differs at [p] only,
       and what the whole loop gives once the rest has run from there *)
    assert (forall w1 job1' jobs1,
              batchJobs w1 = <[p := job1']> (batchJobs w) -> job_id job1' = job_id job ->
              status job1' = to \/ status job1' = error ->
              shows jobs1 (batchJobs w1) ->
              exists jobs' w',
                processJobs step rest jobs1 w1 = (Ok jobs', w') /\
                shows jobs' (batchJobs w') /\
                forall q job0_q, batchJobs w !! q = Some job0_q ->
                  exists job1_q,
                    batchJobs w' !! q = Some job1_q /\ job_id job1_q = job_id job0_q /\
                    (job_id job0_q ∈ map job_id (job :: rest) ->
                     status job1_q = to \/ status job1_q = error) /\
                    (job_id job0_q ∉ map job_id (job :: rest) -> job1_q = job0_q)) as Hrest.
    { intros w1 job1' jobs1 Hj1 Hid1' Hst1 Hshows1.
      assert (NoDup (map job_id (batchJobs w1))) as Hnd1.
      { rewrite Hj1, (insert_ids _ _ job0); [done..|congruence]. }
      destruct (IH jobs1 w1 Hnd1 Hsel Hshows1) as (jobs' & w' & Hrun & Hshows' & Hall).
      { intros job_r Hin. destruct (Hpos job_r) as (q & job0_r & Hq & Hid_r & Hst_r);
          [by apply list_elem_of_further|].
        exists q, job0_r. split; [|done]. rewrite Hj1.
        rewrite list_lookup_insert_ne; [done|]. intros ->.
        assert (job_id job = job_id job_r) as Heq by congruence.
        apply Hnotin. rewrite Heq.
        change (map job_id rest) with (job_id <$> rest). by apply list_elem_of_fmap_2. }
      exists jobs', w'. split; [done|]. split; [done|].
      intros q job0_q Hq. destruct (decide (q = p)) as [->|Hne].
      - assert (job0_q = job0) as -> by congruence.
        destruct (Hall p job1') as (job1_q & Hq1 & Hid_q & _ & Hsame).
        { rewrite Hj1. apply list_lookup_insert_eq. by eapply lookup_lt_Some. }
        assert (job1_q = job1') as -> by (apply Hsame; by rewrite Hid1').
        exists job1'. split_and!; [done|congruence|done|].
        intros Hout. exfalso. apply Hout. simpl. rewrite Hid0. apply list_elem_of_here.
      - destruct (Hall q job0_q) as (job1_q & Hq1 & Hid_q & Hin & Hout).
        { rewrite Hj1. by rewrite list_lookup_insert_ne. }
        assert (job_id job0_q <> job_id job) as Hother.
        { intros Heq. apply Hne. apply (same_id_same_place _ _ _ _ _ Hnd Hq Hp). congruence. }
        exists job1_q. split_and!; [done|done| |].
        + simpl. intros Hin'. apply elem_of_cons in Hin' as [?|?]; [done|]. by apply Hin.
        + intros Hout'. apply Hout. intros ?. apply Hout'. simpl.
          by apply list_elem_of_further. }
    destruct (step job w) as [[job'|e] w1] eqn:Hrun; cbn [fst snd] in *.
    + rewrite (processJobs_cons_Ok step job rest jobs w job' w1 Hrun).
      destruct (Hret w job' w1 Hrun) as [Hid' Hst'].
      destruct (Hlands w p job0 job' w1 Hnd Hp Hid0 Hle0 Hrun) as (job1' & Hp1 & Hst1).
      assert (job1' = job1) as ->.
      { rewrite Hj, list_lookup_insert_eq in Hp1 by (by eapply lookup_lt_Some). congruence. }
      apply (Hrest w1 job1); [done|done|by left|].
      destruct (Forall2_lookup_r _ _ _ _ _ Hshows Hp) as (rj & Hrj & Hrid & _).
      rewrite (replaceJob_insert jobs p rj (job_id job) job');
        [|by rewrite (shows_ids _ _ Hshows)|exact Hrj|congruence].
      rewrite Hj. apply Forall2_insert; [exact Hshows|]. split; congruence.
    + assert (batchJobs w1 !! p = Some job1) as Hp1.
      { rewrite Hj. apply list_lookup_insert_eq. by eapply lookup_lt_Some. }
      assert (NoDup (map job_id (batchJobs w1))) as Hnd1.
      { rewrite Hj, (insert_ids _ _ job0); [done..|congruence]. }
      pose proof (updateBatchJob_at (job_id job) (error_update (message_of e)) w1 p job1
                    Hnd1 Hp1 Hid1) as Hupd.
      rewrite Hwrite in Hupd.
      rewrite (processJobs_cons_Err step job rest jobs w e w1 _ _ Hrun Hupd).
      eapply (Hrest _ (spread job1 (error_update (message_of e)) (now w1))).
      * simpl. by rewrite Hj, list_insert_insert_eq.
      * apply spread_id; [done|by left].
      * by right.
      * apply shows_refl.
Qed.

Lemma with_status_ids (jobs : list BatchJob) s job0 p :
  NoDup (map job_id jobs) -> jobs !! p = Some job0 ->
  job_id job0 ∈ map job_id (with_status s jobs) <-> status job0 = s.
Proof.
  intros Hnd Hp. change (map job_id ?l) with (job_id <$> l). split.
  - intros (job & Hid & Hin)%list_elem_of_fmap.
    apply list_elem_of_filter in Hin as [Hs Hin].
    apply list_elem_of_lookup in Hin as [q Hq].
    assert (p = q) as -> by (by eapply same_id_same_place).
    congruence.
  - intros Hs. apply list_elem_of_fmap_2. apply list_elem_of_filter. split; [done|].
    by eapply list_elem_of_lookup_2.
Qed.

Lemma loop_settles (step : BatchJob -> M BatchJob) (from to : BatchJobStatus) (w : World) :
  (forall job,
     moves (job_id job) from (step job) (fun _ => to) /\
     returns (step job) (fun job' => job_id job' = job_id job /\ status job' = to) /\
     lands (job_id job) from (step job) to) ->
  NoDup (map job_id (batchJobs w)) ->
  exists jobs' w',
    processJobs step (with_status from (batchJobs w)) (batchJobs w) w = (Ok jobs', w') /\
    shows jobs' (batchJobs w') /\
    forall p job0, batchJobs w !! p = Some job0 ->
      exists job1,
        batchJobs w' !! p = Some job1 /\ job_id job1 = job_id job0 /\
        if bool_decide (status job0 = from)
        then status job1 = to \/ status job1 = error
        else job1 = job0.
Proof.
  intros Hstep Hnd.
  destruct (processJobs_settles step from to (with_status from (batchJobs w)) Hstep
              (batchJobs w) w Hnd) as (jobs' & w' & Hrun & Hshows & Hall).
  - eapply sublist_NoDup; [exact Hnd|].
    change (map job_id ?l) with (job_id <$> l). apply fmap_sublist, sublist_filter.
  - apply shows_refl.
  - intros job Hin. apply list_elem_of_filter in Hin as [Hs Hin].
    apply list_elem_of_lookup in Hin as [p Hp]. by exists p, job.
  - exists jobs', w'. split; [done|]. split; [done|]. intros p job0 Hp.
    destruct (Hall p job0 Hp) as (job1 & Hp1 & Hid & Hin & Hout).
    exists job1. split; [done|]. split; [done|].
    pose proof (with_status_ids (batchJobs w) from job0 p Hnd Hp) as Hiff.
    case_bool_decide as Hs; [apply Hin; by apply Hiff|apply Hout; by rewrite Hiff].
Qed.

(** X17.  With a localStorage that takes every write and stored jobs of
    distinct ids, a click on a batch button of a page that shows the stored
    list does not reject.  Afterwards every stored job that had the status
    the button selects has the status the button aims at, or [error]; every
    other stored job is the record it was; and the page shows the ids and
    statuses that are stored.  Upload All and Auto Process All change
    nothing without a YouTube login. *)
Theorem a_batch_button_settles_the_jobs_it_selects (c : Click) (w : World) :
  NoDup (map job_id (batchJobs w)) ->
  exists jobs' w',
    handleClick c (batchJobs w) w = (Ok jobs', w') /\
    shows jobs' (batchJobs w') /\
    if needs_login (action c) && negb (isYouTubeLoggedIn (click_app c))
    then jobs' = batchJobs w /\ w' = w
    else
      forall p job0, batchJobs w !! p = Some job0 ->
        exists job1,
          batchJobs w' !! p = Some job1 /\ job_id job1 = job_id job0 /\
          if bool_decide (status job0 = selects (action c))
          then status job1 = aims_at (action c) \/ status job1 = error
          else job1 = job0.
Proof.
  intros Hnd.
  assert (forall step from,
            match with_status from (batchJobs w) with
            | [] => ret (batchJobs w)
            | selected => processJobs step selected (batchJobs w)
            end w
            = processJobs step (with_status from (batchJobs w)) (batchJobs w) w) as Hnone
    by (intros step from; by destruct (with_status from (batchJobs w))).
  unfold handleClick. destruct (action c); simpl.
  - unfold handleGenerateAllScripts. rewrite Hnone. apply loop_settles; [|done].
    intros job. split_and!;
      [apply moves_handleGenerateScript|apply returns_handleGenerateScript
      |by apply lands_handleGenerateScript].
  - unfold handleGenerateAllFiles. rewrite Hnone. apply loop_settles; [|done].
    intros job. split_and!;
      [apply moves_handleGenerateFiles|apply returns_handleGenerateFiles
      |by apply lands_handleGenerateFiles].
  - unfold handleUploadAll. destruct (negb _).
    { exists (batchJobs w), w. split; [done|]. split; [apply shows_refl|done]. }
    rewrite Hnone. apply loop_settles; [|done].
    intros job. split_and!;
      [apply moves_handleUploadToYouTube|apply returns_handleUploadToYouTube
      |by apply lands_handleUploadToYouTube].
  - assert (handleAutoProcessAll (click_app c) (click_collab c) (batchJobs w) w
            = if negb (isYouTubeLoggedIn (click_app c)) then (Ok (batchJobs w), w)
              else processJobs (autoProcess (click_app c) (click_collab c))
                     (with_status pending (batchJobs w)) (batchJobs w) w) as ->.
    { unfold handleAutoProcessAll.
      destruct (with_status pending (batchJobs w)); by destruct (negb _). }
    destruct (negb _).
    { exists (batchJobs w), w. split; [done|]. split; [apply shows_refl|done]. }
    apply loop_settles; [|done].
    intros job. split_and!;
      [apply moves_autoProcess|apply returns_autoProcess|by apply lands_autoProcess].
Qed.

End Settling.

(** Generate All Scripts on four jobs, one of them past scripting, with a
    story that cannot be scripted among the others. *)
Lemma a_batch_button_settles_the_jobs_it_selects_witness :
  let c := mkClick GenerateAllScripts exampleApp scriptFails in
  exists jobs' w',
    @handleClick examplePlatform exampleMp3Library reliable c (batchJobs mixedWorld)
      mixedWorld = (Ok jobs', w') /\
    shows jobs' (batchJobs w') /\
    map status (batchJobs w') = [script_ready; error; files_ready; script_ready] /\
    batchJobs w' !! 2%nat = Some exampleJob.
Proof.
  intros c.
  destruct (@a_batch_button_settles_the_jobs_it_selects examplePlatform exampleMp3Library
              reliable (fun _ => eq_refl) c mixedWorld)
    as (jobs' & w' & Hrun & Hshows & Hall).
  { apply (bool_decide_unpack _). by vm_compute. }
  exists jobs', w'. split; [done|]. split; [done|].
  assert (batchJobs w' = batchJobs (snd (@handleClick examplePlatform exampleMp3Library
                                           reliable c (batchJobs mixedWorld) mixedWorld)))
    as -> by (by rewrite Hrun).
  split; by vm_compute.
Defined.

End LoopFacts.

(** * Saving from the studio *)

Module StudioPageFacts.
Import Audio Storage Workflow Notions MoreNotions Studio StudioPage.
Import AudioFacts StorageFacts WorkflowFacts.

Section Saving.
Context `{Persistence}.

(** X18.  Saving from the studio page of a stored job writes the page's cast,
    items and podcast info into the job and replaces its [files] by the cover
    key alone: the status stays, the references to the mp3 and the webm are
    gone while every blob but the cover stays stored, and an upload of the
    saved job fails with "No WebM file". *)
Theorem saving_from_the_studio_drops_the_file_references (app : AppState)
  (collab : Collaborators) (page : Page) (id : string) (p : nat) (job0 : BatchJob)
  (w w' : World) :
  (forall jobs, setItemThrows jobs = false) ->
  NoDup (map job_id (batchJobs w)) ->
  batchJobs w !! p = Some job0 -> job_id job0 = id ->
  page_jobId page = Some id -> id <> ""%string ->
  handleSaveToJob page w = (Ok tt, w') ->
  exists job1,
    batchJobs w' = <[p := job1]> (batchJobs w) /\
    job_id job1 = id /\ status job1 = status job0 /\
    scriptData job1
    = Some (mkBatchJobScriptData (page_cast page) (map fst (page_items page))
              (page_podcastInfo page)) /\
    files job1
    = Some (mkBatchJobFiles None None
              (if present (page_coverArtBase64 page) then Some (id +:+ "_cover") else None)) /\
    (forall key, key <> id +:+ "_cover" -> audioFiles w' !! key = audioFiles w !! key) /\
    handleUploadToYouTube app collab job1 w' = (Err (Error "No WebM file"), w').
Proof.
  intros Hwrite Hnd Hp Hid Hpage Hne Hrun.
  unfold handleSaveToJob in Hrun. rewrite Hpage in Hrun. simpl in Hrun.
  rewrite (proj2 (String.eqb_neq id "") Hne) in Hrun. simpl in Hrun.
  apply bind_inv in Hrun as (coverKey' & w1 & Hcover & Hrun).
  apply bind_inv in Hrun as (jobs & w2 & Hupd & Hrun). injection Hrun as <-.
  assert (batchJobs w1 = batchJobs w /\
          coverKey' = (if present (page_coverArtBase64 page) then Some (id +:+ "_cover")
                       else None) /\
          forall key, key <> id +:+ "_cover" -> audioFiles w1 !! key = audioFiles w !! key)
    as (Hjobs & -> & Hblobs).
  { assert (forall value,
              (put (id +:+ "_cover") value ;; ret (Some (id +:+ "_cover"))) w
              = (Ok coverKey', w1) ->
              batchJobs w1 = batchJobs w /\ coverKey' = Some (id +:+ "_cover") /\
              forall key, key <> id +:+ "_cover" ->
                          audioFiles w1 !! key = audioFiles w !! key) as Hput.
    { intros value Hsave.
      apply bind_inv in Hsave as ([] & w0 & Hsave & Hret). injection Hret as <- <-.
      unfold put, saveItemAudioBase64, saveAudioBlob in Hsave.
      destruct value; (destruct (putFails _); [discriminate Hsave|]);
        injection Hsave as <-; simpl.
      all: split_and!; [done..|]; intros key Hkey; by apply lookup_insert_ne. }
    destruct (page_coverArtBase64 page) as [[blob|base64]|]; simpl in Hcover |- *.
    - by apply (Hput (StoredBlob blob)).
    - destruct (String.eqb base64 ""); simpl in Hcover |- *;
        [by injection Hcover as <- <-|by apply (Hput (StoredBase64 base64))].
    - by injection Hcover as <- <-. }
  rewrite <- Hjobs in Hnd, Hp.
  rewrite (updateBatchJob_at id _ w1 p job0 Hnd Hp Hid), Hwrite in Hupd.
  injection Hupd as <- <-. simpl. eexists. rewrite Hjobs.
  split_and!; [done|done|done|done|done|done|].
  unfold handleUploadToYouTube. simpl. done.
Qed.

End Saving.

(** Opening the example job, which has its files, in the studio and saving
    it. *)
Lemma saving_from_the_studio_drops_the_file_references_witness :
  let page := fetchJob exampleCollab exampleWorld (Some "job1"%string) in
  let run : Result unit * World := @handleSaveToJob reliable page exampleWorld in
  status exampleJob = files_ready /\
  map fst (page_items page) = [exampleItem] /\
  exists job1,
    batchJobs (snd run) = [job1] /\ status job1 = files_ready /\
    files job1 = Some (mkBatchJobFiles None None (Some "job1_cover"%string)) /\
    is_Some (audioFiles (snd run) !! "job1_webm_1500"%string) /\
    @handleUploadToYouTube reliable exampleApp exampleCollab job1 (snd run)
    = (Err (Error "No WebM file"), snd run).
Proof.
  intros page run.
  assert (run = (Ok tt, snd run)) as Hrun by (vm_compute; reflexivity).
  split; [done|]. split; [by vm_compute|].
  destruct (@saving_from_the_studio_drops_the_file_references reliable exampleApp
              exampleCollab page "job1" 0 exampleJob exampleWorld (snd run)
              (fun _ => eq_refl) (NoDup_singleton _) eq_refl eq_refl eq_refl
              ltac:(discriminate) Hrun)
    as (job1 & Hjobs & _ & Hst & _ & Hfiles & Hblobs & Hupload).
  exists job1. split_and!.
  - by rewrite Hjobs.
  - by rewrite Hst.
  - rewrite Hfiles. by vm_compute.
  - rewrite Hblobs by discriminate. eexists. vm_compute. reflexivity.
  - done.
Defined.

End StudioPageFacts.

(** * Saving as a new job and opening it *)

Module SaveAsNewFacts.
Import Audio Storage Workflow Notions MoreNotions Decoding Studio StudioPage SaveAsNew.
Import AudioFacts StorageFacts WorkflowFacts StudioFacts.

Section Saving.
Context `{PagePlatform} `{Persistence}.
Hypothesis Hurl : forall blob url, readAsDataURL blob = Ok url ->
                                   exists rest, url = "data:" +:+ rest.

Lemma saveItem_run newJobId entry w item' w' :
  saveItem newJobId entry w = (Ok item', w') ->
  batchJobs w' = batchJobs w /\ now w' = now w /\
  (forall key, holds_data_url w key -> holds_data_url w' key) /\
  match snd entry with
  | Some _ =>
      item' = set_audio (generateItemAudioKey newJobId (item_id (fst entry))) fmt_pcm
                (fst entry) /\
      holds_data_url w' (generateItemAudioKey newJobId (item_id (fst entry)))
  | None => item' = fst entry
  end.
Proof.
  unfold saveItem. destruct (snd entry) as [buffer|].
  - intros Hrun. apply bind_inv in Hrun as (url & w1 & Hread & Hrun).
    apply bind_inv in Hrun as ([] & w2 & Hsave & Hrun).
    unfold blobToBase64, liftR in Hread. injection Hread as Hread <-.
    destruct (Hurl _ _ Hread) as [rest ->].
    unfold saveItemAudioBase64 in Hsave. destruct (putFails _); [discriminate Hsave|].
    injection Hsave as <-. injection Hrun as <- <-. simpl.
    split_and!; [done|done| |done|].
    + intros key [rest' Hkey]. unfold holds_data_url. simpl.
      destruct (decide (key = generateItemAudioKey newJobId (item_id (fst entry))))
        as [->|Hne].
      * exists rest. apply lookup_insert_eq.
      * exists rest'. by rewrite lookup_insert_ne.
    + exists rest. simpl. apply lookup_insert_eq.
  - intros Hrun. injection Hrun as <- <-. done.
Qed.

Lemma all_saveItem_run newJobId entries w items' w' :
  all (saveItem newJobId) entries w = (Ok items', w') ->
  batchJobs w' = batchJobs w /\ now w' = now w /\
  (forall key, holds_data_url w key -> holds_data_url w' key) /\
  forall i item buffer,
    entries !! i = Some (item, Some buffer) ->
    items' !! i = Some (set_audio (generateItemAudioKey newJobId (item_id item)) fmt_pcm item)
    /\ holds_data_url w' (generateItemAudioKey newJobId (item_id item)).
Proof.
  revert w items' w'. induction entries as [|entry rest IH]; intros w items' w' Hrun.
  - injection Hrun as <- <-. split_and!; [done..|]. intros i item buffer Hi. done.
  - cbn [all] in Hrun.
    destruct (saveItem newJobId entry w) as [r w1] eqn:Hone.
    destruct (all (saveItem newJobId) rest w1) as [rs w2] eqn:Hmore.
    destruct r as [item1|e]; [|discriminate Hrun].
    destruct rs as [items1|e]; [|discriminate Hrun].
    injection Hrun as <- <-.
    apply saveItem_run in Hone as (Hj1 & Hn1 & Hkeep1 & Hentry).
    apply IH in Hmore as (Hj2 & Hn2 & Hkeep2 & Hrest).
    split_and!; [congruence|congruence|by auto|].
    intros [|i] item buffer Hi.
    + injection Hi as ->. simpl in Hentry. destruct Hentry as [-> Hdata]. auto.
    + by apply Hrest in Hi.
Qed.

Lemma put_other key value w w' other :
  put key value w = (Ok tt, w') -> other <> key ->
  audioFiles w' !! other = audioFiles w !! other.
Proof.
  unfold put, saveItemAudioBase64, saveAudioBlob. intros Hput Hne.
  destruct value; (destruct (putFails _); [discriminate Hput|]);
    injection Hput as <-; simpl; by apply lookup_insert_ne.
Qed.

Lemma item_key_not_cover jobId itemId : generateItemAudioKey jobId itemId <> jobId +:+ "_cover".
Proof.
  unfold generateItemAudioKey. intros Heq.
  apply (String.app_inj jobId) in Heq. discriminate Heq.
Qed.

(** X30.  A clip saved by [handleSaveAsNewJob] does not come back when the
    new job is opened: the item is saved with its own key and the format
    'pcm', what is stored under the key is the data URL of a WAV file, and
    [loadFromJob], which hands it to [decodeRawPCM] and so to [atob], gets an
    exception and leaves the item without audio.  (Data URLs start with
    "data:", and [atob] takes no text with a colon.) *)
Theorem audio_saved_as_a_new_job_does_not_come_back `{DecodePlatform}
  (collab : Collaborators) (page : Page) (newJob : BatchJob) (w w' : World) :
  (forall rest, atob ("data:" +:+ rest) = None) ->
  (forall base64,
     Workflow.decodeRawPCM collab base64 = Decoding.decodeRawPCM base64 24000 1) ->
  handleSaveAsNewJob page w = (Ok (Some newJob), w') ->
  exists sd,
    scriptData newJob = Some sd /\
    forall i item buffer,
      page_items page !! i = Some (item, Some buffer) ->
      exists item',
        items sd !! i = Some item' /\
        audioKey item' = Some (generateItemAudioKey (job_id newJob) (item_id item)) /\
        audioFormat item' = Some fmt_pcm /\
        holds_data_url w' (generateItemAudioKey (job_id newJob) (item_id item)) /\
        loadItemAudio collab w' item' = None.
Proof.
  intros Hatob Hcollab Hrun. unfold handleSaveAsNewJob in Hrun.
  destruct (_ || _); [discriminate Hrun|].
  apply bind_inv in Hrun as (t & w0 & Ht & Hrun). injection Ht as <- <-.
  apply bind_inv in Hrun as (t' & w0 & Ht & Hrun). injection Ht as <- <-.
  apply bind_inv in Hrun as (items' & w1 & Hitems & Hrun).
  apply bind_inv in Hrun as (coverKey' & w2 & Hcover & Hrun).
  apply bind_inv in Hrun as (jobs & w3 & Hadd & Hrun). injection Hrun as <- <-.
  apply all_saveItem_run in Hitems as (_ & _ & _ & Hsaved).
  assert (forall itemId,
            audioFiles w3 !! generateItemAudioKey ("job_" +:+ pretty (now w)) itemId
            = audioFiles w1 !! generateItemAudioKey ("job_" +:+ pretty (now w)) itemId)
    as Hkept.
  { intros itemId.
    assert (audioFiles w3 = audioFiles w2) as ->.
    { unfold addBatchJob, bind, inspect, saveBatchJobs, ret in Hadd.
      destruct (setItemThrows _); by injection Hadd as _ <-. }
    destruct (page_coverArtBase64 page) as [cover|]; [|by injection Hcover as _ <-].
    destruct (present (Some cover)); [|by injection Hcover as _ <-].
    apply bind_inv in Hcover as ([] & w4 & Hput & Hret). injection Hret as _ <-.
    eapply put_other; [exact Hput|apply item_key_not_cover]. }
  eexists. split; [done|]. cbn [job_id items]. intros i item buffer Hi.
  destruct (Hsaved i item buffer Hi) as [Hitem [rest Hdata]].
  eexists. split; [exact Hitem|]. split; [done|]. split; [done|].
  rewrite <- Hkept in Hdata. split; [by exists rest|].
  assert (loadItemAudioBase64
            (generateItemAudioKey ("job_" +:+ pretty (now w)) (item_id item)) w3
          = Some (StoredBase64 ("data:" +:+ rest))) as Hload
    by (unfold loadItemAudioBase64; by rewrite Hdata).
  unfold loadItemAudio, set_audio, truthy.
  cbn [audioKey audioFormat default].
  rewrite (proj2 (String.eqb_neq _ "") (item_key_nonempty _ _)). cbn [negb].
  unfold id. rewrite Hload. cbn [as_string]. rewrite Hcollab.
  unfold Decoding.decodeRawPCM, decodeBase64. by rewrite Hatob.
Qed.

End Saving.

(** The clip of the example page is stored as a data URL and is not decoded
    when the new job is opened. *)
Lemma audio_saved_as_a_new_job_does_not_come_back_witness :
  let run : Result (option BatchJob) * World :=
    @handleSaveAsNewJob examplePagePlatform reliable clipPage exampleWorld in
  exists newJob sd item',
    fst run = Ok (Some newJob) /\ job_id newJob = "job_3000"%string /\
    scriptData newJob = Some sd /\ items sd !! 0%nat = Some item' /\
    audioFiles (snd run) !! "job_3000_item_line1"%string
    = Some (StoredBase64 "data:audio/wav;base64,48") /\
    loadItemAudio pcmCollab (snd run) item' = None.
Proof.
  intros run.
  pose (newJob := match fst run with Ok (Some job) => job | _ => exampleJob end).
  assert (run = (Ok (Some newJob), snd run)) as Hrun by (vm_compute; reflexivity).
  destruct (@audio_saved_as_a_new_job_does_not_come_back examplePagePlatform reliable
              ltac:(intros blob url [= <-]; by eexists) strictAtob pcmCollab clipPage
              newJob exampleWorld (snd run) (fun _ => eq_refl) (fun _ => eq_refl) Hrun)
    as (sd & Hsd & Hitems).
  destruct (Hitems 0%nat _ _ eq_refl) as (item' & Hitem & _ & _ & _ & Hload).
  exists newJob, sd, item'. split; [by rewrite Hrun|]. split; [by vm_compute|].
  split; [done|]. split; [done|]. split; [by vm_compute|done].
Defined.

End SaveAsNewFacts.

(** * The slideshow recording *)

Module RenderFacts.
Import Audio Notions RenderNotions AudioFacts.

Lemma timeline_drawImage t imageCache defaultCover base64 rest :
  timeline t (drawImage imageCache defaultCover base64 ++ rest) = timeline t rest.
Proof. unfold drawImage. by destruct (cachedImage _ _ _). Qed.

Lemma held_drawImage imageCache defaultCover base64 rest :
  held (drawImage imageCache defaultCover base64 ++ rest) = held rest.
Proof. unfold drawImage. by destruct (cachedImage _ _ _). Qed.

Lemma timeline_segments t imageCache defaultCover segments :
  timeline t (flat_map (playSegment imageCache defaultCover) segments ++ [Hold 500; RecorderStop])
  = starts t segments.
Proof.
  revert t. induction segments as [|segment rest IH]; intros t; [done|].
  cbn [flat_map]. unfold playSegment at 1. rewrite <- !app_assoc, timeline_drawImage.
  cbn [app timeline]. by rewrite IH.
Qed.

Lemma held_segments imageCache defaultCover segments :
  held (flat_map (playSegment imageCache defaultCover) segments ++ [Hold 500; RecorderStop])
  == 1000 * fold_right (fun segment total => segment_duration segment + total) 0 segments
     + 500.
Proof.
  induction segments as [|segment rest IH]; [simpl; ring|].
  cbn [flat_map fold_right]. unfold playSegment at 1.
  rewrite <- !app_assoc, held_drawImage. cbn [app held]. rewrite IH. ring.
Qed.

(** X19.  In the recording [createDynamicWebmVideo] makes, the clips are
    those of the segments, in order, and each is started when the recorder
    has been held for 1000 times the sum of the [duration] fields of the
    segments before it, whatever the clips' own lengths; the recorder is
    stopped after 1000 times the sum of all [duration] fields plus 500 ms. *)
Theorem a_recording_follows_the_duration_fields (segments : list WebmSegment)
  (defaultCover : option string) (options : WebmOptions) :
  timeline 0 (captureEvents segments defaultCover options) = starts 0 segments /\
  held (captureEvents segments defaultCover options)
  == 1000 * fold_right (fun segment total => segment_duration segment + total) 0 segments
     + 500.
Proof.
  unfold captureEvents. destruct (resolveResolution options) as [width height].
  split.
  - cbn [app timeline]. destruct segments as [|first rest]; [done|].
    rewrite timeline_drawImage. apply timeline_segments.
  - cbn [app held]. destruct segments as [|first rest]; [simpl; ring|].
    rewrite held_drawImage. apply held_segments.
Qed.

Lemma uniqueImages_needed segments defaultCover img :
  img ∈ uniqueImages segments defaultCover <-> needed segments defaultCover img.
Proof.
  split.
  - intros Hin. apply uniqueImages_elem in Hin as [Hne [[_ Hc]|Hs]]; split; auto.
  - intros [Hne Hneed]. unfold uniqueImages. rewrite elem_of_remove_dups, elem_of_app.
    destruct Hneed as [->|(segment & Hin & <-)].
    + left. simpl. rewrite (proj2 (String.eqb_neq img "") Hne). simpl.
      apply list_elem_of_here.
    + right. apply list_elem_of_filter. split; [done|].
      change (map imageBase64 segments) with (imageBase64 <$> segments).
      by apply list_elem_of_fmap_2.
Qed.

(** X20.  [createDynamicWebmVideo] resolves exactly when every image it
    needs loads (the cover, when not empty, even if no segment falls back to
    it, and every non-empty segment image) and the recorder is made and
    records without error.  When it rejects, it is with the error event of a
    needed image that does not load, with the exception the recorder's
    constructor threw, or with what made the capture fail. *)
Theorem a_render_resolves_iff_images_load_and_the_recorder_records `{Platform}
  (segments : list WebmSegment) (defaultCover : option string) (options : WebmOptions) :
  (is_Ok (createDynamicWebmVideo segments defaultCover options) = true <->
   (forall img, needed segments defaultCover img -> imageLoads img = true) /\
   records segments defaultCover options) /\
  (forall e, createDynamicWebmVideo segments defaultCover options = Err e ->
     (exists img, e = ErrorEvent img /\ needed segments defaultCover img /\
                  imageLoads img = false) \/
     mediaRecorderThrows (fst (resolveResolution options))
       (snd (resolveResolution options)) (resolveBitrate options) = Some e \/
     captureError (captureEvents segments defaultCover options) = Some e).
Proof.
  split.
  - split.
    + intros Hok. unfold createDynamicWebmVideo, records in *.
      destruct (List.find _ _) as [bad|] eqn:Hfind; [done|].
      destruct (resolveResolution options) as [width height]. simpl in *.
      destruct (mediaRecorderThrows _ _ _); [done|].
      destruct (captureError _); [done|].
      split; [|done]. intros img Hneed.
      apply uniqueImages_needed, list_elem_of_In in Hneed.
      pose proof (find_none _ _ Hfind img Hneed) as Hload. by apply negb_false_iff in Hload.
    + intros [Hload Hrec]. rewrite createDynamicWebmVideo_resolves; [done| |done].
      intros img Hin. by apply Hload, uniqueImages_needed.
  - intros e He.
    apply createDynamicWebmVideo_rejects in He as [(img & -> & Hin & Hfail)|He]; [|by right].
    left. exists img. split; [done|]. split; [by apply uniqueImages_needed|done].
Qed.

(** A recorder whose constructor throws: the render rejects although the
    only image loads. *)
Lemma a_render_resolves_iff_images_load_and_the_recorder_records_witness :
  let platform :=
    {| renderChannel := fun _ _ _ => 0;
       decodeAudioData := fun _ => None;
       imageLoads := fun _ => true;
       mediaRecorderThrows := fun _ _ _ => Some (DOMException "NotSupportedError");
       captureError := fun _ => None;
       recorderData := fun _ => [] |} in
  @createDynamicWebmVideo platform [] (Some "Y292ZXI=") (mkWebmOptions None None)
    = Err (DOMException "NotSupportedError") /\
  @mediaRecorderThrows platform 1920 1080 8000000 = Some (DOMException "NotSupportedError").
Proof.
  intros platform. split; [reflexivity|].
  destruct (proj2 (@a_render_resolves_iff_images_load_and_the_recorder_records platform []
                     (Some "Y292ZXI="%string) (mkWebmOptions None None))
              (DOMException "NotSupportedError") eq_refl)
    as [(img & Himg & _)|[Hnew|Hcapture]]; [discriminate Himg|exact Hnew|discriminate Hcapture].
Defined.

End RenderFacts.

(** * Texts of the RSS feed *)

Module RssFacts.
Import Stdlib.Strings.Ascii Audio Notions Rss AudioFacts StorageLaws.

Lemma replaceAll_app c by_ s1 s2 :
  replaceAll c by_ (s1 +:+ s2) = replaceAll c by_ s1 +:+ replaceAll c by_ s2.
Proof.
  induction s1 as [|x s1 IH]; [done|].
  change (String x s1 +:+ s2) with (String x (s1 +:+ s2)). cbn [replaceAll].
  destruct (Ascii.eqb x c); rewrite IH.
  - symmetry. apply string_app_assoc.
  - done.
Qed.

Lemma replaceAll_other c by_ x :
  Ascii.eqb x c = false -> replaceAll c by_ (String x EmptyString) = String x EmptyString.
Proof. intros Hx. cbn [replaceAll]. by rewrite Hx. Qed.

Lemma escapeXml_cons x rest : escapeXml (String x rest) = escapeChar x +:+ escapeXml rest.
Proof.
  unfold escapeXml.
  change (String x rest) with (String x EmptyString +:+ rest).
  rewrite !replaceAll_app. f_equal. unfold escapeChar.
  destruct (Ascii.eqb_spec x "&") as [->|H1]; [done|].
  destruct (Ascii.eqb_spec x "<") as [->|H2]; [done|].
  destruct (Ascii.eqb_spec x ">") as [->|H3]; [done|].
  destruct (Ascii.eqb_spec x quote) as [->|H4]; [done|].
  destruct (Ascii.eqb_spec x "'") as [->|H5]; [done|].
  rewrite !replaceAll_other; try done; by apply Ascii.eqb_neq.
Qed.

Lemma chars_app s1 s2 : chars (s1 +:+ s2) = chars s1 ++ chars s2.
Proof.
  induction s1 as [|x s1 IH]; [done|].
  change (String x s1 +:+ s2) with (String x (s1 +:+ s2)). simpl. by rewrite IH.
Qed.

Lemma escapeChar_clean x : Forall (fun y => ~ special y) (chars (escapeChar x)).
Proof.
  unfold escapeChar.
  destruct (Ascii.eqb_spec x "&") as [->|H1];
    [repeat constructor; intros [|[|[|]]]; discriminate|].
  destruct (Ascii.eqb_spec x "<") as [->|H2];
    [repeat constructor; intros [|[|[|]]]; discriminate|].
  destruct (Ascii.eqb_spec x ">") as [->|H3];
    [repeat constructor; intros [|[|[|]]]; discriminate|].
  destruct (Ascii.eqb_spec x quote) as [->|H4];
    [repeat constructor; intros [|[|[|]]]; discriminate|].
  destruct (Ascii.eqb_spec x "'") as [->|H5];
    [repeat constructor; intros [|[|[|]]]; discriminate|].
  repeat constructor. intros [|[|[|]]]; done.
Qed.

Lemma escapeChar_inj x y r r' :
  escapeChar x +:+ r = escapeChar y +:+ r' -> x = y /\ r = r'.
Proof.
  unfold escapeChar.
  destruct (Ascii.eqb_spec x "&") as [->|Hx1]; [|
  destruct (Ascii.eqb_spec x "<") as [->|Hx2]; [|
  destruct (Ascii.eqb_spec x ">") as [->|Hx3]; [|
  destruct (Ascii.eqb_spec x quote) as [->|Hx4]; [|
  destruct (Ascii.eqb_spec x "'") as [->|Hx5]]]]];
  (destruct (Ascii.eqb_spec y "&") as [->|Hy1]; [|
   destruct (Ascii.eqb_spec y "<") as [->|Hy2]; [|
   destruct (Ascii.eqb_spec y ">") as [->|Hy3]; [|
   destruct (Ascii.eqb_spec y quote) as [->|Hy4]; [|
   destruct (Ascii.eqb_spec y "'") as [->|Hy5]]]]]);
  cbn; intros Heq; try discriminate Heq; simplify_eq; done.
Qed.

(** X21.  The five replacements of [escapeXml] do not escape one another's
    output: the result is the text with each of & < > and the two quotation
    marks written as its entity, once, and every other character kept; it
    holds none of < > and the quotation marks. *)
Theorem escapeXml_escapes_each_character_once (str : string) :
  escapeXml str = foldr (fun x escaped => escapeChar x +:+ escaped) EmptyString (chars str) /\
  Forall (fun y => ~ special y) (chars (escapeXml str)).
Proof.
  induction str as [|x rest [IH1 IH2]]; [by split|].
  rewrite escapeXml_cons. split.
  - simpl. by rewrite IH1.
  - rewrite chars_app. apply Forall_app. split; [apply escapeChar_clean|done].
Qed.

(** X22.  [escapeXml] loses nothing: two different texts are escaped to
    different texts. *)
Theorem escapeXml_keeps_texts_apart (str str' : string) :
  str <> str' -> escapeXml str <> escapeXml str'.
Proof.
  intros Hne Heq. apply Hne. clear Hne. revert str' Heq.
  induction str as [|x rest IH]; intros [|y rest'] Heq.
  - done.
  - rewrite escapeXml_cons in Heq. exfalso. revert Heq. unfold escapeChar.
    by repeat (destruct (Ascii.eqb _ _)).
  - rewrite escapeXml_cons in Heq. exfalso. revert Heq. unfold escapeChar.
    by repeat (destruct (Ascii.eqb _ _)).
  - rewrite !escapeXml_cons in Heq. apply escapeChar_inj in Heq as [-> Heq].
    f_equal. by apply IH.
Qed.

(** A text that already reads as an entity is not taken for the character. *)
Lemma escapeXml_keeps_texts_apart_witness :
  escapeXml "&lt;" = "&amp;lt;"%string /\ escapeXml "<" = "&lt;"%string /\
  escapeXml "&lt;" <> escapeXml "<".
Proof.
  split; [done|]. split; [done|].
  apply (escapeXml_keeps_texts_apart "&lt;" "<"). discriminate.
Defined.

Lemma Qfloor_unique (y : Q) (z : Z) :
  inject_Z z <= y -> y < inject_Z (z + 1) -> Qfloor y = z.
Proof.
  intros Hlo Hhi.
  pose proof (Qfloor_le y) as Hfl. pose proof (Qlt_floor y) as Hfu.
  assert (inject_Z z < inject_Z (Qfloor y + 1)) as H1 by (eapply Qle_lt_trans; eauto).
  assert (inject_Z (Qfloor y) < inject_Z (z + 1)) as H2 by (eapply Qle_lt_trans; eauto).
  rewrite <- Zlt_Qlt in H1, H2. lia.
Qed.

Lemma Qfloor_div_nonneg (x : Q) (d : Z) :
  (0 < d)%Z -> Qfloor (x / inject_Z d) = (Qfloor x / d)%Z.
Proof.
  intros Hd. apply Qfloor_unique.
  - pose proof (Qfloor_le x) as Hfl.
    assert (inject_Z d * inject_Z (Qfloor x / d) <= inject_Z (Qfloor x)) as Hle.
    { rewrite <- inject_Z_mult, <- Zle_Qle. apply Z.mul_div_le. lia. }
    assert (0 < inject_Z d) as Hd' by (change (inject_Z 0 < inject_Z d); by rewrite <- Zlt_Qlt).
    apply Qle_shift_div_l; [done|]. rewrite Qmult_comm. by eapply Qle_trans.
  - pose proof (Qlt_floor x) as Hfu.
    assert (inject_Z (Qfloor x + 1) <= inject_Z d * inject_Z (Qfloor x / d + 1)) as Hle.
    { rewrite <- inject_Z_mult, <- Zle_Qle.
      pose proof (Z.mul_succ_div_gt (Qfloor x) d Hd). lia. }
    assert (0 < inject_Z d) as Hd' by (change (inject_Z 0 < inject_Z d); by rewrite <- Zlt_Qlt).
    apply Qlt_shift_div_r; [done|]. rewrite Qmult_comm. by eapply Qlt_le_trans.
Qed.

Lemma Qfloor_remainder (x : Q) (d : Z) :
  0 <= x -> (0 < d)%Z ->
  0 <= remainder x (inject_Z d) /\ Qfloor (remainder x (inject_Z d)) = (Qfloor x mod d)%Z.
Proof.
  intros Hx Hd. unfold remainder.
  assert (0 < inject_Z d) as Hd' by (change (inject_Z 0 < inject_Z d); by rewrite <- Zlt_Qlt).
  assert (0 <= x / inject_Z d) as Hq.
  { apply Qle_shift_div_l; [done|]. by rewrite Qmult_0_l. }
  rewrite truncate_floor_ceiling.
  destruct (Qle_bool 0 (x / inject_Z d)) eqn:Hb; [|by apply Qle_bool_iff in Hq; congruence].
  rewrite (Qfloor_div_nonneg x d Hd).
  pose proof (Qfloor_le x) as Hfl. pose proof (Qlt_floor x) as Hfu.
  pose proof (Z.mod_pos_bound (Qfloor x) d Hd) as Hmod.
  pose proof (Z.div_mod (Qfloor x) d ltac:(lia)) as Hdm.
  assert (inject_Z (Qfloor x) == inject_Z d * inject_Z (Qfloor x / d) + inject_Z (Qfloor x mod d))
    as Hsplit by (by rewrite <- inject_Z_mult, <- inject_Z_plus, <- Hdm).
  assert (0 <= inject_Z (Qfloor x mod d)) as Hm0
    by (change (inject_Z 0 <= inject_Z (Qfloor x mod d)); rewrite <- Zle_Qle; lia).
  split.
  - lra.
  - apply Qfloor_unique; [lra|]. rewrite inject_Z_plus. rewrite inject_Z_plus in Hfu.
    change (inject_Z 1) with 1 in *. lra.
Qed.

Lemma padStart2_two_digits (k : Z) : (0 <= k < 60)%Z -> padStart2 (pretty k) = twoDigits k.
Proof.
  intros Hk. rewrite <- (Z2Nat.id k) by lia.
  assert (Z.to_nat k < 60)%nat as Hn by lia. revert Hn. generalize (Z.to_nat k) as n.
  intros n Hn.
  do 60 (destruct n as [|n]; [vm_compute; reflexivity|]). lia.
Qed.

(** X23.  For a duration that is not negative and below 2^53 seconds,
    [formatDuration] prints the whole seconds [n] below it: minutes, a colon
    and two digits of seconds when [n] is under an hour, otherwise hours, two
    digits of minutes and two digits of seconds; the fraction of a second is
    dropped. *)
Theorem formatDuration_prints_the_whole_seconds (seconds : Q) :
  0 <= seconds -> seconds < inject_Z (2 ^ 53) ->
  let n := Qfloor seconds in
  formatDuration seconds
  = if (n <? 3600)%Z
    then pretty (n / 60)%Z +:+ ":" +:+ twoDigits (n mod 60)
    else pretty (n / 3600)%Z +:+ ":" +:+ twoDigits ((n mod 3600) / 60) +:+ ":" +:+
         twoDigits (n mod 60).
Proof.
  intros Hx _ n. unfold formatDuration.
  assert (0 <= n)%Z as Hn.
  { subst n. rewrite <- (Qfloor_Z 0). by apply Qfloor_resp_le. }
  change 3600 with (inject_Z 3600). change 60 with (inject_Z 60).
  destruct (Qfloor_remainder seconds 3600 Hx ltac:(lia)) as [Hr1 Hf1].
  destruct (Qfloor_remainder seconds 60 Hx ltac:(lia)) as [Hr2 Hf2].
  rewrite !Qfloor_div_nonneg by lia. rewrite Hf1, Hf2. fold n.
  pose proof (Z.mod_pos_bound n 3600 ltac:(lia)) as Hm1.
  pose proof (Z.mod_pos_bound n 60 ltac:(lia)) as Hm2.
  assert (0 <= n mod 3600 / 60 < 60)%Z as Hm3.
  { split; [apply Z.div_pos; lia|apply Z.div_lt_upper_bound; lia]. }
  rewrite !padStart2_two_digits by done.
  destruct (Z.ltb_spec n 3600) as [Hlt|Hge].
  - rewrite Z.div_small by lia. simpl. by rewrite Z.mod_small by lia.
  - assert (0 < n / 3600)%Z as Hh by (apply Z.div_str_pos; lia).
    by rewrite (proj2 (Z.ltb_lt 0 (n / 3600)) Hh).
Qed.

(** An hour, a minute and a second and a half. *)
Lemma formatDuration_prints_the_whole_seconds_witness :
  formatDuration (7323 # 2) = "1:01:01"%string /\ formatDuration 59.9 = "0:59"%string.
Proof.
  split.
  - rewrite (formatDuration_prints_the_whole_seconds (7323 # 2)); [by vm_compute|done..].
  - rewrite (formatDuration_prints_the_whole_seconds 59.9); [by vm_compute|done..].
Defined.

End RssFacts.

(** * The registry of speech providers *)

Module TtsFacts.
Import Audio Storage Workflow Notions Tts.

Lemma Map_set_keys {V} key (value : V) m k :
  k ∈ map fst (Map_set key value m) <-> k = key \/ k ∈ map fst m.
Proof.
  induction m as [|[k0 v0] rest IH]; simpl.
  - rewrite list_elem_of_singleton. split; [by left|]. intros [?|?%elem_of_nil]; done.
  - destruct (String.eqb_spec k0 key) as [->|Hne]; simpl.
    + rewrite !elem_of_cons. tauto.
    + rewrite !elem_of_cons, IH. tauto.
Qed.

Lemma keyed_register provider providers : keyed providers -> keyed (register provider providers).
Proof.
  unfold register. intros [Hnd Hall].
  induction providers as [|[k v] rest IH]; cbn [Map_set].
  - split; [apply NoDup_singleton|by repeat constructor].
  - apply NoDup_cons in Hnd as [Hnotin Hnd]. apply Forall_cons in Hall as [Hk Hall].
    destruct (String.eqb_spec k (provider_id provider)) as [->|Hne].
    + split; [by apply NoDup_cons|by constructor].
    + destruct (IH Hnd Hall) as [Hnd' Hall']. split; [|by constructor].
      cbn [map fst]. apply NoDup_cons. split; [|done].
      rewrite Map_set_keys. intros [?|?]; done.
Qed.

Lemma keyed_unregister id providers : keyed providers -> keyed (snd (unregister id providers)).
Proof.
  unfold unregister, Map_delete. simpl. intros [Hnd Hall].
  induction providers as [|[k v] rest IH]; [done|]. simpl.
  apply NoDup_cons in Hnd as [Hnotin Hnd]. apply Forall_cons in Hall as [Hk Hall].
  destruct (IH Hnd Hall) as [Hnd' Hall'].
  destruct (negb (String.eqb k id)); [|done]. split; [|by constructor].
  simpl. apply NoDup_cons. split; [|done]. intros Hin. apply Hnotin.
  change (map fst ?l) with (fst <$> l) in *.
  apply list_elem_of_fmap in Hin as (entry & Hentry & Hin).
  apply list_elem_of_fmap. exists entry. split; [done|].
  apply list_elem_of_In, filter_In in Hin as [Hin _]. by apply list_elem_of_In.
Qed.

Lemma built_keyed providers : built providers -> keyed providers.
Proof.
  induction 1 as [|provider providers _ IH|id providers _ IH].
  - split; [apply NoDup_nil_2|done].
  - by apply keyed_register.
  - by apply keyed_unregister.
Qed.

Lemma get_listed provider providers :
  keyed providers -> provider ∈ listAll providers ->
  get (provider_id provider) providers = Some provider.
Proof.
  unfold get, Map_get, listAll. intros [Hnd Hall] Hin.
  induction providers as [|[k v] rest IH]; [by apply elem_of_nil in Hin|].
  apply NoDup_cons in Hnd as [Hnotin Hnd]. apply Forall_cons in Hall as [Hk Hall].
  simpl in *. apply elem_of_cons in Hin as [->|Hin].
  - by rewrite Hk, String.eqb_refl.
  - destruct (String.eqb_spec k (provider_id provider)) as [Heq|Hne]; [|by apply IH].
    exfalso. apply Hnotin. rewrite Heq.
    change (map snd rest) with (snd <$> rest) in Hin.
    apply list_elem_of_fmap in Hin as ([k' v'] & -> & Hin).
    rewrite Forall_forall in Hall. rewrite <- (Hall _ Hin).
    change (map fst rest) with (fst <$> rest). by apply (list_elem_of_fmap_2 fst) in Hin.
Qed.

Lemma get_lists id provider providers :
  get id providers = Some provider -> provider ∈ listAll providers.
Proof.
  unfold get, Map_get, listAll. intros Hget.
  destruct (List.find _ _) as [[k v]|] eqn:Hfind; [|done]. injection Hget as ->.
  apply find_some in Hfind as [Hin _]. apply list_elem_of_In in Hin.
  change (map snd providers) with (snd <$> providers).
  by apply (list_elem_of_fmap_2 snd) in Hin.
Qed.

Lemma get_keyed id provider providers :
  keyed providers -> get id providers = Some provider -> provider_id provider = id.
Proof.
  unfold get, Map_get. intros [_ Hall] Hget.
  destruct (List.find _ _) as [[k v]|] eqn:Hfind; [|done]. injection Hget as ->.
  apply find_some in Hfind as [Hin Hk]. simpl in Hk. apply String.eqb_eq in Hk as <-.
  rewrite Forall_forall in Hall. symmetry. by apply (Hall (k, provider)), list_elem_of_In.
Qed.

(** X24.  In every registry the class can hold, the provider ids are
    distinct and are, in order, the ids of the listed providers, and [get]
    finds under an id exactly the listed provider with that id. *)
Theorem the_registry_lists_each_provider_under_its_id (providers : TtsRegistry) :
  built providers ->
  NoDup (getProviderIds providers) /\
  getProviderIds providers = map provider_id (listAll providers) /\
  forall id provider,
    get id providers = Some provider <->
    provider ∈ listAll providers /\ provider_id provider = id.
Proof.
  intros Hbuilt. pose proof (built_keyed _ Hbuilt) as Hkeyed.
  split; [apply Hkeyed|]. split.
  - destruct Hkeyed as [_ Hall]. clear Hbuilt. unfold getProviderIds, listAll.
    induction Hall as [|[k v] rest Hk _ IH]; [done|]. simpl in *. by rewrite Hk, IH.
  - intros id provider. split.
    + intros Hget. split; [by eapply get_lists|by eapply get_keyed].
    + intros [Hin <-]. by apply get_listed.
Qed.

(** X25.  In every registry the class can hold, a provider that
    [getConfiguredProviders] lists is reported as configured and is handed
    the calls of [generateSpeech] and [getVoices] made with its id.  For an
    id of no configured provider, [isProviderConfigured] is false,
    [getVoices] gives no voice and [generateSpeech] throws, with the message
    "Provider not found" when the id is not registered. *)
Theorem a_provider_listed_as_configured_is_served (providers : TtsRegistry)
  (config : TtsConfig) (options : SpeechOptions) :
  built providers ->
  (forall provider, provider ∈ getConfiguredProviders config providers ->
     isProviderConfigured (provider_id provider) config providers = true /\
     generateSpeech (provider_id provider) options config providers
     = provider_generateSpeech provider options config /\
     getVoices (provider_id provider) config providers = provider_getVoices provider config) /\
  (forall id,
     (forall provider, provider ∈ getConfiguredProviders config providers ->
                       provider_id provider <> id) ->
     isProviderConfigured id config providers = false /\
     getVoices id config providers = Ok [] /\
     exists message, generateSpeech id options config providers = Err (Error message) /\
       (has id providers = false ->
        message = "[TTS Registry] Provider not found: " +:+ id)).
Proof.
  intros Hbuilt. pose proof (built_keyed _ Hbuilt) as Hkeyed. split.
  - intros provider Hin. unfold getConfiguredProviders in Hin.
    apply list_elem_of_In, filter_In in Hin as [Hin Hconf]. apply list_elem_of_In in Hin.
    unfold isProviderConfigured, generateSpeech, getVoices.
    rewrite (get_listed _ _ Hkeyed Hin), Hconf. done.
  - intros id Hnone. unfold isProviderConfigured, generateSpeech, getVoices.
    destruct (get id providers) as [provider|] eqn:Hget.
    + assert (provider_isConfigured provider config = false) as Hconf.
      { destruct (provider_isConfigured provider config) eqn:Hconf; [|done].
        exfalso. apply (Hnone provider); [|by eapply get_keyed].
        unfold getConfiguredProviders. apply list_elem_of_In, filter_In. split; [|done].
        apply list_elem_of_In. by eapply get_lists. }
      rewrite Hconf. simpl. split; [done|]. split; [done|]. eexists. split; [done|].
      intros Hhas. exfalso. unfold has, Map_has in Hhas. unfold get, Map_get in Hget.
      destruct (List.find _ _) as [entry|] eqn:Hfind; [|done].
      apply find_some in Hfind as [Hin Hk].
      assert (existsb (fun entry => String.eqb (fst entry) id) providers = true) as Hex
        by (apply existsb_exists; by exists entry).
      by rewrite Hex in Hhas.
    + split; [done|]. split; [done|]. by eexists.
Qed.

(** The registry of [lib/tts/index.ts]. *)
Lemma the_registry_lists_each_provider_under_its_id_witness :
  getProviderIds ttsRegistry = ["gemini"; "elevenlabs"]%string /\
  get "gemini" ttsRegistry = Some geminiProvider.
Proof.
  assert (built ttsRegistry) as Hbuilt by (do 2 apply built_register; apply built_new).
  destruct (the_registry_lists_each_provider_under_its_id ttsRegistry Hbuilt)
    as (_ & _ & Hget).
  split; [done|]. apply Hget. split; [|done]. apply list_elem_of_here.
Defined.

(** With a Gemini key alone, Gemini is served and ElevenLabs is refused. *)
Lemma a_provider_listed_as_configured_is_served_witness :
  let config : TtsConfig := {[ "geminiApiKey"%string := "key"%string ]} in
  let options := mkSpeechOptions "Hello" "Puck" None None None in
  generateSpeech "gemini" options config ttsRegistry = Ok (mkSpeechResult "Hello" fmt_pcm) /\
  is_Ok (generateSpeech "elevenlabs" options config ttsRegistry) = false.
Proof.
  intros config options.
  assert (built ttsRegistry) as Hbuilt by (do 2 apply built_register; apply built_new).
  destruct (a_provider_listed_as_configured_is_served ttsRegistry config options Hbuilt)
    as [Hserved Hrefused].
  split.
  - destruct (Hserved geminiProvider) as (_ & Hspeech & _); [|exact Hspeech].
    unfold getConfiguredProviders. apply list_elem_of_In, filter_In. split; [by left|done].
  - destruct (Hrefused "elevenlabs"%string) as (_ & _ & message & -> & _); [|done].
    intros provider Hin. unfold getConfiguredProviders in Hin.
    apply list_elem_of_In, filter_In in Hin as [[<-|[<-|[]]] Hconf]; [done|].
    by vm_compute in Hconf.
Defined.

End TtsFacts.

(** * The resumable upload *)

Module YouTubeFacts.
Import Audio YouTube.

Lemma chunkSize_pos : (0 < chunkSize)%N.
Proof. done. Qed.

Lemma slice_length (start end_ : N) (bytes : list Z) :
  (start <= end_ <= N.of_nat (List.length bytes))%N ->
  N.of_nat (List.length (slice start end_ bytes)) = (end_ - start)%N.
Proof.
  intros Hb. unfold slice. rewrite length_take, length_drop. lia.
Qed.

Lemma slice_rest (start end_ : N) (bytes : list Z) :
  (start <= end_)%N ->
  slice start end_ bytes ++ drop (N.to_nat end_) bytes = drop (N.to_nat start) bytes.
Proof.
  intros Hb. unfold slice.
  rewrite <- (take_drop (N.to_nat end_ - N.to_nat start) (drop (N.to_nat start) bytes)) at 2.
  f_equal. rewrite drop_drop. f_equal. lia.
Qed.

Lemma next_chunk (bytes : list Z) (bytesUploaded : N) :
  (bytesUploaded < N.of_nat (List.length bytes))%N ->
  chunk_of bytes
    (mkChunkRequest bytesUploaded
       (N.min (bytesUploaded + chunkSize) (N.of_nat (List.length bytes)))
       (N.of_nat (List.length bytes))
       (slice bytesUploaded
          (N.min (bytesUploaded + chunkSize) (N.of_nat (List.length bytes))) bytes)).
Proof.
  intros Hlt. pose proof chunkSize_pos as Hc. unfold chunk_of. simpl.
  split_and!; [lia|lia|lia|done|done|apply slice_length; lia].
Qed.

Lemma uploadChunks_sends_chunks fuel server bytes bytesUploaded sent :
  Forall (chunk_of bytes) sent ->
  Forall (chunk_of bytes) (snd (uploadChunks fuel server bytes bytesUploaded sent)).
Proof.
  revert bytesUploaded sent. induction fuel as [|fuel IH]; intros bytesUploaded sent Hsent.
  - simpl. by destruct (_ <? _)%N.
  - cbn [uploadChunks]. destruct (N.ltb_spec bytesUploaded (N.of_nat (List.length bytes)))
      as [Hlt|Hge]; [|done].
    assert (Forall (chunk_of bytes)
              (sent ++ [mkChunkRequest bytesUploaded
                          (N.min (bytesUploaded + chunkSize) (N.of_nat (List.length bytes)))
                          (N.of_nat (List.length bytes))
                          (slice bytesUploaded
                             (N.min (bytesUploaded + chunkSize)
                                (N.of_nat (List.length bytes))) bytes)])) as Hsent'.
    { apply Forall_app. split; [done|]. constructor; [|done]. by apply next_chunk. }
    destruct (server _) as [range|[[id title]|e]|status message|e]; try done.
    by apply IH.
Qed.

(** X26.  Whatever the server answers and however long the loop runs, every
    [PUT] it sends carries a chunk of the video: a non-empty range inside
    the video, of at most [chunkSize] bytes, with the bytes of that range as
    body and the size of the video as total. *)
Theorem every_request_is_a_chunk_of_the_video (fuel : nat) (init : InitResponse)
  (server : Server) (videoBlob : Blob) :
  Forall (chunk_of (blob_bytes videoBlob)) (snd (uploadToYouTube fuel init server videoBlob)).
Proof.
  unfold uploadToYouTube. destruct init as [location|status message|e]; [|done..].
  destruct (negb (truthy location)); [done|].
  by apply uploadChunks_sends_chunks.
Qed.

Lemma uploadChunks_takes (server : Server) (answer : ChunkResponse) (bytes : list Z) :
  takes_chunks server -> ends_with server answer ->
  forall fuel bytesUploaded sent,
    (bytesUploaded < N.of_nat (List.length bytes))%N ->
    (List.length bytes - N.to_nat bytesUploaded <= fuel)%nat ->
    exists new,
      concat (map chunk_body new) = drop (N.to_nat bytesUploaded) bytes /\
      uploadChunks (S fuel) server bytes bytesUploaded sent
      = match answer with
        | Resume None =>
            (Some (Err (Error "上傳未完成")), sent ++ new)
        | Created (Ok (id, title)) =>
            (Some (Ok (mkUploadResult id title ("https://www.youtube.com/watch?v=" +:+ id))),
             sent ++ new)
        | _ => uploadChunks (S fuel) server bytes bytesUploaded sent
        end.
Proof.
  intros Htakes Hends. pose proof chunkSize_pos as Hc.
  induction fuel as [|fuel IH]; intros bytesUploaded sent Hlt Hfuel; [lia|].
  set (total := N.of_nat (List.length bytes)) in *.
  set (end_ := N.min (bytesUploaded + chunkSize) total).
  set (c := mkChunkRequest bytesUploaded end_ total (slice bytesUploaded end_ bytes)).
  assert (bytesUploaded < end_ <= total)%N as Hbounds by (unfold end_; lia).
  assert (uploadChunks (S (S fuel)) server bytes bytesUploaded sent
          = match server (sent ++ [c]) with
            | Resume range =>
                uploadChunks (S fuel) server bytes
                  match range with
                  | Some (Some last) => (last + 1)%N
                  | Some None => bytesUploaded
                  | None => end_
                  end (sent ++ [c])
            | Created (Ok (id, title)) =>
                (Some (Ok (mkUploadResult id title
                             ("https://www.youtube.com/watch?v=" +:+ id))), sent ++ [c])
            | Created (Err e) => (Some (Err e), sent ++ [c])
            | Refused status message =>
                (Some (Err (Error (if truthy message then default "" message
                                   else "上傳失敗: " +:+ pretty status))), sent ++ [c])
            | Unreachable e => (Some (Err e), sent ++ [c])
            end) as Hstep.
  { change (uploadChunks (S (S fuel)) server bytes bytesUploaded sent)
      with (if (bytesUploaded <? total)%N
            then match server (sent ++ [c]) with
                 | Resume range =>
                     uploadChunks (S fuel) server bytes
                       match range with
                       | Some (Some last) => (last + 1)%N
                       | Some None => bytesUploaded
                       | None => end_
                       end (sent ++ [c])
                 | Created (Ok (id, title)) =>
                     (Some (Ok (mkUploadResult id title
                                  ("https://www.youtube.com/watch?v=" +:+ id))),
                      sent ++ [c])
                 | Created (Err e) => (Some (Err e), sent ++ [c])
                 | Refused status message =>
                     (Some (Err (Error (if truthy message then default "" message
                                        else "上傳失敗: " +:+ pretty status))),
                      sent ++ [c])
                 | Unreachable e => (Some (Err e), sent ++ [c])
                 end
            else (Some (Err (Error "上傳未完成")), sent)).
    by rewrite (proj2 (N.ltb_lt _ _) Hlt). }
  destruct (N.ltb_spec end_ total) as [Hmore|Hlast].
  - (* a chunk that does not end the video *)
    assert (uploadChunks (S (S fuel)) server bytes bytesUploaded sent
            = uploadChunks (S fuel) server bytes end_ (sent ++ [c])) as Hnext.
    { rewrite Hstep. destruct (Htakes sent c Hmore) as [->| ->]; [done|].
      cbv beta iota. change (chunk_end c) with end_.
      by replace (end_ - 1 + 1)%N with end_ by lia. }
    destruct (IH end_ (sent ++ [c]) Hmore ltac:(unfold total in *; lia))
      as (new & Hnew & Hrun).
    exists (c :: new). split.
    + simpl. rewrite Hnew. apply slice_rest. lia.
    + destruct answer as [[[last|]|]|[[id title]|e]|status message|e]; try reflexivity;
        by rewrite Hnext, Hrun, <- app_assoc.
  - (* the chunk that ends it *)
    assert (end_ = total) as Hend by lia.
    exists [c]. split.
    + simpl. rewrite app_nil_r. unfold slice. rewrite take_ge; [done|].
      rewrite length_drop, Hend. unfold total. lia.
    + destruct answer as [[[last|]|]|[[id title]|e]|status message|e]; try reflexivity;
        rewrite Hstep, (Hends sent c Hend); [|done].
      cbn [uploadChunks]. fold total.
      by rewrite (proj2 (N.ltb_ge end_ total) ltac:(lia)).
Qed.

(** X27.  When the server takes every chunk and answers the one that ends
    the video with the created video, the upload resolves with the id, the
    title and the watch URL of that video, and the bodies of the requests
    sent are the video, byte for byte and once, in order. *)
Theorem a_server_that_takes_every_chunk_gets_the_video_once (fuel : nat)
  (location : option string) (server : Server) (videoBlob : Blob) (id title : string) :
  truthy location = true -> blob_bytes videoBlob <> [] ->
  takes_chunks server -> ends_with server (Created (Ok (id, title))) ->
  (List.length (blob_bytes videoBlob) < fuel)%nat ->
  exists sent,
    uploadToYouTube fuel (Opened location) server videoBlob
    = (Some (Ok (mkUploadResult id title ("https://www.youtube.com/watch?v=" +:+ id))),
       sent) /\
    concat (map chunk_body sent) = blob_bytes videoBlob.
Proof.
  intros Hloc Hbytes Htakes Hends Hfuel. unfold uploadToYouTube. rewrite Hloc. simpl.
  destruct fuel as [|fuel]; [lia|].
  destruct (uploadChunks_takes server _ (blob_bytes videoBlob) Htakes Hends fuel 0 [])
    as (new & Hnew & Hrun).
  - destruct (blob_bytes videoBlob); [done|]. simpl. lia.
  - lia.
  - exists new. by rewrite Hrun.
Qed.

(** X28.  When the server answers 308 to the chunk that ends the video too,
    the loop ends and the upload is rejected as not completed although the
    whole video was sent; an empty video is rejected in the same way without
    any request. *)
Theorem an_upload_that_is_never_confirmed_fails (fuel : nat) (location : option string)
  (server : Server) (videoBlob : Blob) :
  truthy location = true ->
  takes_chunks server -> ends_with server (Resume None) ->
  (List.length (blob_bytes videoBlob) < fuel)%nat ->
  exists sent,
    uploadToYouTube fuel (Opened location) server videoBlob
    = (Some (Err (Error "上傳未完成")), sent) /\
    concat (map chunk_body sent) = blob_bytes videoBlob /\
    (blob_bytes videoBlob = [] -> sent = []).
Proof.
  intros Hloc Htakes Hends Hfuel. unfold uploadToYouTube. rewrite Hloc. simpl.
  destruct fuel as [|fuel]; [lia|].
  destruct (blob_bytes videoBlob) as [|b bytes] eqn:Hbytes.
  { by exists []. }
  destruct (uploadChunks_takes server _ (b :: bytes) Htakes Hends fuel 0 [])
    as (new & Hnew & Hrun); [simpl; lia|simpl in *; lia|].
  exists new. by rewrite Hrun.
Qed.

(** X29.  When every answer is a 308 whose [Range] header does not match
    the pattern, [bytesUploaded] never moves: after any number of turns the
    loop is still running and has sent the first chunk that many times. *)
Theorem an_unreadable_range_resends_the_chunk_for_ever (fuel : nat)
  (location : option string) (server : Server) (videoBlob : Blob) :
  truthy location = true -> blob_bytes videoBlob <> [] ->
  (forall sent, server sent = Resume (Some None)) ->
  uploadToYouTube fuel (Opened location) server videoBlob
  = (None, replicate fuel (firstChunk (blob_bytes videoBlob))).
Proof.
  intros Hloc Hbytes Hserver. unfold uploadToYouTube. rewrite Hloc. simpl.
  assert ((0 <? N.of_nat (List.length (blob_bytes videoBlob)))%N = true) as Hlt.
  { apply N.ltb_lt. destruct (blob_bytes videoBlob); [done|]. simpl. lia. }
  assert (forall sent,
            uploadChunks fuel server (blob_bytes videoBlob) 0 sent
            = (None, sent ++ replicate fuel (firstChunk (blob_bytes videoBlob)))) as Hloop.
  { induction fuel as [|fuel IH]; intros sent; cbn [uploadChunks]; rewrite Hlt.
    - by rewrite app_nil_r.
    - rewrite Hserver. rewrite IH. by rewrite <- app_assoc. }
  apply Hloop.
Qed.

(** The three-byte video goes up in one chunk. *)
Lemma a_server_that_takes_every_chunk_gets_the_video_once_witness :
  uploadToYouTube 4 opened creatingServer tinyVideo
  = (Some (Ok (mkUploadResult "v1" "Episode" "https://www.youtube.com/watch?v=v1")),
     [mkChunkRequest 0 3 3 [1; 2; 3]%Z]).
Proof.
  destruct (a_server_that_takes_every_chunk_gets_the_video_once 4
              (Some "https://upload.example/session"%string) creatingServer tinyVideo
              "v1" "Episode") as (sent & Hrun & _).
  - done.
  - done.
  - intros sent c Hc. left. unfold creatingServer. rewrite last_snoc.
    by rewrite (proj2 (N.ltb_lt _ _) Hc).
  - intros sent c Hc. unfold creatingServer. rewrite last_snoc.
    by rewrite Hc, N.ltb_irrefl.
  - simpl. lia.
  - by vm_compute.
Defined.

(** The same video sent to a server that only ever answers 308. *)
Lemma an_upload_that_is_never_confirmed_fails_witness :
  exists sent,
    uploadToYouTube 4 opened resumingServer tinyVideo
    = (Some (Err (Error "上傳未完成")), sent) /\
    concat (map chunk_body sent) = [1; 2; 3]%Z.
Proof.
  destruct (an_upload_that_is_never_confirmed_fails 4
              (Some "https://upload.example/session"%string) resumingServer tinyVideo)
    as (sent & Hrun & Hsent & _).
  - done.
  - intros sent c Hc. by left.
  - by intros sent c Hc.
  - simpl. lia.
  - by exists sent.
Defined.

(** After ten turns the loop has sent the one chunk ten times. *)
Lemma an_unreadable_range_resends_the_chunk_for_ever_witness :
  uploadToYouTube 10 opened garbledServer tinyVideo
  = (None, replicate 10 (mkChunkRequest 0 3 3 [1; 2; 3]%Z)).
Proof.
  exact (an_unreadable_range_resends_the_chunk_for_ever 10
           (Some "https://upload.example/session"%string) garbledServer tinyVideo
           eq_refl ltac:(discriminate) (fun _ => eq_refl)).
Defined.

End YouTubeFacts.
